(** * Fair-distribution shuffle of the prize draw

    A shallow embedding of [fairDistributionShuffle] (lib/supabaseClient,
    lines 71-228 of src/supabase-schema.sql) and the proofs of its
    properties.  JavaScript values are modelled as follows.

    - [Student] objects are immutable records; [obj_ref] is the identity of
      the object (what [Array.prototype.indexOf] compares with [===]).
    - A [Map<string, V>] is an association list in insertion order
      ([Map_get], [Map_set]): iteration order decides the ties of the
      lowest-cooldown fallbacks.
    - A [Set<string>] is a duplicate-free list in insertion order.
    - Cooldown counters are integers ([Z]); [Infinity] is [None] in an
      [option Z].
    - [null], [undefined] are [None]; the truthiness test of a string is
      written out ([truthy_level]): the empty string is falsy.
    - The random source and [Array.prototype.sort] belong to the engine
      ([JsEngine]).
    - An object used as a record of counts is the list of its own
      properties in the order in which the engine enumerates them: array
      indices ascending, then the other keys as inserted
      ([Object_fromEntries]).
    - A row of an imported file is the list of its cells by column
      ([CsvRow]); what the service does with an [id] cell and with
      columns that the table does not have is a parameter ([Postgrest]).
    - An [async] function is given as a whole, its request answered at
      once, and split at its [await] ([..._resume]); the draw page runs
      its handlers up to their [await] and takes further events before the
      answer arrives ([session]).

    The last part of the file covers the code around the shuffle: the
    draws and the requests of lib/supabaseClient over a model of the
    table, the administration page and the draw page. *)

From stdpp Require Import base option list strings gmap sorting pretty.
From Stdlib Require Import ZArith Lia Ascii.

Local Open Scope Z_scope.

(** ** Data model *)

Record Student := mkStudent {
  obj_ref : nat;
  id : Z;
  level : string;
  room : string;
  number : string;
  name : string;
  is_winner : bool
}.

#[global] Instance Student_eq_dec : EqDecision Student.
Proof. solve_decision. Defined.

(** ** The engine: random source and built-in sort

    [sort_random l] is [l.sort(() => Math.random() - 0.5)]: the comparator
    ignores its arguments, so the order produced depends on the engine's
    sorting algorithm and on the values drawn; the only thing relied upon is
    that sorting rearranges the array.  [random_index n] is
    [Math.floor(Math.random() * n)]; [Math.random()] lies in [[0, 1)], hence
    the index is below [n]. *)

Class JsEngine := {
  rng : Type;
  sort_random : ∀ {A : Type}, list A → rng → list A * rng;
  random_index : nat → rng → nat * rng;
  sort_random_perm : ∀ (A : Type) (l : list A) (r : rng),
    (sort_random l r).1 ≡ₚ l;
  random_index_lt : ∀ (n : nat) (r : rng),
    (0 < n)%nat → ((random_index n r).1 < n)%nat
}.

(** ** JavaScript [Map] and [Set] with string keys *)

Section JsMap.
Context {V : Type}.

Fixpoint Map_get (m : list (string * V)) (k : string) : option V :=
  match m with
  | [] => None
  | (k', v) :: m' => if decide (k' = k) then Some v else Map_get m' k
  end.

(** [set] on a present key keeps the entry at its place; a new key is
    appended. *)
Fixpoint Map_set (m : list (string * V)) (k : string) (v : V)
  : list (string * V) :=
  match m with
  | [] => [(k, v)]
  | (k', v') :: m' =>
      if decide (k' = k) then (k, v) :: m' else (k', v') :: Map_set m' k v
  end.
End JsMap.

Definition Set_add (s : list string) (x : string) : list string :=
  if decide (x ∈ s) then s else s ++ [x].

(** ** Objects with string keys

    An ordinary object lists its own properties with the array indices
    first, in ascending order, and then the other keys in the order in
    which they were created.  An array index is a key that is the decimal
    numeral of an integer up to 2^32 - 2, the way the engine writes the
    integer ([pretty]): no sign, no leading zero. *)

Definition digit_value (a : ascii) : option N :=
  let n := N_of_ascii a in
  if decide (48 ≤ n ≤ 57)%N then Some (n - 48)%N else None.

Fixpoint decimal (s : string) (acc : N) : option N :=
  match s with
  | EmptyString => Some acc
  | String a s' =>
      match digit_value a with
      | Some d => decimal s' (10 * acc + d)%N
      | None => None
      end
  end.

Definition array_index (k : string) : option N :=
  match decimal k 0 with
  | Some n =>
      if decide (pretty n = k ∧ (n ≤ 4294967294)%N) then Some n else None
  | None => None
  end.

Section JsObject.
Context {V : Type}.

(** The properties that are array indices, each with its index. *)
Definition indexed (props : list (string * V)) : list (N * (string * V)) :=
  omap (λ e, (λ n, (n, e)) <$> array_index e.1) props.

Definition index_le (a b : N * (string * V)) : Prop := (a.1 ≤ b.1)%N.

#[global] Instance index_le_dec : RelDecision index_le.
Proof. intros a b. unfold index_le. apply _. Defined.

(** The own properties in the order in which the object lists them. *)
Definition own_properties (props : list (string * V)) : list (string * V) :=
  (snd <$> merge_sort index_le (indexed props)) ++
  filter (λ e, array_index e.1 = None) props.

(** [Object.fromEntries(entries)]: a property is created or, when the key
    is there already, given the new value. *)
Definition Object_fromEntries (entries : list (string * V))
  : list (string * V) :=
  own_properties (foldl (λ obj e, Map_set obj e.1 e.2) [] entries).
End JsObject.

(** ** Setup of [fairDistributionShuffle] *)

(** Group students by level. *)
Definition group_step (byLevel : list (string * list Student))
    (student : Student) : list (string * list Student) :=
  let levelStudents := default [] (Map_get byLevel (level student)) in
  Map_set byLevel (level student) (levelStudents ++ [student]).

Definition group_by_level (students : list Student)
  : list (string * list Student) :=
  foldl group_step [] students.

(** Count unique rooms per level. *)
Definition rooms_step (roomsPerLevel : list (string * list string))
    (student : Student) : list (string * list string) :=
  let rooms := default [] (Map_get roomsPerLevel (level student)) in
  Map_set roomsPerLevel (level student) (Set_add rooms (room student)).

Definition rooms_per_level (students : list Student)
  : list (string * list string) :=
  foldl rooms_step [] students.

(** [roomsPerLevel.get(level)?.size || 1] *)
Definition roomCount (roomsPerLevel : list (string * list string))
    (lvl : string) : Z :=
  match Map_get roomsPerLevel lvl with
  | None => 1
  | Some rooms => if decide (length rooms = 0%nat) then 1
                  else Z.of_nat (length rooms)
  end.

Definition LEVEL_COOLDOWN : Z := 5.

(** [`${level}-${room}`] *)
Definition roomKey (lvl rm : string) : string := lvl +:+ "-" +:+ rm.

(** [map.get(key) || 0] *)
Definition cooldown_of (m : list (string * Z)) (k : string) : Z :=
  match Map_get m k with
  | None => 0
  | Some cd => cd
  end.

(** Truthiness of a [string | null]. *)
Definition truthy_level (l : option string) : bool :=
  match l with
  | None => false
  | Some s => bool_decide (s ≠ "")
  end.

(** ** State of the pick loop *)

Record State := mkState {
  byLevel : list (string * list Student);
  result : list Student;
  levelCooldown : list (string * Z);
  roomCooldown : list (string * Z)
}.

(** [cooldown < min] where [min] starts as [Infinity]. *)
Definition below_min (cooldown : Z) (min : option Z) : bool :=
  match min with
  | None => true
  | Some m => bool_decide (cooldown < m)
  end.

(** Levels that have students and are not on cooldown. *)
Fixpoint collect_available (levelCooldown : list (string * Z))
    (entries : list (string * list Student)) : list string :=
  match entries with
  | [] => []
  | (lvl, levelStudents) :: rest =>
      if decide (length levelStudents = 0%nat)
      then collect_available levelCooldown rest
      else if decide (cooldown_of levelCooldown lvl ≤ 0)
      then lvl :: collect_available levelCooldown rest
      else collect_available levelCooldown rest
  end.

(** The level with the lowest cooldown among those that have students. *)
Fixpoint lowest_cooldown_level (levelCooldown : list (string * Z))
    (entries : list (string * list Student))
    (minCooldown : option Z) (bestLevel : option string) : option string :=
  match entries with
  | [] => bestLevel
  | (lvl, levelStudents) :: rest =>
      if decide (length levelStudents = 0%nat)
      then lowest_cooldown_level levelCooldown rest minCooldown bestLevel
      else
        let cooldown := cooldown_of levelCooldown lvl in
        if below_min cooldown minCooldown
        then lowest_cooldown_level levelCooldown rest (Some cooldown) (Some lvl)
        else lowest_cooldown_level levelCooldown rest minCooldown bestLevel
  end.

(** The candidate levels of one iteration and whether the lowest-cooldown
    fallback produced them; [None] is the [break] of "no more students". *)
Definition candidate_levels (st : State) : option (list string * bool) :=
  let availableLevels := collect_available (levelCooldown st) (byLevel st) in
  if decide (length availableLevels = 0%nat) then
    let bestLevel :=
      lowest_cooldown_level (levelCooldown st) (byLevel st) None None in
    if truthy_level bestLevel
    then Some (option_list bestLevel, true)
    else None
  else Some (availableLevels, false).

(** Students of a level whose rooms are not on cooldown. *)
Definition valid_students (roomCooldown : list (string * Z)) (lvl : string)
    (levelStudents : list Student) : list Student :=
  filter (λ s, cooldown_of roomCooldown (roomKey lvl (room s)) ≤ 0)
         levelStudents.

(** The student whose room has the lowest cooldown. *)
Fixpoint lowest_cooldown_student (roomCooldown : list (string * Z))
    (lvl : string) (levelStudents : list Student)
    (minRoomCooldown : option Z) (bestStudent : option Student)
  : option Student :=
  match levelStudents with
  | [] => bestStudent
  | s :: rest =>
      let cooldown := cooldown_of roomCooldown (roomKey lvl (room s)) in
      if below_min cooldown minRoomCooldown
      then lowest_cooldown_student roomCooldown lvl rest (Some cooldown) (Some s)
      else lowest_cooldown_student roomCooldown lvl rest
             minRoomCooldown bestStudent
  end.

(** The candidates of one level and whether the room fallback was used. *)
Definition level_candidates (roomCooldown : list (string * Z)) (lvl : string)
    (levelStudents : list Student) : list Student * bool :=
  let validStudents := valid_students roomCooldown lvl levelStudents in
  if decide (length validStudents = 0%nat) then
    match lowest_cooldown_student roomCooldown lvl levelStudents None None with
    | Some bestStudent => ([bestStudent], true)
    | None => (validStudents, true)
    end
  else (validStudents, false).

(** The emergency fallback: the first student of the first bucket that has
    one. *)
Fixpoint first_remaining (entries : list (string * list Student))
  : option (Student * string) :=
  match entries with
  | [] => None
  | (lvl, levelStudents) :: rest =>
      match levelStudents with
      | s :: _ => Some (s, lvl)
      | [] => first_remaining rest
      end
  end.

(** [!selectedStudent || !selectedLevel] *)
Definition nothing_selected (selectedStudent : option Student)
    (selectedLevel : option string) : bool :=
  negb (bool_decide (is_Some selectedStudent)) || negb (truthy_level selectedLevel).

(** [indexOf]: the first position holding this very object; [None] is -1. *)
Fixpoint indexOf (l : list Student) (s : Student) : option nat :=
  match l with
  | [] => None
  | x :: l' => if decide (x = s) then Some 0%nat else S <$> indexOf l' s
  end.

(** [l.splice(idx, 1)]; a negative start counts from the end, so -1 removes
    the last element. *)
Definition splice1 (l : list Student) (idx : option nat) : list Student :=
  match idx with
  | Some i => delete i l
  | None => delete (length l - 1)%nat l
  end.

(** "Decrease all cooldowns by 1", except the key just set. *)
Definition decrease_others (m : list (string * Z)) (key : string)
  : list (string * Z) :=
  (λ e : string * Z,
     if decide (e.1 ≠ key) then (e.1, Z.max (e.2 - 1) 0) else e) <$> m.

Inductive Completion (A : Type) :=
  | Normal (a : A)
  | Throw
  | OutOfFuel.
Arguments Normal {A} a.
Arguments Throw {A}.
Arguments OutOfFuel {A}.

(** One pick, as observed: the level and student committed and the branches
    taken to find them. *)
Record Pick := mkPick {
  pick_level : string;
  pick_student : Student;
  level_forced : bool;
  room_forced : bool;
  emergency : bool
}.

(** The commit of a pick.  [byLevel.get(selectedLevel)!] of an absent level
    is [undefined] and [indexOf] on it throws a [TypeError]: [None]. *)
Definition commit (roomsPerLevel : list (string * list string)) (st : State)
    (selectedStudent : Student) (selectedLevel : string) : option State :=
  match Map_get (byLevel st) selectedLevel with
  | None => None
  | Some levelStudents =>
      let idx := indexOf levelStudents selectedStudent in
      let byLevel' :=
        Map_set (byLevel st) selectedLevel (splice1 levelStudents idx) in
      let levelCooldown' :=
        Map_set (levelCooldown st) selectedLevel LEVEL_COOLDOWN in
      let roomCount := roomCount roomsPerLevel selectedLevel in
      let roomKey := roomKey selectedLevel (room selectedStudent) in
      let roomCooldown' :=
        Map_set (roomCooldown st) roomKey (Z.max (roomCount - 1) 0) in
      Some {| byLevel := byLevel';
              result := result st ++ [selectedStudent];
              levelCooldown := decrease_others levelCooldown' selectedLevel;
              roomCooldown := decrease_others roomCooldown' roomKey |}
  end.

Section Shuffle.
Context {E : JsEngine}.

(** Shuffle students within each level, in the iteration order of the map. *)
Fixpoint shuffle_levels (byLevel : list (string * list Student)) (r : rng)
  : list (string * list Student) * rng :=
  match byLevel with
  | [] => ([], r)
  | (lvl, levelStudents) :: rest =>
      let '(sorted, r1) := sort_random levelStudents r in
      let '(rest', r2) := shuffle_levels rest r1 in
      ((lvl, sorted) :: rest', r2)
  end.

(** "Try each available level": the selection, whether the room fallback
    was used, and the random source.  [byLevel.get(level)!] of an absent
    level is [undefined] and [filter] on it throws a [TypeError]: [None]. *)
Fixpoint try_levels (availableLevels : list string) (st : State) (r : rng)
  : option (option Student * option string * bool * rng) :=
  match availableLevels with
  | [] => Some (None, None, false, r)
  | lvl :: rest =>
      match Map_get (byLevel st) lvl with
      | None => None
      | Some levelStudents =>
          let '(validStudents, forced) :=
            level_candidates (roomCooldown st) lvl levelStudents in
          if decide (0 < length validStudents)%nat then
            let '(randomIndex, r') := random_index (length validStudents) r in
            Some (validStudents !! randomIndex, Some lvl, forced, r')
          else try_levels rest st r
      end
  end.

Inductive Outcome :=
  | Picked (st' : State) (r' : rng) (ev : Pick)
  | Broke (r' : rng)
  | Threw.

(** The first half of the body of the [while] loop, which only reads: the
    selection of a student and a level.  [None] is a [TypeError],
    [Some (None, _)] one of the two [break]s. *)
Definition select_pick (st : State) (r : rng) : option (option Pick * rng) :=
  match candidate_levels st with
  | None => Some (None, r)
  | Some (availableLevels, lforced) =>
      let '(availableLevels, r1) := sort_random availableLevels r in
      match try_levels availableLevels st r1 with
      | None => None
      | Some (selectedStudent, selectedLevel, rforced, r2) =>
          let urgent := nothing_selected selectedStudent selectedLevel in
          let '(selectedStudent, selectedLevel) :=
            if urgent then
              match first_remaining (byLevel st) with
              | Some (s, lvl) => (Some s, Some lvl)
              | None => (selectedStudent, selectedLevel)
              end
            else (selectedStudent, selectedLevel) in
          if nothing_selected selectedStudent selectedLevel then Some (None, r2)
          else
            match selectedStudent, selectedLevel with
            | Some s, Some lvl =>
                Some (Some {| pick_level := lvl; pick_student := s;
                              level_forced := lforced; room_forced := rforced;
                              emergency := urgent |}, r2)
            | _, _ => Some (None, r2)
            end
      end
  end.

(** The body of the [while] loop: the selection, then the commit. *)
Definition loop_body (roomsPerLevel : list (string * list string))
    (st : State) (r : rng) : Outcome :=
  match select_pick st r with
  | None => Threw
  | Some (None, r') => Broke r'
  | Some (Some ev, r') =>
      match commit roomsPerLevel st (pick_student ev) (pick_level ev) with
      | Some st' => Picked st' r' ev
      | None => Threw
      end
  end.

(** A finished run: the array returned, the random source left, the
    picks with the state each was made in, the state the loop ended in
    (absent when the loop was not entered), and whether a [break] ended
    it. *)
Record Run := mkRun {
  run_result : list Student;
  run_rng : rng;
  run_trace : list (State * Pick);
  run_final : option State;
  run_broke : bool
}.

(** [while (result.length < students.length)], at most [fuel] iterations. *)
Fixpoint pick_loop (fuel : nat) (size : nat)
    (roomsPerLevel : list (string * list string)) (st : State) (r : rng)
  : Completion Run :=
  if decide (length (result st) < size)%nat then
    match fuel with
    | O => OutOfFuel
    | S fuel' =>
        match loop_body roomsPerLevel st r with
        | Picked st' r' ev =>
            match pick_loop fuel' size roomsPerLevel st' r' with
            | Normal run =>
                Normal {| run_result := run_result run;
                          run_rng := run_rng run;
                          run_trace := (st, ev) :: run_trace run;
                          run_final := run_final run;
                          run_broke := run_broke run |}
            | other => other
            end
        | Broke r' =>
            Normal {| run_result := result st; run_rng := r';
                      run_trace := []; run_final := Some st;
                      run_broke := true |}
        | Threw => Throw
        end
    end
  else Normal {| run_result := result st; run_rng := r;
                 run_trace := []; run_final := Some st;
                 run_broke := false |}.

Definition initial_state (byLevel : list (string * list Student)) : State :=
  {| byLevel := byLevel; result := [];
     levelCooldown := []; roomCooldown := [] |}.

Definition fairDistributionShuffle_run (fuel : nat)
    (students : list Student) (r : rng) : Completion Run :=
  if decide (length students ≤ 2)%nat then
    Normal {| run_result := students; run_rng := r;
              run_trace := []; run_final := None; run_broke := false |}
  else
    let byLevel := group_by_level students in
    let roomsPerLevel := rooms_per_level students in
    let '(byLevel, r1) := shuffle_levels byLevel r in
    pick_loop fuel (length students) roomsPerLevel (initial_state byLevel) r1.

(** The function itself: one iteration of the loop per student is always
    enough (see [shuffle_terminates]). *)
Definition fairDistributionShuffle (students : list Student) (r : rng)
  : Completion (list Student) :=
  match fairDistributionShuffle_run (length students) students r with
  | Normal run => Normal (run_result run)
  | Throw => Throw
  | OutOfFuel => OutOfFuel
  end.

End Shuffle.

(** ** The arrays as objects in a heap

    [fairDistributionShuffle] receives a reference to an array, creates
    arrays of its own (the buckets, the result) and changes arrays in place
    ([push], [sort], [splice]).  Here the arrays that are written live in a
    heap, at locations; the map of buckets holds locations.  The selection
    of a pick only reads, and reads through [view]. *)

Definition array_at (h : gmap nat (list Student)) (l : nat) : list Student :=
  default [] (h !! l).

Record HeapState := mkHeapState {
  h_byLevel : list (string * nat);
  h_result : nat;
  h_levelCooldown : list (string * Z);
  h_roomCooldown : list (string * Z)
}.

Definition deref (h : gmap nat (list Student)) (byLevel : list (string * nat))
  : list (string * list Student) :=
  (λ e, (e.1, array_at h e.2)) <$> byLevel.
Arguments deref : simpl never.

Definition view (h : gmap nat (list Student)) (hs : HeapState) : State :=
  {| byLevel := deref h (h_byLevel hs);
     result := array_at h (h_result hs);
     levelCooldown := h_levelCooldown hs;
     roomCooldown := h_roomCooldown hs |}.

(** Group students by level: [byLevel.get(level) || []] is the array of the
    level or a new one; the student is pushed on it. *)
Definition group_step_heap
    (acc : list (string * nat) * gmap nat (list Student)) (student : Student)
  : list (string * nat) * gmap nat (list Student) :=
  let lh :=
    match Map_get acc.1 (level student) with
    | Some l => (l, acc.2)
    | None => (fresh (dom acc.2), <[fresh (dom acc.2) := []]> acc.2)
    end in
  (Map_set acc.1 (level student) lh.1,
   <[lh.1 := array_at lh.2 lh.1 ++ [student]]> lh.2).

Definition group_by_level_heap (h : gmap nat (list Student))
    (students : list Student) : list (string * nat) * gmap nat (list Student) :=
  foldl group_step_heap ([], h) students.

Section HeapShuffle.
Context {E : JsEngine}.

(** Each bucket is sorted in place. *)
Fixpoint shuffle_levels_heap (entries : list (string * nat))
    (h : gmap nat (list Student)) (r : rng) : gmap nat (list Student) * rng :=
  match entries with
  | [] => (h, r)
  | (lvl, l) :: rest =>
      let '(sorted, r1) := sort_random (array_at h l) r in
      shuffle_levels_heap rest (<[l := sorted]> h) r1
  end.

(** The commit: [result.push], then [splice] on the bucket. *)
Definition commit_heap (roomsPerLevel : list (string * list string))
    (hs : HeapState) (h : gmap nat (list Student))
    (selectedStudent : Student) (selectedLevel : string)
  : option (HeapState * gmap nat (list Student)) :=
  let h1 :=
    <[h_result hs := array_at h (h_result hs) ++ [selectedStudent]]> h in
  match Map_get (h_byLevel hs) selectedLevel with
  | None => None
  | Some l =>
      let levelStudents := array_at h1 l in
      let idx := indexOf levelStudents selectedStudent in
      let roomKey := roomKey selectedLevel (room selectedStudent) in
      Some ({| h_byLevel := h_byLevel hs;
               h_result := h_result hs;
               h_levelCooldown :=
                 decrease_others
                   (Map_set (h_levelCooldown hs) selectedLevel LEVEL_COOLDOWN)
                   selectedLevel;
               h_roomCooldown :=
                 decrease_others
                   (Map_set (h_roomCooldown hs) roomKey
                      (Z.max (roomCount roomsPerLevel selectedLevel - 1) 0))
                   roomKey |},
            <[l := splice1 levelStudents idx]> h1)
  end.

(** The loop; [students] is the location of the input array, whose length
    the condition reads. *)
Fixpoint pick_loop_heap (fuel : nat) (students : nat)
    (roomsPerLevel : list (string * list string))
    (hs : HeapState) (h : gmap nat (list Student)) (r : rng)
  : Completion (nat * gmap nat (list Student) * rng) :=
  if decide (length (array_at h (h_result hs))
             < length (array_at h students))%nat then
    match fuel with
    | O => OutOfFuel
    | S fuel' =>
        match select_pick (view h hs) r with
        | None => Throw
        | Some (None, r') => Normal (h_result hs, h, r')
        | Some (Some ev, r') =>
            match commit_heap roomsPerLevel hs h
                    (pick_student ev) (pick_level ev) with
            | Some (hs', h') =>
                pick_loop_heap fuel' students roomsPerLevel hs' h' r'
            | None => Throw
            end
        end
    end
  else Normal (h_result hs, h, r).

(** The function on the heap: it returns the location of the array
    returned, the heap and the random source. *)
Definition fairDistributionShuffle_heap (fuel : nat)
    (h : gmap nat (list Student)) (students : nat) (r : rng)
  : Completion (nat * gmap nat (list Student) * rng) :=
  if decide (length (array_at h students) ≤ 2)%nat then Normal (students, h, r)
  else
    let grouped := group_by_level_heap h (array_at h students) in
    let roomsPerLevel := rooms_per_level (array_at grouped.2 students) in
    let '(h2, r1) := shuffle_levels_heap grouped.1 grouped.2 r in
    let result := fresh (dom h2) in
    pick_loop_heap fuel students roomsPerLevel
      {| h_byLevel := grouped.1; h_result := result;
         h_levelCooldown := []; h_roomCooldown := [] |}
      (<[result := []]> h2) r1.

End HeapShuffle.

(** ** The table and the requests of lib/supabaseClient

    The table [students] of the schema (lines 7-15) is a list of rows, in
    the order in which a [select] returns them, and the sequence of its
    [BIGSERIAL] key.  A request is answered by [{ data, error, count }].
    It may fail, and a request that fails has changed nothing; which
    requests fail is part of the world ([faults]).  An answer holds every
    row that passes the filters (the table is taken to have fewer rows
    than the row limit of the API).  [console] collects what the functions
    log.  The functions are [async] with a single [await], that of the
    request: each is given as the request and the rest of the function,
    which resumes with the answer ([..._resume]); the function itself is
    the two in a row, with nothing happening in between. *)

Record Database := mkDatabase {
  students_rows : list Student;
  students_id_seq : Z
}.

(** What is logged: an error, the object of the numbers of rows per level
    (its properties in the order in which the object lists them), the
    labels of the first picks. *)
Inductive LogEntry :=
  | LogError (message : string)
  | LogLevels (levelCounts : list (string * Z))
  | LogPicks (picks : list string).

Record World := mkWorld {
  database : Database;
  faults : list bool;
  console : list LogEntry
}.

Record Response (A : Type) := mkResponse {
  data : option A;
  count : option Z;
  error : bool
}.
Arguments mkResponse {A} _ _ _.
Arguments data {A} _.
Arguments count {A} _.
Arguments error {A} _.

Definition console_log (e : LogEntry) (w : World) : World :=
  {| database := database w; faults := faults w;
     console := console w ++ [e] |}.

(** Whether the next request fails. *)
Definition next_fault (w : World) : bool * World :=
  match faults w with
  | [] => (false, w)
  | failed :: rest =>
      (failed, {| database := database w; faults := rest;
                  console := console w |})
  end.

Definition failure {A : Type} : Response A :=
  {| data := None; count := None; error := true |}.

(** The rows of an answer are new objects, one per row. *)
Definition with_ref (ref : nat) (s : Student) : Student :=
  {| obj_ref := ref; id := id s; level := level s; room := room s;
     number := number s; name := name s; is_winner := is_winner s |}.

Definition row_objects (rows : list Student) : list Student :=
  imap with_ref rows.

(** [from('students').select('*')] with the [eq] filters [matching]. *)
Definition select_students (matching : Student → Prop)
    `{∀ s, Decision (matching s)} (w : World)
  : Response (list Student) * World :=
  let '(failed, w1) := next_fault w in
  if failed then (failure, w1)
  else ({| data := Some (row_objects
                           (filter matching (students_rows (database w1))));
           count := None; error := false |}, w1).

(** [select('*', { count: 'exact', head: true })]: the number of rows, no
    row. *)
Definition count_students (matching : Student → Prop)
    `{∀ s, Decision (matching s)} (w : World)
  : Response (list Student) * World :=
  let '(failed, w1) := next_fault w in
  if failed then (failure, w1)
  else ({| data := None;
           count := Some (Z.of_nat
                            (length (filter matching
                                       (students_rows (database w1)))));
           error := false |}, w1).

Definition set_is_winner (v : bool) (s : Student) : Student :=
  {| obj_ref := obj_ref s; id := id s; level := level s; room := room s;
     number := number s; name := name s; is_winner := v |}.

(** [update({ is_winner: v })] on the rows that pass the filter. *)
Definition update_is_winner (v : bool) (matching : Student → Prop)
    `{∀ s, Decision (matching s)} (w : World) : Response unit * World :=
  let '(failed, w1) := next_fault w in
  if failed then (failure, w1)
  else
    let db := database w1 in
    ({| data := None; count := None; error := false |},
     {| database :=
          {| students_rows :=
               (λ s, if decide (matching s) then set_is_winner v s else s)
                 <$> students_rows db;
             students_id_seq := students_id_seq db |};
        faults := faults w1; console := console w1 |}).

(** [delete()] of the rows that pass the filter. *)
Definition delete_students (matching : Student → Prop)
    `{∀ s, Decision (matching s)} (w : World) : Response unit * World :=
  let '(failed, w1) := next_fault w in
  if failed then (failure, w1)
  else
    let db := database w1 in
    ({| data := None; count := None; error := false |},
     {| database :=
          {| students_rows := filter (λ s, ¬ matching s) (students_rows db);
             students_id_seq := students_id_seq db |};
        faults := faults w1; console := console w1 |}).

(** A row of the import, as Papa.parse hands it over with [header: true]:
    an object with one property per column of the header, all of them
    strings.  [insertStudents] declares [Omit<Student, 'id' | 'is_winner'>]
    but passes on whatever columns the file has. *)
Definition CsvRow : Type := list (string * string).

(** The columns of the table that the application reads or writes. *)
Definition table_columns : list string :=
  ["id"; "level"; "room"; "number"; "name"; "is_winner"].

Definition other_columns (row : CsvRow) : CsvRow :=
  filter (λ c, c.1 ∉ table_columns) row.

(** What the service does with an insertion is not in the repository.
    Two things are left open: how it reads the text of an [id] cell as a
    [BIGINT], and whether it accepts what a payload has besides the
    columns above ([created_at], a column that the table does not have,
    Papa's [__parsed_extra]).  A payload without such columns is
    accepted: the policy of the schema allows every operation. *)
Class Postgrest := {
  bigint_in : string → option Z;
  accepts_others : list CsvRow → bool;
  accepts_plain : ∀ others : list CsvRow,
    Forall (λ row, row = []) others → accepts_others others = true
}.

Section Insert.
Context {P : Postgrest}.

(** The rows that an [INSERT] stores, one after the other, or [None] when
    a row violates a constraint, and the sequence afterwards.  A row of
    the payload is [{...s, is_winner}], given as the pair of [s] and
    [is_winner].  With an [id] column in the payload ([explicit]) the key
    of a row is its [id] cell, and a row without one has the key [NULL];
    without, the key is the next value of the sequence.  [level], [room],
    [number] and [name] are [NOT NULL], the key is unique ([taken] holds
    the keys in use).  The values of the sequence that an insertion takes
    are gone when it fails. *)
Fixpoint store_rows (explicit : bool) (taken : list Z) (seq : Z)
    (rows : list (CsvRow * bool)) : option (list Student) * Z :=
  match rows with
  | [] => (Some [], seq)
  | (row, winner) :: rest =>
      let '(key, seq1) :=
        if explicit then (Map_get row "id" ≫= bigint_in, seq)
        else (Some seq, seq + 1) in
      match key, Map_get row "level", Map_get row "room",
            Map_get row "number", Map_get row "name" with
      | Some k, Some lvl, Some rm, Some num, Some nm =>
          if decide (k ∈ taken) then (None, seq1)
          else
            let '(stored, seq2) :=
              store_rows explicit (k :: taken) seq1 rest in
            (cons {| obj_ref := 0; id := k; level := lvl; room := rm;
                     number := num; name := nm; is_winner := winner |}
               <$> stored, seq2)
      | _, _, _, _, _ => (None, seq1)
      end
  end.

(** [insert(rows)]: all rows or none. *)
Definition insert_students (rows : list (CsvRow * bool)) (w : World)
  : Response unit * World :=
  let '(failed, w1) := next_fault w in
  if failed then (failure, w1)
  else if negb (accepts_others ((other_columns ∘ fst) <$> rows))
  then (failure, w1)
  else
    let db := database w1 in
    let explicit :=
      bool_decide (Exists (λ r, is_Some (Map_get r.1 "id")) rows) in
    let '(stored, seq') :=
      store_rows explicit (id <$> students_rows db) (students_id_seq db)
        rows in
    match stored with
    | Some stored =>
        ({| data := None; count := None; error := false |},
         {| database :=
              {| students_rows := students_rows db ++ stored;
                 students_id_seq := seq' |};
            faults := faults w1; console := console w1 |})
    | None =>
        (failure,
         {| database :=
              {| students_rows := students_rows db;
                 students_id_seq := seq' |};
            faults := faults w1; console := console w1 |})
    end.

End Insert.

(** [arr.slice(start, end)] with integer arguments: a negative argument
    counts from the end. *)
Definition Array_slice {A : Type} (l : list A) (start end_ : Z) : list A :=
  let len := Z.of_nat (length l) in
  let k := if decide (start < 0) then Z.max (len + start) 0
           else Z.min start len in
  let final := if decide (end_ < 0) then Z.max (len + end_) 0
               else Z.min end_ len in
  take (Z.to_nat (final - k)) (drop (Z.to_nat k) l).

(** [levelCounts.set(s.level, (levelCounts.get(s.level) || 0) + 1)] *)
Definition count_step (levelCounts : list (string * Z)) (s : Student)
  : list (string * Z) :=
  Map_set levelCounts (level s) (cooldown_of levelCounts (level s) + 1).

(** The map [levelCounts] of [getRandomCandidates]. *)
Definition level_counts (data : list Student) : list (string * Z) :=
  foldl count_step [] data.

(** [`${s.level}/${s.room}`] *)
Definition pick_label (s : Student) : string := level s +:+ "/" +:+ room s.

Section Candidates.
Context {E : JsEngine}.

(** [getRandomCandidates] from its [await] on: what it does with the
    answer [{ data, error }]. *)
Definition getRandomCandidates_resume (count : Z)
    (resp : Response (list Student)) (w1 : World) (r : rng)
  : Completion (list Student * World * rng) :=
  if error resp then
    Normal ([], console_log (LogError "Error fetching candidates:") w1, r)
  else
    match data resp with
    | None => Normal ([], w1, r)
    | Some data =>
        if decide (length data = 0%nat) then Normal ([], w1, r)
        else
          let levelCounts := level_counts data in
          let w2 :=
            console_log (LogLevels (Object_fromEntries levelCounts)) w1 in
          match fairDistributionShuffle_run (length data) data r with
          | Normal run =>
              let shuffled := run_result run in
              let w3 :=
                console_log
                  (LogPicks (pick_label <$> Array_slice shuffled 0 10)) w2 in
              Normal (Array_slice shuffled 0
                        (Z.min count (Z.of_nat (length shuffled))),
                      w3, run_rng run)
          | Throw => Throw
          | OutOfFuel => OutOfFuel
          end
    end.

Definition getRandomCandidates (count : Z) (w : World) (r : rng)
  : Completion (list Student * World * rng) :=
  let '(resp, w1) := select_students (λ s, is_winner s = false) w in
  getRandomCandidates_resume count resp w1 r.

Definition getRandomCandidatesByLevel_resume (count : Z)
    (resp : Response (list Student)) (w1 : World) (r : rng)
  : Completion (list Student * World * rng) :=
  if error resp then
    Normal ([], console_log (LogError "Error fetching candidates by level:")
                  w1, r)
  else
    match data resp with
    | None => Normal ([], w1, r)
    | Some data =>
        if decide (length data = 0%nat) then Normal ([], w1, r)
        else
          match fairDistributionShuffle_run (length data) data r with
          | Normal run =>
              let shuffled := run_result run in
              Normal (Array_slice shuffled 0
                        (Z.min count (Z.of_nat (length shuffled))),
                      w1, run_rng run)
          | Throw => Throw
          | OutOfFuel => OutOfFuel
          end
    end.

Definition getRandomCandidatesByLevel (lvl : string) (count : Z)
    (w : World) (r : rng) : Completion (list Student * World * rng) :=
  let '(resp, w1) :=
    select_students (λ s, is_winner s = false ∧ level s = lvl) w in
  getRandomCandidatesByLevel_resume count resp w1 r.

End Candidates.

(** [count || 0] *)
Definition count_or_zero (count : option Z) : Z :=
  match count with
  | None => 0
  | Some n => if decide (n = 0) then 0 else n
  end.

Definition getRemainingCountByLevel (lvl : string) (w : World) : Z * World :=
  let '(resp, w1) :=
    count_students (λ s, is_winner s = false ∧ level s = lvl) w in
  if error resp then
    (0, console_log (LogError "Error getting remaining count by level:") w1)
  else (count_or_zero (count resp), w1).

(** [markAsWinner] from its [await] on. *)
Definition markAsWinner_resume (resp : Response unit) (w1 : World)
  : bool * World :=
  if error resp then
    (false, console_log (LogError "Error marking winner:") w1)
  else (true, w1).

Definition markAsWinner (studentId : Z) (w : World) : bool * World :=
  let '(resp, w1) := update_is_winner true (λ s, id s = studentId) w in
  markAsWinner_resume resp w1.

Definition resetAllWinners (w : World) : bool * World :=
  let '(resp, w1) := update_is_winner false (λ s, id s ≠ 0) w in
  if error resp then
    (false, console_log (LogError "Error resetting winners:") w1)
  else (true, w1).

Definition getTotalStudentCount (w : World) : Z * World :=
  let '(resp, w1) := count_students (λ _, True) w in
  if error resp then (0, console_log (LogError "Error getting count:") w1)
  else (count_or_zero (count resp), w1).

Definition getWinnerCount (w : World) : Z * World :=
  let '(resp, w1) := count_students (λ s, is_winner s = true) w in
  if error resp then
    (0, console_log (LogError "Error getting winner count:") w1)
  else (count_or_zero (count resp), w1).

Definition deleteAllStudents (w : World) : bool * World :=
  let '(resp, w1) := delete_students (λ s, id s ≠ 0) w in
  if error resp then
    (false, console_log (LogError "Error deleting students:") w1)
  else (true, w1).

(** [students.map(s => ({ ...s, is_winner: false }))] is posted. *)
Definition insertStudents {P : Postgrest} (students : list CsvRow)
    (w : World) : bool * World :=
  let '(resp, w1) := insert_students ((λ s, (s, false)) <$> students) w in
  if error resp then
    (false, console_log (LogError "Error inserting students:") w1)
  else (true, w1).

Section CandidatesPlain.
Context {E : JsEngine}.

(** The earlier [getRandomCandidates] (lines 402-419): a copy of the rows
    is sorted with the random comparator. *)
Definition getRandomCandidates_plain (count : Z) (w : World) (r : rng)
  : list Student * World * rng :=
  let '(resp, w1) := select_students (λ s, is_winner s = false) w in
  if error resp then
    ([], console_log (LogError "Error fetching candidates:") w1, r)
  else
    match data resp with
    | None => ([], w1, r)
    | Some data =>
        if decide (length data = 0%nat) then ([], w1, r)
        else
          let '(shuffled, r') := sort_random data r in
          (Array_slice shuffled 0 (Z.min count (Z.of_nat (length shuffled))),
           w1, r')
    end.

End CandidatesPlain.

(** ** The administration page (app/admin/page.tsx) *)

Module Admin.

(** The messages of the page, by type and text. *)
Inductive Message :=
  | NoValidRows
  | DeleteFailed
  | InsertFailed
  | Uploaded (students : nat)
  | UploadError
  | ParseFailed
  | WinnersReset
  | ResetFailed.

(** [message.type === 'success'] *)
Definition is_success (m : Message) : bool :=
  match m with
  | Uploaded _ | WinnersReset => true
  | _ => false
  end.

Record Page := mkPage {
  totalCount : Z;
  winnerCount : Z;
  isLoading : bool;
  message : option Message
}.

(** What Papa.parse hands over: the rows ([complete]) or an error. *)
Inductive Parsed :=
  | Complete (rows : list CsvRow)
  | ParseError.

Definition fetchCounts (p : Page) (w : World) : Page * World :=
  let '(total, w1) := getTotalStudentCount w in
  let '(winners, w2) := getWinnerCount w1 in
  ({| totalCount := total; winnerCount := winners;
      isLoading := isLoading p; message := message p |}, w2).

(** Truthiness of a cell: [undefined] (no such column in this row) and
    the empty string are falsy. *)
Definition truthy_cell (cell : option string) : Prop :=
  match cell with
  | Some text => text ≠ ""
  | None => False
  end.

#[global] Instance truthy_cell_dec cell : Decision (truthy_cell cell).
Proof. destruct cell; apply _. Defined.

(** [row.level && row.room && row.number && row.name] *)
Definition valid_row (row : CsvRow) : Prop :=
  truthy_cell (Map_get row "level") ∧ truthy_cell (Map_get row "room") ∧
  truthy_cell (Map_get row "number") ∧ truthy_cell (Map_get row "name").

Definition show (m : Message) (loading : bool) (p : Page) : Page :=
  {| totalCount := totalCount p; winnerCount := winnerCount p;
     isLoading := loading; message := Some m |}.

(** [handleFileUpload]; [file] is [event.target.files?.[0]] as parsed.
    The handler is given as a whole: its requests are answered one after
    the other and nothing else reaches the table in between. *)
Definition handleFileUpload {P : Postgrest} (file : option Parsed) (p : Page)
    (w : World) : Page * World :=
  match file with
  | None => (p, w)
  | Some parsed =>
      let p1 := {| totalCount := totalCount p; winnerCount := winnerCount p;
                   isLoading := true; message := None |} in
      match parsed with
      | ParseError =>
          (show ParseFailed false p1, console_log (LogError "Parse error:") w)
      | Complete rows =>
          let students := filter valid_row rows in
          if decide (length students = 0%nat) then
            (show NoValidRows false p1, w)
          else
            let '(deleteSuccess, w1) := deleteAllStudents w in
            if negb deleteSuccess then (show DeleteFailed false p1, w1)
            else
              let '(insertSuccess, w2) := insertStudents students w1 in
              if negb insertSuccess then (show InsertFailed false p1, w2)
              else
                let p2 := show (Uploaded (length students)) true p1 in
                let '(p3, w3) := fetchCounts p2 w2 in
                ({| totalCount := totalCount p3;
                    winnerCount := winnerCount p3;
                    isLoading := false; message := message p3 |}, w3)
      end
  end.

(** [handleResetWinners]; [confirmed] is the answer to the dialogue. *)
Definition handleResetWinners (confirmed : bool) (p : Page) (w : World)
  : Page * World :=
  if negb confirmed then (p, w)
  else
    let p1 := {| totalCount := totalCount p; winnerCount := winnerCount p;
                 isLoading := true; message := None |} in
    let '(success, w1) := resetAllWinners w in
    if success then
      let p2 := show WinnersReset true p1 in
      let '(p3, w2) := fetchCounts p2 w1 in
      ({| totalCount := totalCount p3; winnerCount := winnerCount p3;
          isLoading := false; message := message p3 |}, w2)
    else (show ResetFailed false p1, w1).

(** The REMAINING card. *)
Definition remaining_shown (p : Page) : Z := totalCount p - winnerCount p.

End Admin.

(** ** The draw page (components/GameDisplay, lines 497-1160)

    Text is held in UTF-8.  [characters] splits it into characters: a
    byte [10xxxxxx] continues the character before it.  For text of the
    Basic Multilingual Plane, which the two alphabets are, a character is
    one UTF-16 code unit, so [chars[i]] is the character at [i]. *)

Definition is_continuation (a : ascii) : bool :=
  match a with
  | Ascii _ _ _ _ _ _ false true => true
  | _ => false
  end.

Fixpoint characters (s : string) : list string :=
  match s with
  | EmptyString => []
  | String a s' =>
      match s' with
      | String b _ =>
          if is_continuation b then
            match characters s' with
            | c :: rest => String a c :: rest
            | [] => [String a EmptyString]
            end
          else String a EmptyString :: characters s'
      | EmptyString => [String a EmptyString]
      end
  end.

(** The UTF-16 code units of a character: two when its first byte is
    [1111xxxx]. *)
Definition code_units (c : string) : nat :=
  match c with
  | String (Ascii _ _ _ _ true true true true) _ => 2
  | _ => 1
  end.

(** [parts.join('')] *)
Definition Array_join (parts : list string) : string :=
  foldr String.append EmptyString parts.

(** [s.length] *)
Definition js_length (s : string) : Z :=
  Z.of_nat (sum_list (code_units <$> characters s)).

Definition SCRAMBLE_CHARS : list string :=
  characters "ABCDEFGHIJKLMNOPQRSTUVWXYZ0123456789@#$%&*!?<>[]{}".

Definition THAI_SCRAMBLE : list string :=
  characters "กขคงจฉชซฌญฎฏฐฑฒณดตถทธนบปผฝพฟภมยรลวศษสหฬอฮ".

Definition LEVELS : list string := ["1"; "2"; "3"; "4"; "5"; "6"].

Inductive DrawMode :=
  | draw_all
  | draw_by_level.

#[global] Instance DrawMode_eq_dec : EqDecision DrawMode.
Proof. solve_decision. Defined.

Record ScrambledTexts := mkScrambledTexts {
  scrambled_level : string;
  scrambled_room : string;
  scrambled_number : string;
  scrambled_name : string
}.

Inductive Field :=
  | field_level
  | field_room
  | field_number
  | field_name.

#[global] Instance Field_eq_dec : EqDecision Field.
Proof. solve_decision. Defined.

Definition student_field (f : Field) (s : Student) : string :=
  match f with
  | field_level => level s
  | field_room => room s
  | field_number => number s
  | field_name => name s
  end.

Definition scrambled_field (f : Field) (t : ScrambledTexts) : string :=
  match f with
  | field_level => scrambled_level t
  | field_room => scrambled_room t
  | field_number => scrambled_number t
  | field_name => scrambled_name t
  end.

(** The state of the component. *)
Record Game := mkGame {
  candidates : list Student;
  currentIndex : nat;
  revealStage : nat;
  isLoading : bool;
  drawMode : DrawMode;
  selectedLevel : string
}.

(** [candidates[currentIndex]] *)
Definition currentStudent (g : Game) : option Student :=
  candidates g !! currentIndex g.

(** What a handler makes audible and visible besides the state. *)
Inductive Effect :=
  | InitSounds
  | UnlockSound
  | VictorySound
  | Confetti.

Record KeyboardEvent := mkKeyboardEvent {
  code : string;
  key : string
}.

(** [e.key.toLowerCase() === 'y' || e.key === 'ั']: the only strings
    whose lower case is ["y"] are ["y"] and ["Y"]. *)
Definition confirm_key (e : KeyboardEvent) : bool :=
  bool_decide (key e = "y" ∨ key e = "Y" ∨ key e = "ั").

(** [e.key.toLowerCase() === 'n' || e.key === 'ื'] *)
Definition skip_key (e : KeyboardEvent) : bool :=
  bool_decide (key e = "n" ∨ key e = "N" ∨ key e = "ื").

Definition handleReveal (g : Game) : Game * list Effect :=
  match currentStudent g with
  | None => (g, [])
  | Some _ =>
      if decide (3 ≤ revealStage g)%nat then (g, [])
      else
        let newStage := S (revealStage g) in
        ({| candidates := candidates g; currentIndex := currentIndex g;
            revealStage := newStage; isLoading := isLoading g;
            drawMode := drawMode g; selectedLevel := selectedLevel g |},
         InitSounds ::
         (if decide (newStage = 3%nat) then [VictorySound; Confetti]
          else [UnlockSound]))
  end.

(** The next candidate: [setCurrentIndex(prev => prev + 1)],
    [setRevealStage(0)]. *)
Definition next_candidate (loading : bool) (g : Game) : Game :=
  {| candidates := candidates g; currentIndex := S (currentIndex g);
     revealStage := 0; isLoading := loading;
     drawMode := drawMode g; selectedLevel := selectedLevel g |}.

(** [currentIndex < candidates.length - 1] *)
Definition more_candidates (g : Game) : Prop :=
  Z.of_nat (currentIndex g) < Z.of_nat (length (candidates g)) - 1.

Section GameDisplay.
Context {E : JsEngine}.

Fixpoint random_chars (n : nat) (chars : list string) (r : rng)
  : list string * rng :=
  match n with
  | O => ([], r)
  | S n' =>
      let '(i, r1) := random_index (length chars) r in
      let '(rest, r2) := random_chars n' chars r1 in
      (default "" (chars !! i) :: rest, r2)
  end.

(** [Array.from({ length: Math.max(length, 5) }, () => chars[...]).join('')] *)
Definition generateScramble (length : Z) (useThai : bool) (r : rng)
  : string * rng :=
  let chars := if useThai then THAI_SCRAMBLE else SCRAMBLE_CHARS in
  let '(picked, r') := random_chars (Z.to_nat (Z.max length 5)) chars r in
  (Array_join picked, r').

Definition updateScrambledTexts (currentStudent : option Student)
    (scrambledTexts : ScrambledTexts) (r : rng) : ScrambledTexts * rng :=
  match currentStudent with
  | None => (scrambledTexts, r)
  | Some s =>
      let '(lvl, r1) := generateScramble (js_length (level s)) false r in
      let '(rm, r2) := generateScramble (js_length (room s)) false r1 in
      let '(num, r3) := generateScramble (js_length (number s)) false r2 in
      let '(nm, r4) := generateScramble (js_length (name s)) true r3 in
      ({| scrambled_level := lvl; scrambled_room := rm;
          scrambled_number := num; scrambled_name := nm |}, r4)
  end.

Definition getDisplayText (currentStudent : option Student)
    (revealStage : nat) (scrambledTexts : ScrambledTexts)
    (field : Field) (stageRequired : nat) (r : rng) : string * rng :=
  match currentStudent with
  | None => ("---", r)
  | Some s =>
      if decide (stageRequired ≤ revealStage)%nat
      then (student_field field s, r)
      else
        let text := scrambled_field field scrambledTexts in
        if decide (text ≠ "") then (text, r)
        else generateScramble 5 (bool_decide (field = field_name)) r
  end.

Definition loadCandidates (g : Game) (w : World) (r : rng)
  : Completion (Game * World * rng) :=
  match
    match drawMode g with
    | draw_by_level => getRandomCandidatesByLevel (selectedLevel g) 10 w r
    | draw_all => getRandomCandidates 10 w r
    end
  with
  | Normal (newCandidates, w', r') =>
      Normal ({| candidates := newCandidates; currentIndex := 0;
                 revealStage := 0; isLoading := false;
                 drawMode := drawMode g; selectedLevel := selectedLevel g |},
              w', r')
  | Throw => Throw
  | OutOfFuel => OutOfFuel
  end.

Definition handleConfirm (g : Game) (w : World) (r : rng)
  : Completion (Game * World * rng * list Effect) :=
  match currentStudent g with
  | None => Normal (g, w, r, [])
  | Some s =>
      let '(_, w1) := markAsWinner (id s) w in
      if decide (more_candidates g)
      then Normal (next_candidate false g, w1, r, [UnlockSound])
      else
        match loadCandidates g w1 r with
        | Normal (g', w2, r') => Normal (g', w2, r', [UnlockSound])
        | Throw => Throw
        | OutOfFuel => OutOfFuel
        end
  end.

Definition handleSkip (g : Game) (w : World) (r : rng)
  : Completion (Game * World * rng * list Effect) :=
  if decide (more_candidates g)
  then Normal (next_candidate (isLoading g) g, w, r, [UnlockSound])
  else
    match loadCandidates g w r with
    | Normal (g', w', r') => Normal (g', w', r', [UnlockSound])
    | Throw => Throw
    | OutOfFuel => OutOfFuel
    end.

(** [handleKeyDown]: the handlers are those of the render the listener
    was installed in, so all read the state [g].  At stage 3, where the
    keys of the action phase count, [handleReveal] returns at once. *)
Definition handleKeyDown (e : KeyboardEvent) (g : Game) (w : World) (r : rng)
  : Completion (Game * World * rng * list Effect) :=
  let revealed :=
    if decide (code e = "Space") then handleReveal g else (g, []) in
  if decide (revealStage g = 3%nat ∧ isLoading g = false) then
    if confirm_key e then handleConfirm g w r
    else if skip_key e then handleSkip g w r
    else Normal (revealed.1, w, r, revealed.2)
  else Normal (revealed.1, w, r, revealed.2).

End GameDisplay.

(** ** Events of the draw page

    An event is handled by the handlers of the latest render.  The buttons
    are there when the page renders them and they are not disabled.
    [react] is an event whose requests are answered before anything else
    happens: the handler runs to its end. *)

Inductive Event :=
  | Mounted
  | KeyDown (e : KeyboardEvent)
  | ClickConfirm
  | ClickSkip
  | ClickReload
  | ClickMode (mode : DrawMode)
  | ClickLevel (lvl : string).

Section Events.
Context {E : JsEngine}.

Definition reload (g : Game) (w : World) (r : rng)
  : Completion (Game * World * rng * list Effect) :=
  match loadCandidates g w r with
  | Normal (g', w', r') => Normal (g', w', r', [])
  | Throw => Throw
  | OutOfFuel => OutOfFuel
  end.

Definition react (ev : Event) (g : Game) (w : World) (r : rng)
  : Completion (Game * World * rng * list Effect) :=
  match ev with
  | Mounted => reload g w r
  | KeyDown e => handleKeyDown e g w r
  | ClickConfirm =>
      if decide (is_Some (currentStudent g) ∧ revealStage g = 3%nat ∧
                 isLoading g = false)
      then handleConfirm g w r else Normal (g, w, r, [])
  | ClickSkip =>
      if decide (is_Some (currentStudent g) ∧ revealStage g = 3%nat ∧
                 isLoading g = false)
      then handleSkip g w r else Normal (g, w, r, [])
  | ClickReload =>
      if decide (isLoading g = false) then reload g w r
      else Normal (g, w, r, [])
  | ClickMode mode =>
      if decide (mode = drawMode g) then Normal (g, w, r, [])
      else reload {| candidates := candidates g;
                     currentIndex := currentIndex g;
                     revealStage := revealStage g; isLoading := isLoading g;
                     drawMode := mode; selectedLevel := selectedLevel g |}
                  w r
  | ClickLevel lvl =>
      if decide (drawMode g = draw_by_level ∧ lvl ∈ LEVELS ∧
                 lvl ≠ selectedLevel g)
      then reload {| candidates := candidates g;
                     currentIndex := currentIndex g;
                     revealStage := revealStage g; isLoading := isLoading g;
                     drawMode := drawMode g; selectedLevel := lvl |}
                  w r
      else Normal (g, w, r, [])
  end.

End Events.

(** The component before its first effect. *)
Definition initial_game : Game :=
  {| candidates := []; currentIndex := 0; revealStage := 0;
     isLoading := false; drawMode := draw_all; selectedLevel := "1" |}.

(** ** The draw page between its requests

    A handler runs up to its [await] and the rest of it runs when the
    answer has arrived.  In between the page handles further events: the
    keys, and the mode and level buttons, which are never disabled.  A
    [Task] is a request on its way with the rest of the handler that
    awaits it: [loadCandidates], of the render with [drawMode] and
    [selectedLevel] as given, awaiting the candidates, or [handleConfirm]
    of the render [render] awaiting [markAsWinner].  The service answers
    the requests in any order ([Serve]) and the answers arrive in any order
    ([Deliver]); a step that names no task, or a task in another state,
    changes nothing. *)

Inductive Task :=
  | LoadTask (mode : DrawMode) (lvl : string)
      (answer : option (Response (list Student)))
  | MarkTask (studentId : Z) (render : Game)
      (answer : option (Response unit)).

Record Display := mkDisplay {
  game : Game;
  pending : list Task
}.

(** [loadCandidates] up to its [await]. *)
Definition loadCandidates_start (mode : DrawMode) (lvl : string)
    (d : Display) : Display :=
  {| game := {| candidates := candidates (game d); currentIndex := 0;
                revealStage := 0; isLoading := true;
                drawMode := drawMode (game d);
                selectedLevel := selectedLevel (game d) |};
     pending := pending d ++ [LoadTask mode lvl None] |}.

(** [setCandidates(newCandidates); setIsLoading(false)] *)
Definition loadCandidates_resume (newCandidates : list Student)
    (d : Display) : Display :=
  {| game := {| candidates := newCandidates;
                currentIndex := currentIndex (game d);
                revealStage := revealStage (game d); isLoading := false;
                drawMode := drawMode (game d);
                selectedLevel := selectedLevel (game d) |};
     pending := pending d |}.

(** [handleConfirm] up to its [await]. *)
Definition handleConfirm_start (d : Display) : Display * list Effect :=
  match currentStudent (game d) with
  | None => (d, [])
  | Some s =>
      ({| game := {| candidates := candidates (game d);
                     currentIndex := currentIndex (game d);
                     revealStage := revealStage (game d); isLoading := true;
                     drawMode := drawMode (game d);
                     selectedLevel := selectedLevel (game d) |};
          pending := pending d ++ [MarkTask (id s) (game d) None] |},
       [UnlockSound])
  end.

(** The rest of [handleConfirm]: [currentIndex], [candidates.length] and
    [loadCandidates] are those of the render the handler belongs to; the
    index is advanced from what it is now.  The last [setIsLoading(false)]
    follows the load that is awaited, which ends with the same. *)
Definition handleConfirm_resume (render : Game) (d : Display) : Display :=
  if decide (more_candidates render)
  then {| game := next_candidate false (game d); pending := pending d |}
  else loadCandidates_start (drawMode render) (selectedLevel render) d.

(** [handleSkip], which does not wait for the load that it starts. *)
Definition handleSkip_start (d : Display) : Display * list Effect :=
  if decide (more_candidates (game d))
  then ({| game := next_candidate (isLoading (game d)) (game d);
           pending := pending d |}, [UnlockSound])
  else (loadCandidates_start (drawMode (game d)) (selectedLevel (game d)) d,
        [UnlockSound]).

Definition handleKeyDown_start (e : KeyboardEvent) (d : Display)
  : Display * list Effect :=
  let g := game d in
  let revealed :=
    if decide (code e = "Space") then handleReveal g else (g, []) in
  if decide (revealStage g = 3%nat ∧ isLoading g = false) then
    if confirm_key e then handleConfirm_start d
    else if skip_key e then handleSkip_start d
    else ({| game := revealed.1; pending := pending d |}, revealed.2)
  else ({| game := revealed.1; pending := pending d |}, revealed.2).

Definition with_mode (mode : DrawMode) (lvl : string) (d : Display)
  : Display :=
  {| game := {| candidates := candidates (game d);
                currentIndex := currentIndex (game d);
                revealStage := revealStage (game d);
                isLoading := isLoading (game d);
                drawMode := mode; selectedLevel := lvl |};
     pending := pending d |}.

(** What an event does before the page handles the next one.  A change of
    [drawMode] or [selectedLevel] makes a new [loadCandidates], which the
    effect on it calls. *)
Definition handle (ev : Event) (d : Display) : Display * list Effect :=
  let g := game d in
  match ev with
  | Mounted => (loadCandidates_start (drawMode g) (selectedLevel g) d, [])
  | KeyDown e => handleKeyDown_start e d
  | ClickConfirm =>
      if decide (is_Some (currentStudent g) ∧ revealStage g = 3%nat ∧
                 isLoading g = false)
      then handleConfirm_start d else (d, [])
  | ClickSkip =>
      if decide (is_Some (currentStudent g) ∧ revealStage g = 3%nat ∧
                 isLoading g = false)
      then handleSkip_start d else (d, [])
  | ClickReload =>
      if decide (isLoading g = false)
      then (loadCandidates_start (drawMode g) (selectedLevel g) d, [])
      else (d, [])
  | ClickMode mode =>
      if decide (mode = drawMode g) then (d, [])
      else (loadCandidates_start mode (selectedLevel g)
              (with_mode mode (selectedLevel g) d), [])
  | ClickLevel lvl =>
      if decide (drawMode g = draw_by_level ∧ lvl ∈ LEVELS ∧
                 lvl ≠ selectedLevel g)
      then (loadCandidates_start (drawMode g) lvl
              (with_mode (drawMode g) lvl d), [])
      else (d, [])
  end.

(** The service answers the request of task [i]. *)
Definition serve (i : nat) (d : Display) (w : World) : Display * World :=
  match pending d !! i with
  | Some (LoadTask mode lvl None) =>
      let '(resp, w') :=
        match mode with
        | draw_by_level =>
            select_students (λ s, is_winner s = false ∧ level s = lvl) w
        | draw_all => select_students (λ s, is_winner s = false) w
        end in
      ({| game := game d;
          pending := <[i := LoadTask mode lvl (Some resp)]> (pending d) |},
       w')
  | Some (MarkTask studentId render None) =>
      let '(resp, w') :=
        update_is_winner true (λ s, id s = studentId) w in
      ({| game := game d;
          pending :=
            <[i := MarkTask studentId render (Some resp)]> (pending d) |},
       w')
  | _ => (d, w)
  end.

Section Interleaving.
Context {E : JsEngine}.

(** The answer of task [i] arrives and the rest of the handler runs, with
    the random source as it is by then. *)
Definition deliver (i : nat) (r : rng) (d : Display) (w : World)
  : Completion (Display * World) :=
  let rest := {| game := game d; pending := delete i (pending d) |} in
  match pending d !! i with
  | Some (LoadTask mode lvl (Some resp)) =>
      match
        match mode with
        | draw_by_level => getRandomCandidatesByLevel_resume 10 resp w r
        | draw_all => getRandomCandidates_resume 10 resp w r
        end
      with
      | Normal (newCandidates, w', _) =>
          Normal (loadCandidates_resume newCandidates rest, w')
      | Throw => Throw
      | OutOfFuel => OutOfFuel
      end
  | Some (MarkTask studentId render (Some resp)) =>
      let '(_, w') := markAsWinner_resume resp w in
      Normal (handleConfirm_resume render rest, w')
  | _ => Normal (d, w)
  end.

Inductive Step :=
  | User (ev : Event)
  | Serve (i : nat)
  | Deliver (i : nat) (r : rng).

Definition step (s : Step) (d : Display) (w : World)
  : Completion (Display * World * list Effect) :=
  match s with
  | User ev => let '(d', effects) := handle ev d in Normal (d', w, effects)
  | Serve i => let '(d', w') := serve i d w in Normal (d', w', [])
  | Deliver i r =>
      match deliver i r d w with
      | Normal (d', w') => Normal (d', w', [])
      | Throw => Throw
      | OutOfFuel => OutOfFuel
      end
  end.

(** A session of the page: what the user does, what the service does and
    what arrives, in any order. *)
Fixpoint session (steps : list Step) (d : Display) (w : World)
  : Completion (Display * World * list Effect) :=
  match steps with
  | [] => Normal (d, w, [])
  | s :: rest =>
      match step s d w with
      | Normal (d1, w1, effects) =>
          match session rest d1 w1 with
          | Normal (d2, w2, effects') => Normal (d2, w2, effects ++ effects')
          | other => other
          end
      | Throw => Throw
      | OutOfFuel => OutOfFuel
      end
  end.

(** The steps in which every request of the page is answered at once:
    first the one asked, then the one that its handler asks in turn. *)
Definition answered_at_once (first : nat) (r : rng) : list Step :=
  [Serve first; Deliver first r; Serve first; Deliver first r].

End Interleaving.

(** The steps of a session in which the requests of every event are
    answered at once; each event comes with the random source of its
    draw. *)
Definition at_once {E : JsEngine} (events : list (Event * rng))
  : list Step :=
  events ≫= λ er, User er.1 :: answered_at_once 0 er.2.

(** The page before its first effect. *)
Definition initial_display : Display :=
  {| game := initial_game; pending := [] |}.

(** ** Specification vocabulary *)

(** The students still in the buckets. *)
Definition remaining (byLevel : list (string * list Student)) : list Student :=
  mjoin byLevel.*2.

(** A map of buckets is well formed when no level occurs twice and every
    bucket holds students of its own level. *)
Definition buckets_ok (byLevel : list (string * list Student)) : Prop :=
  NoDup byLevel.*1 ∧
  ∀ lvl l s, (lvl, l) ∈ byLevel → s ∈ l → level s = lvl.

Definition has_students (byLevel : list (string * list Student))
    (lvl : string) : Prop :=
  ∃ l, (lvl, l) ∈ byLevel ∧ l ≠ [].

Definition room_cooldown_of (roomCooldown : list (string * Z)) (lvl : string)
    (s : Student) : Z :=
  cooldown_of roomCooldown (roomKey lvl (room s)).

(** How a student was chosen within a level: from a room off cooldown, or,
    when every remaining student of the level is in a room on cooldown
    ([forced]), from a room with the lowest cooldown. *)
Definition room_choice (roomCooldown : list (string * Z)) (lvl : string)
    (l : list Student) (s : Student) (forced : bool) : Prop :=
  if forced
  then ∀ s', s' ∈ l → 0 < room_cooldown_of roomCooldown lvl s' ∧
         room_cooldown_of roomCooldown lvl s ≤ room_cooldown_of roomCooldown lvl s'
  else room_cooldown_of roomCooldown lvl s ≤ 0.

(** How a level was chosen: off cooldown, or, when every level that still
    has students is on cooldown ([forced]), one with the lowest cooldown. *)
Definition level_choice (st : State) (lvl : string) (forced : bool) : Prop :=
  if forced
  then ∀ lvl', has_students (byLevel st) lvl' →
         0 < cooldown_of (levelCooldown st) lvl' ∧
         cooldown_of (levelCooldown st) lvl ≤ cooldown_of (levelCooldown st) lvl'
  else cooldown_of (levelCooldown st) lvl ≤ 0.

(** The state after the commit of student [s], found at index [i] of the
    bucket [l] of level [lvl]. *)
Definition committed (roomsPerLevel : list (string * list string)) (st : State)
    (s : Student) (lvl : string) (l : list Student) (i : nat) : State :=
  {| byLevel := Map_set (byLevel st) lvl (delete i l);
     result := result st ++ [s];
     levelCooldown :=
       decrease_others (Map_set (levelCooldown st) lvl LEVEL_COOLDOWN) lvl;
     roomCooldown :=
       decrease_others
         (Map_set (roomCooldown st) (roomKey lvl (room s))
            (Z.max (roomCount roomsPerLevel lvl - 1) 0))
         (roomKey lvl (room s)) |}.

(** [st'] is the state after the pick [ev] made in [st]: the student picked
    was in the bucket of the level picked; unless the emergency branch chose
    them, the level and the student were chosen by the cooldown rules. *)
Definition picked_from (roomsPerLevel : list (string * list string))
    (st : State) (ev : Pick) (st' : State) : Prop :=
  ∃ l i,
    Map_get (byLevel st) (pick_level ev) = Some l ∧
    l !! i = Some (pick_student ev) ∧
    commit roomsPerLevel st (pick_student ev) (pick_level ev) = Some st' ∧
    st' = committed roomsPerLevel st (pick_student ev) (pick_level ev) l i ∧
    (emergency ev = false →
     level_choice st (pick_level ev) (level_forced ev) ∧
     room_choice (roomCooldown st) (pick_level ev) l (pick_student ev)
       (room_forced ev)).

Record loop_inv (students : list Student) (st : State) : Prop := {
  inv_buckets : buckets_ok (byLevel st);
  inv_perm : result st ++ remaining (byLevel st) ≡ₚ students
}.

(** The picks of a run, each with the state it was made in; the last state
    is the one the loop ended in. *)
Inductive trace_from (roomsPerLevel : list (string * list string))
  : State → list (State * Pick) → State → Prop :=
  | trace_done st : trace_from roomsPerLevel st [] st
  | trace_pick st ev st' tr fin :
      picked_from roomsPerLevel st ev st' →
      trace_from roomsPerLevel st' tr fin →
      trace_from roomsPerLevel st ((st, ev) :: tr) fin.

(** The state that pick [j] of a run leaves: the state of the next pick
    or, after the last pick, the state the loop ended in. *)
Definition state_after {E : JsEngine} (run : Run) (j : nat) : option State :=
  match run_trace run !! S j with
  | Some (st, _) => Some st
  | None => run_final run
  end.

(** The pools the application loads: the import keeps only rows whose level
    is a non-empty string. *)
Definition levels_nonempty (students : list Student) : Prop :=
  Forall (λ s, level s ≠ "") students.

(** Level counters stay between 0 and [LEVEL_COOLDOWN]. *)
Definition level_bounds (st : State) : Prop :=
  Forall (λ e, 0 ≤ e.2 ≤ LEVEL_COOLDOWN) (levelCooldown st).

(** The distinct rooms of a level, in order of first occurrence. *)
Definition distinct_rooms (students : list Student) (lvl : string)
  : list string :=
  foldl Set_add [] (room <$> filter (λ s, level s = lvl) students).

Definition room_bound (roomsPerLevel : list (string * list string))
    (lvl : string) : Z :=
  Z.max (roomCount roomsPerLevel lvl - 1) 0.

(** Every room counter is within the bound of each level whose students
    have a room with this key. *)
Definition room_bounds (students : list Student) (st : State) : Prop :=
  ∀ key v s,
    (key, v) ∈ roomCooldown st → s ∈ students →
    key = roomKey (level s) (room s) →
    0 ≤ v ≤ room_bound (rooms_per_level students) (level s).

(** No two levels of the pool produce the same [`${level}-${room}`] key. *)
Definition room_keys_unambiguous (students : list Student) : Prop :=
  Forall (λ s, Forall (λ s', roomKey (level s) (room s)
                             = roomKey (level s') (room s') →
                             level s = level s') students) students.

(** The string has no ["-"]. *)
Fixpoint hyphen_free (s : string) : Prop :=
  match s with
  | EmptyString => True
  | String a s' => a ≠ "-"%char ∧ hyphen_free s'
  end.

(** All room counters are between 0 and [cap]. *)
Definition room_cap (cap : Z) (st : State) : Prop :=
  Forall (λ e, 0 ≤ e.2 ≤ cap) (roomCooldown st).

(** [h] agrees with the heap [h0] the function started from on every
    location of [h0]. *)
Definition frame (h0 h : gmap nat (list Student)) : Prop :=
  ∀ l, l ∈ dom h0 → h !! l = h0 !! l.

(** The locations [locs] are distinct and were allocated since [h0]. *)
Definition fresh_locs (h0 h : gmap nat (list Student)) (locs : list nat)
  : Prop :=
  NoDup locs ∧ ∀ l, l ∈ locs → (l ∉ dom h0) ∧ (l ∈ dom h).

Definition heap_inv (h0 : gmap nat (list Student)) (hs : HeapState)
    (h : gmap nat (list Student)) : Prop :=
  frame h0 h ∧ fresh_locs h0 h (h_result hs :: (h_byLevel hs).*2).

(** ** Vocabulary of the further properties *)

(** The distinct levels of a pool, in order of first occurrence. *)
Definition distinct_levels (students : list Student) : list string :=
  foldl Set_add [] (level <$> students).

(** The rows a draw takes from: those that are not winners. *)
Definition non_winners (w : World) : list Student :=
  filter (λ s, is_winner s = false) (students_rows (database w)).

Definition non_winners_of_level (lvl : string) (w : World) : list Student :=
  filter (λ s, is_winner s = false ∧ level s = lvl)
    (students_rows (database w)).

(** The size of [shuffled.slice(0, Math.min(count, shuffled.length))] for
    [n] rows. *)
Definition draw_size (count : Z) (n : nat) : Z :=
  if decide (count < 0) then Z.max (Z.of_nat n + count) 0
  else Z.min count (Z.of_nat n).

(** The keys of the rows were issued by the sequence: they are positive,
    below the next value, and no two rows share one. *)
Definition ids_issued (db : Database) : Prop :=
  1 ≤ students_id_seq db ∧
  Forall (λ s, 1 ≤ id s < students_id_seq db) (students_rows db) ∧
  NoDup (id <$> students_rows db).

(** The table as the schema creates it. *)
Definition empty_database : Database :=
  {| students_rows := []; students_id_seq := 1 |}.

(** The calls of lib/supabaseClient that write. *)
Inductive Write :=
  | WriteMark (studentId : Z)
  | WriteReset
  | WriteDelete
  | WriteInsert (students : list CsvRow).

Definition write {P : Postgrest} (c : Write) (w : World) : bool * World :=
  match c with
  | WriteMark studentId => markAsWinner studentId w
  | WriteReset => resetAllWinners w
  | WriteDelete => deleteAllStudents w
  | WriteInsert students => insertStudents students w
  end.

(** The table that the calls build from the empty one. *)
Definition built {P : Postgrest} (calls : list Write) (fs : list bool)
  : World :=
  foldl (λ w c, (write c w).2)
    {| database := empty_database; faults := fs; console := [] |} calls.

(** The row has no [id] column. *)
Definition no_id_column (row : CsvRow) : Prop := Map_get row "id" = None.

(** No file that the calls insert has an [id] column. *)
Definition files_without_id (calls : list Write) : Prop :=
  ∀ students row, WriteInsert students ∈ calls → row ∈ students →
                  no_id_column row.

(** The rows that [neq('id', 0)] does not select. *)
Definition key_zero (db : Database) : list Student :=
  filter (λ s, id s = 0) (students_rows db).

(** The row stored for a valid row of the file under the key [key]. *)
Definition stored_row (key : Z) (row : CsvRow) : Student :=
  {| obj_ref := 0; id := key;
     level := default "" (Map_get row "level");
     room := default "" (Map_get row "room");
     number := default "" (Map_get row "number");
     name := default "" (Map_get row "name");
     is_winner := false |}.

(** The rows stored for the valid rows of a file, with keys from the
    sequence, and with the keys [keys]. *)
Definition uploaded_rows (db : Database) (valid : list CsvRow)
  : list Student :=
  imap (λ i, stored_row (students_id_seq db + Z.of_nat i)) valid.

Definition uploaded_with (keys : list Z) (valid : list CsvRow)
  : list Student :=
  zip_with stored_row keys valid.

(** The keys that the service reads in the [id] column of the rows. *)
Definition file_keys {P : Postgrest} (valid : list CsvRow) (keys : list Z)
  : Prop :=
  Forall2 (λ row key, Map_get row "id" ≫= bigint_in = Some key) valid keys.

(** The table and the page after an upload that stored [stored] next to
    the rows [kept]. *)
Definition upload_shown (kept stored : list Student) (p : Admin.Page)
    (w : World) : Prop :=
  students_rows (database w) = kept ++ stored ∧
  Forall (λ s, is_winner s = false) stored ∧
  Admin.message p = Some (Admin.Uploaded (length stored)) ∧
  Admin.isLoading p = false ∧
  Admin.totalCount p = Z.of_nat (length kept + length stored) ∧
  Admin.winnerCount p
  = Z.of_nat (length (filter (λ s, is_winner s = true) kept)) ∧
  Admin.remaining_shown p = Admin.totalCount p - Admin.winnerCount p.

(** The rows after [update({ is_winner: true }).eq('id', studentId)]. *)
Definition marked (studentId : Z) (rows : list Student) : list Student :=
  (λ s, if decide (id s = studentId) then set_is_winner true s else s)
    <$> rows.

(** The same row, later: nothing but [is_winner] differs, and a winner
    is still a winner. *)
Definition row_later (s s' : Student) : Prop :=
  obj_ref s' = obj_ref s ∧ id s' = id s ∧ level s' = level s ∧
  room s' = room s ∧ number s' = number s ∧ name s' = name s ∧
  (is_winner s = true → is_winner s' = true).

(** The same table, later: the same rows in the same order, the same
    sequence. *)
Definition table_later (db db' : Database) : Prop :=
  students_id_seq db' = students_id_seq db ∧
  Forall2 row_later (students_rows db) (students_rows db').

(** The index of a key that is an array index. *)
Definition index_of (k : string) : N := default 0%N (array_index k).

(** Every byte continues a character. *)
Fixpoint all_continuation (s : string) : bool :=
  match s with
  | EmptyString => true
  | String a s' => is_continuation a && all_continuation s'
  end.

(** One character: a first byte that does not continue, then bytes that
    do. *)
Definition is_character (c : string) : bool :=
  match c with
  | EmptyString => false
  | String a rest => negb (is_continuation a) && all_continuation rest
  end.

(** The text is empty or begins a character. *)
Definition starts_character (s : string) : bool :=
  match s with
  | EmptyString => true
  | String a _ => negb (is_continuation a)
  end.

(** The state of the draw page after an event whose requests were
    answered at once: a stage up to 3, nothing loading, at most ten
    candidates, and the index within them (or 0 when there is none). *)
Definition game_ok (g : Game) : Prop :=
  (revealStage g ≤ 3)%nat ∧ isLoading g = false ∧
  (length (candidates g) ≤ 10)%nat ∧
  (currentIndex g < length (candidates g) ∨ currentIndex g = 0)%nat.

(** What holds of the page at every moment: a stage up to 3, at most ten
    candidates, and the page is loading only while a request is on its
    way. *)
Definition display_ok (d : Display) : Prop :=
  (revealStage (game d) ≤ 3)%nat ∧
  (length (candidates (game d)) ≤ 10)%nat ∧
  (pending d = [] → isLoading (game d) = false).

(** The space bar. *)
Definition space_key : KeyboardEvent := {| code := "Space"; key := " " |}.

(** The page at another stage of the reveal. *)
Definition at_stage (stage : nat) (g : Game) : Game :=
  {| candidates := candidates g; currentIndex := currentIndex g;
     revealStage := stage; isLoading := isLoading g;
     drawMode := drawMode g; selectedLevel := selectedLevel g |}.

#[global] Instance Effect_eq_dec : EqDecision Effect.
Proof. solve_decision. Defined.

(** How often the victory sound is played. *)
Definition victories (effects : list Effect) : nat :=
  length (filter (λ e, e = VictorySound) effects).

(** ** Example pools *)

Definition student (ref : nat) (lvl rm : string) : Student :=
  {| obj_ref := ref; id := Z.of_nat ref; level := lvl; room := rm;
     number := "1"; name := "n"; is_winner := false |}.

Definition two_levels_pool : list Student :=
  [student 1 "1" "1"; student 2 "1" "1"; student 3 "2" "2";
   student 4 "2" "2"; student 5 "1" "2"].

Definition pair_pool : list Student :=
  [student 1 "1" "1"; student 2 "1" "2"].

(** Three students whose level is the empty string. *)
Definition empty_level_pool : list Student :=
  [student 1 "" "1"; student 2 "" "1"; student 3 "" "2"].

(** Two students of level 1 and one whose level is the empty string. *)
Definition mixed_level_pool : list Student :=
  [student 1 "1" "1"; student 2 "1" "1"; student 3 "" "1"].

Definition mixed_level_pool4 : list Student :=
  [student 1 "1" "1"; student 2 "" "1"; student 3 "" "1"; student 4 "" "2"].

(** A pool in which the key ["a-b-c"] is that of room ["c"] of level
    ["a-b"] and of room ["b-c"] of level ["a"]. *)
Definition colliding_pool : list Student :=
  [student 1 "a-b" "d"; student 2 "a-b" "c"; student 3 "a-b" "e";
   student 4 "a" "b-c"].

(** One level with rooms A, B, C and two students in each. *)
Definition three_rooms_pool : list Student :=
  [student 1 "1" "A"; student 2 "1" "A"; student 3 "1" "B";
   student 4 "1" "B"; student 5 "1" "C"; student 6 "1" "C"].

(** Level 1 as above and five more levels of six students each. *)
Definition six_levels_pool : list Student :=
  three_rooms_pool ++
  ((λ i, student (7 + i) "2" "A") <$> seq 0 6) ++
  ((λ i, student (13 + i) "3" "A") <$> seq 0 6) ++
  ((λ i, student (19 + i) "4" "A") <$> seq 0 6) ++
  ((λ i, student (25 + i) "5" "A") <$> seq 0 6) ++
  ((λ i, student (31 + i) "6" "A") <$> seq 0 6).

(** The pool alone in a heap. *)
Definition pool_heap : gmap nat (list Student) := {[ 0%nat := two_levels_pool ]}.

(** The same pool in a heap that holds other arrays as well. *)
Definition busy_heap : gmap nat (list Student) :=
  {[ 1%nat := pair_pool; 4%nat := two_levels_pool; 7%nat := [] ]}.

(** ** A concrete engine

    The random source is a sequence of draws, each the numerator [k] of the
    double [k / 2^53] that [Math.random()] returns; the sort is a stable
    insertion sort.  A comparator that returns 0 on every call (every draw
    is 0.5) leaves the array as it is, as it does in every engine whose
    sort is stable. *)

Record Stream := mkStream {
  draws : nat → N;
  cursor : nat
}.

Definition next_draw (r : Stream) : N * Stream :=
  ((draws r (cursor r) mod 2 ^ 53)%N,
   {| draws := draws r; cursor := S (cursor r) |}).

(** [x] is placed before the first element that the comparator puts after
    it: [Math.random() - 0.5 > 0] when the draw exceeds [2^52]. *)
Fixpoint insert_random {A : Type} (x : A) (sorted : list A) (r : Stream)
  : list A * Stream :=
  match sorted with
  | [] => ([x], r)
  | y :: rest =>
      let '(k, r1) := next_draw r in
      if (2 ^ 52 <? k)%N then (x :: y :: rest, r1)
      else let '(rest', r2) := insert_random x rest r1 in (y :: rest', r2)
  end.

Fixpoint insertion_sort_random {A : Type} (l sorted : list A) (r : Stream)
  : list A * Stream :=
  match l with
  | [] => (sorted, r)
  | x :: l' =>
      let '(sorted', r1) := insert_random x sorted r in
      insertion_sort_random l' sorted' r1
  end.

Definition floor_random_times (n : nat) (r : Stream) : nat * Stream :=
  let '(k, r1) := next_draw r in
  (N.to_nat (k * N.of_nat n / 2 ^ 53)%N, r1).

#[global] Program Instance stable_engine : JsEngine := {|
  rng := Stream;
  sort_random := λ A l r, insertion_sort_random l [] r;
  random_index := floor_random_times
|}.
Next Obligation.
  intros A l r. simpl.
  assert (Hins : ∀ (x : A) (sorted : list A) r0,
            (insert_random x sorted r0).1 ≡ₚ x :: sorted).
  { intros x sorted. induction sorted as [|y rest IH]; intros r0; simpl;
      [done|].
    destruct (2 ^ 52 <? _)%N; simpl; [done|].
    specialize (IH (next_draw r0).2).
    destruct (insert_random x rest _) as [rest' r2]; simpl in *.
    rewrite IH. apply Permutation_swap. }
  assert (Hsort : ∀ (todo sorted : list A) r0,
            (insertion_sort_random todo sorted r0).1 ≡ₚ todo ++ sorted).
  { induction todo as [|x todo IH]; intros sorted r0; simpl; [done|].
    pose proof (Hins x sorted r0) as Hx.
    destruct (insert_random x sorted r0) as [sorted' r1]; simpl in *.
    rewrite IH, Hx. symmetry. apply Permutation_middle. }
  rewrite Hsort. by rewrite app_nil_r.
Qed.
Next Obligation.
  intros n r Hn. unfold floor_random_times, next_draw. simpl.
  set (k := (draws r (cursor r) mod 2 ^ 53)%N).
  assert (Hk : (k < 2 ^ 53)%N) by (apply N.mod_lt; done).
  assert (Hq : (k * N.of_nat n / 2 ^ 53 < N.of_nat n)%N).
  { apply N.Div0.div_lt_upper_bound. nia. }
  lia.
Qed.

(** The random source whose every draw is 0.5. *)
Definition halves : Stream := {| draws := λ _, (2 ^ 52)%N; cursor := 0 |}.

(** ** Example tables and pages *)

(** A table of five students, none of them a winner, and no request that
    fails. *)
Definition example_world : World :=
  {| database := {| students_rows := two_levels_pool; students_id_seq := 6 |};
     faults := []; console := [] |}.

(** The same table when the second request fails. *)
Definition second_fails_world : World :=
  {| database := database example_world; faults := [false; true];
     console := [] |}.

(** The table after student 1 was marked. *)
Definition confirmed_world : World := (markAsWinner 1 example_world).2.

(** A service that reads decimal numerals as keys and accepts no column
    besides those of the table. *)
#[global] Program Instance decimal_service : Postgrest := {|
  bigint_in := λ text,
    if decide (text = EmptyString) then None else Z.of_N <$> decimal text 0;
  accepts_others := λ others, bool_decide (Forall (λ row, row = []) others)
|}.
Next Obligation. intros others Hplain. by apply bool_decide_eq_true. Qed.

(** A row of a file with the columns [level,room,number,name]. *)
Definition csv_row (lvl rm num nm : string) : CsvRow :=
  [("level", lvl); ("room", rm); ("number", num); ("name", nm)].

(** The rows of a file: the second has no name. *)
Definition example_file : list CsvRow :=
  [csv_row "1" "1" "1" "a"; csv_row "1" "2" "7" EmptyString;
   csv_row "2" "3" "15" "b"].

(** The rows of a file with an [id] column; the first key is 0. *)
Definition keyed_file : list CsvRow :=
  [("id", "0") :: csv_row "1" "1" "1" "a";
   ("id", "7") :: csv_row "2" "3" "15" "b"].

(** The rows of a file whose [id] column repeats a key. *)
Definition repeating_file : list CsvRow :=
  [("id", "7") :: csv_row "1" "1" "1" "a";
   ("id", "7") :: csv_row "2" "3" "15" "b"].

(** The administration page showing five students. *)
Definition example_page : Admin.Page :=
  {| Admin.totalCount := 5; Admin.winnerCount := 0;
     Admin.isLoading := false; Admin.message := None |}.

(** Five candidates, the first on display, nothing revealed. *)
Definition example_game : Game :=
  {| candidates := two_levels_pool; currentIndex := 0; revealStage := 0;
     isLoading := false; drawMode := draw_all; selectedLevel := "1" |}.

(** The same with the confirmation of an earlier candidate on its way. *)
Definition busy_display : Display :=
  {| game := example_game; pending := [MarkTask 9 example_game None] |}.

(** A table with one student of level 1. *)
Definition one_of_level_world : World :=
  {| database := {| students_rows := [student 1 "1" "1"; student 2 "2" "1";
                                      student 3 "2" "2"];
                    students_id_seq := 4 |};
     faults := []; console := [] |}.

(** The page is mounted and its candidates arrive; the first is revealed
    and confirmed; while that request is on its way the user changes the
    mode, and the candidates of level 1 arrive before the confirmation
    is through. *)
Definition overtaken_confirmation : list (Step (E := stable_engine)) :=
  [User Mounted; Serve 0; Deliver 0 halves;
   User (KeyDown space_key); User (KeyDown space_key);
   User (KeyDown space_key); User ClickConfirm;
   User (ClickMode draw_by_level);
   Serve 1; Deliver 1 halves; Serve 0; Deliver 0 halves].

(** No scrambled text yet. *)
Definition no_texts : ScrambledTexts :=
  {| scrambled_level := EmptyString; scrambled_room := EmptyString;
     scrambled_number := EmptyString; scrambled_name := EmptyString |}.

(** ** Lemmas on maps *)

Section JsMapFacts.
Context {V : Type}.
Implicit Types (m : list (string * V)) (k : string) (v : V).

Lemma Map_get_Some_elem m k v : Map_get m k = Some v → (k, v) ∈ m.
Proof.
  induction m as [|[k' v'] m IH]; simpl; [done|].
  destruct (decide (k' = k)); intros Hg; simplify_eq; [left | right; auto].
Qed.

Lemma Map_get_elem m k v : NoDup m.*1 → (k, v) ∈ m → Map_get m k = Some v.
Proof.
  induction m as [|[k' v'] m IH]; simpl; intros Hnd Hin.
  - by apply elem_of_nil in Hin.
  - apply NoDup_cons in Hnd as [Hk' Hnd].
    apply elem_of_cons in Hin as [Heq | Hin]; simplify_eq.
    + by rewrite decide_True.
    + rewrite decide_False; [auto|].
      intros ->. apply Hk'. apply list_elem_of_fmap. by exists (k, v).
Qed.

Lemma Map_get_key m k : k ∈ m.*1 → is_Some (Map_get m k).
Proof.
  induction m as [|[k' v'] m IH]; simpl; intros Hin.
  - by apply elem_of_nil in Hin.
  - case_decide; [eauto|]. apply elem_of_cons in Hin as [?|?]; [done|auto].
Qed.

Lemma Map_get_set_eq m k v : Map_get (Map_set m k v) k = Some v.
Proof.
  induction m as [|[k' v'] m IH]; simpl.
  - by rewrite decide_True.
  - case_decide; simpl; [by rewrite decide_True | by rewrite decide_False].
Qed.

Lemma Map_get_set_ne m k k' v :
  k ≠ k' → Map_get (Map_set m k v) k' = Map_get m k'.
Proof.
  intros Hne. induction m as [|[k0 v0] m IH]; simpl.
  - by rewrite decide_False.
  - case_decide; simpl; subst.
    + by rewrite !decide_False.
    + case_decide; [done | apply IH].
Qed.

Lemma Map_set_keys_present m k v :
  is_Some (Map_get m k) → (Map_set m k v).*1 = m.*1.
Proof.
  induction m as [|[k0 v0] m IH]; simpl; intros Hs.
  - by destruct Hs.
  - case_decide; simpl; subst; [done|]. f_equal. auto.
Qed.

Lemma Map_set_keys_absent m k v :
  Map_get m k = None → (Map_set m k v).*1 = m.*1 ++ [k].
Proof.
  induction m as [|[k0 v0] m IH]; simpl; intros Hs; [done|].
  case_decide; simpl; [done|]. f_equal. auto.
Qed.

Lemma Map_get_None_keys m k : Map_get m k = None → k ∉ m.*1.
Proof.
  intros Hn Hin. apply Map_get_key in Hin as [v Hv]. congruence.
Qed.

Lemma Map_set_NoDup m k v : NoDup m.*1 → NoDup (Map_set m k v).*1.
Proof.
  intros Hnd. destruct (Map_get m k) as [v0|] eqn:Hg.
  - by rewrite Map_set_keys_present.
  - rewrite Map_set_keys_absent by done.
    apply NoDup_app. split_and!; [done| |apply NoDup_singleton].
    intros x Hx Hx'. apply list_elem_of_singleton in Hx' as ->.
    by apply Map_get_None_keys in Hg.
Qed.

Lemma Map_set_absent m k v : Map_get m k = None → Map_set m k v = m ++ [(k, v)].
Proof.
  induction m as [|[k0 v0] m IH]; simpl; intros Hs; [done|].
  destruct (decide (k0 = k)); [done|]. f_equal. auto.
Qed.

Lemma Map_set_present m k v v' :
  Map_get m k = Some v →
  ∃ pre post, m = pre ++ (k, v) :: post ∧
              Map_set m k v' = pre ++ (k, v') :: post.
Proof.
  induction m as [|[k0 v0] m IH]; simpl; intros Hs; [done|].
  destruct (decide (k0 = k)); simplify_eq.
  - by exists [], m.
  - destruct (IH Hs) as (pre & post & -> & ->).
    by exists ((k0, v0) :: pre), post.
Qed.

Lemma Map_elem_get m k v : NoDup m.*1 → (k, v) ∈ m ↔ Map_get m k = Some v.
Proof.
  intros Hnd. split; [by apply Map_get_elem | apply Map_get_Some_elem].
Qed.
End JsMapFacts.

Lemma remaining_set_present byLevel lvl l l' :
  Map_get byLevel lvl = Some l →
  ∃ pre post, remaining byLevel = pre ++ l ++ post ∧
              remaining (Map_set byLevel lvl l') = pre ++ l' ++ post.
Proof.
  intros Hg. destruct (Map_set_present _ _ _ l' Hg) as (pre & post & Hm & ->).
  exists (remaining pre), (remaining post). unfold remaining.
  rewrite Hm, !fmap_app, !join_app. by simpl.
Qed.

Lemma remaining_elem byLevel s :
  s ∈ remaining byLevel ↔ ∃ lvl l, (lvl, l) ∈ byLevel ∧ s ∈ l.
Proof.
  unfold remaining. rewrite list_elem_of_join. split.
  - intros (l & Hs & Hl). apply list_elem_of_fmap in Hl as ([lvl l'] & -> & Hin).
    eauto.
  - intros (lvl & l & Hin & Hs). exists l. split; [done|].
    apply list_elem_of_fmap. by exists (lvl, l).
Qed.

Lemma group_step_ok byLevel s :
  buckets_ok byLevel → buckets_ok (group_step byLevel s).
Proof.
  unfold group_step. intros [Hnd Hb]. split; [by apply Map_set_NoDup|].
  intros lvl l x Hin Hx.
  apply Map_elem_get in Hin; [|by apply Map_set_NoDup].
  destruct (decide (level s = lvl)) as [<-|Hne].
  - rewrite Map_get_set_eq in Hin. simplify_eq.
    apply elem_of_app in Hx as [Hx|Hx].
    + destruct (Map_get byLevel (level s)) as [old|] eqn:Hg; simpl in Hx.
      * apply Map_get_Some_elem in Hg. eauto.
      * by apply elem_of_nil in Hx.
    + by apply list_elem_of_singleton in Hx as ->.
  - rewrite Map_get_set_ne in Hin by done.
    apply Map_get_Some_elem in Hin. eauto.
Qed.

Lemma group_step_remaining byLevel s :
  remaining (group_step byLevel s) ≡ₚ remaining byLevel ++ [s].
Proof.
  unfold group_step.
  destruct (Map_get byLevel (level s)) as [old|] eqn:Hg; simpl.
  - destruct (remaining_set_present _ _ _ (old ++ [s]) Hg)
      as (pre & post & -> & ->).
    rewrite <-!app_assoc. do 2 f_equiv. apply Permutation_app_comm.
  - rewrite Map_set_absent by done. unfold remaining.
    rewrite fmap_app, join_app. simpl. by rewrite ?app_nil_r.
Qed.

Lemma group_by_level_from byLevel students :
  buckets_ok byLevel →
  let grouped := foldl group_step byLevel students in
  buckets_ok grouped ∧ remaining grouped ≡ₚ remaining byLevel ++ students.
Proof.
  revert byLevel. induction students as [|s students IH]; intros byLevel Hok.
  - simpl. split; [done|]. by rewrite app_nil_r.
  - simpl. destruct (IH _ (group_step_ok byLevel s Hok)) as [Hok' Hperm].
    split; [done|]. rewrite Hperm, group_step_remaining.
    by rewrite <-app_assoc.
Qed.

Lemma group_by_level_ok students :
  buckets_ok (group_by_level students) ∧
  remaining (group_by_level students) ≡ₚ students.
Proof.
  apply (group_by_level_from [] students). split; [constructor|].
  intros lvl l s Hin. by apply elem_of_nil in Hin.
Qed.

(** ** The phases of one iteration *)

Lemma collect_available_elem levelCooldown entries lvl :
  lvl ∈ collect_available levelCooldown entries →
  has_students entries lvl ∧ cooldown_of levelCooldown lvl ≤ 0.
Proof.
  induction entries as [|[k l] entries IH]; simpl.
  - intros Hin. by apply elem_of_nil in Hin.
  - assert (Hmono : ∀ x, has_students entries x → has_students ((k, l) :: entries) x).
    { intros x (l' & Hin & Hne). exists l'. split; [by right | done]. }
    destruct (decide (length l = 0%nat)) as [Hl|Hl].
    { intros Hin. destruct (IH Hin). auto. }
    destruct (decide (cooldown_of levelCooldown k ≤ 0)).
    2:{ intros Hin. destruct (IH Hin). auto. }
    intros Hin. apply elem_of_cons in Hin as [->|Hin].
    2:{ destruct (IH Hin). auto. }
    split; [|done]. exists l. split; [by left|]. by intros ->.
Qed.

Lemma collect_available_nil levelCooldown entries lvl :
  collect_available levelCooldown entries = [] →
  has_students entries lvl → 0 < cooldown_of levelCooldown lvl.
Proof.
  induction entries as [|[k l] entries IH]; simpl; intros Hnil (l' & Hin & Hne).
  - by apply elem_of_nil in Hin.
  - destruct (decide (length l = 0%nat)) as [Hl|Hl].
    + apply elem_of_cons in Hin as [Heq|Hin].
      * injection Heq as -> ->. by destruct l.
      * apply IH; [done|]. by exists l'.
    + destruct (decide (cooldown_of levelCooldown k ≤ 0)); [done|].
      apply elem_of_cons in Hin as [Heq|Hin].
      * injection Heq as -> ->. lia.
      * apply IH; [done|]. by exists l'.
Qed.

Lemma lowest_cooldown_level_keeps levelCooldown entries minCooldown bestLevel :
  is_Some bestLevel →
  is_Some (lowest_cooldown_level levelCooldown entries minCooldown bestLevel).
Proof.
  revert minCooldown bestLevel.
  induction entries as [|[k l] entries IH]; simpl; intros m b Hb; [done|].
  destruct (decide (length l = 0%nat)); [auto|].
  destruct (below_min _ m); auto.
Qed.

Lemma lowest_cooldown_level_finds levelCooldown entries bestLevel lvl :
  has_students entries lvl →
  is_Some (lowest_cooldown_level levelCooldown entries None bestLevel).
Proof.
  revert bestLevel.
  induction entries as [|[k l] entries IH]; simpl; intros b (l' & Hin & Hne).
  - by apply elem_of_nil in Hin.
  - destruct (decide (length l = 0%nat)) as [Hl|Hl].
    + apply elem_of_cons in Hin as [Heq|Hin].
      * injection Heq as -> ->. by destruct l.
      * apply IH. by exists l'.
    + by apply lowest_cooldown_level_keeps.
Qed.

Lemma lowest_cooldown_level_spec levelCooldown entries minCooldown bestLevel b :
  (∀ m, minCooldown = Some m →
        ∃ b0, bestLevel = Some b0 ∧ cooldown_of levelCooldown b0 = m) →
  (minCooldown = None → bestLevel = None) →
  lowest_cooldown_level levelCooldown entries minCooldown bestLevel = Some b →
  (bestLevel = Some b ∨ has_students entries b) ∧
  (∀ m, minCooldown = Some m → cooldown_of levelCooldown b ≤ m) ∧
  (∀ lvl, has_students entries lvl →
          cooldown_of levelCooldown b ≤ cooldown_of levelCooldown lvl).
Proof.
  revert minCooldown bestLevel.
  induction entries as [|[k l] entries IH]; simpl; intros m best Hm Hn Hres.
  - subst best. split_and!; [by left| |].
    + intros m0 ->. destruct (Hm m0 eq_refl) as (b0 & ? & ?). simplify_eq. lia.
    + intros lvl (l' & Hin & _). by apply elem_of_nil in Hin.
  - assert (Hmono : ∀ x, has_students entries x → has_students ((k, l) :: entries) x).
    { intros x (l' & Hin & Hne). exists l'. split; [by right | done]. }
    assert (Hinv : ∀ x, has_students ((k, l) :: entries) x →
                        (x = k ∧ l ≠ []) ∨ has_students entries x).
    { intros x (l' & Hin & Hne).
      apply elem_of_cons in Hin as [Heq|Hin].
      - injection Heq as -> ->. by left.
      - right. by exists l'. }
    destruct (decide (length l = 0%nat)) as [Hl|Hl].
    { destruct (IH _ _ Hm Hn Hres) as (H1 & H2 & H3). split_and!.
      - destruct H1; auto.
      - done.
      - intros lvl Hlvl. destruct (Hinv _ Hlvl) as [[-> Hne]|?]; [|auto].
        by destruct l. }
    assert (Hk : has_students ((k, l) :: entries) k).
    { exists l. split; [by left|]. by intros ->. }
    destruct (below_min _ m) eqn:Hbelow.
    + destruct (IH (Some (cooldown_of levelCooldown k)) (Some k)) as (H1 & H2 & H3);
        [by intros ? [= <-]; eauto | done | done |].
      specialize (H2 _ eq_refl). split_and!.
      * destruct H1 as [?|?]; simplify_eq; auto.
      * intros m0 ->. simpl in Hbelow. apply bool_decide_eq_true in Hbelow. lia.
      * intros lvl Hlvl. destruct (Hinv _ Hlvl) as [[-> _]|?]; auto.
    + destruct m as [m0|]; [|done]. simpl in Hbelow.
      apply bool_decide_eq_false in Hbelow.
      destruct (IH _ _ Hm Hn Hres) as (H1 & H2 & H3).
      specialize (H2 _ eq_refl). split_and!.
      * destruct H1; auto.
      * intros ? ?. simplify_eq. done.
      * intros lvl Hlvl. destruct (Hinv _ Hlvl) as [[-> _]|?]; [lia|auto].
Qed.

Lemma lowest_cooldown_student_keeps roomCooldown lvl l minRoomCooldown bestStudent :
  is_Some bestStudent →
  is_Some (lowest_cooldown_student roomCooldown lvl l minRoomCooldown bestStudent).
Proof.
  revert minRoomCooldown bestStudent.
  induction l as [|s l IH]; simpl; intros m b Hb; [done|].
  destruct (below_min _ m); auto.
Qed.

Lemma lowest_cooldown_student_spec roomCooldown lvl l minRoomCooldown bestStudent b :
  (∀ m, minRoomCooldown = Some m →
        ∃ b0, bestStudent = Some b0 ∧ room_cooldown_of roomCooldown lvl b0 = m) →
  (minRoomCooldown = None → bestStudent = None) →
  lowest_cooldown_student roomCooldown lvl l minRoomCooldown bestStudent = Some b →
  (bestStudent = Some b ∨ b ∈ l) ∧
  (∀ m, minRoomCooldown = Some m → room_cooldown_of roomCooldown lvl b ≤ m) ∧
  (∀ s, s ∈ l →
        room_cooldown_of roomCooldown lvl b ≤ room_cooldown_of roomCooldown lvl s).
Proof.
  unfold room_cooldown_of. revert minRoomCooldown bestStudent.
  induction l as [|x l IH]; simpl; intros m best Hm Hn Hres.
  - subst best. split_and!; [by left| |].
    + intros m0 ->. destruct (Hm m0 eq_refl) as (b0 & [= <-] & ?). lia.
    + intros s Hin. by apply elem_of_nil in Hin.
  - destruct (below_min _ m) eqn:Hbelow.
    + destruct (IH (Some (cooldown_of roomCooldown (roomKey lvl (room x))))
                  (Some x)) as (H1 & H2 & H3);
        [by intros ? [= <-]; eauto | done | done |].
      specialize (H2 _ eq_refl). split_and!.
      * right. destruct H1 as [[= <-]|?]; [by left | by right].
      * intros m0 ->. simpl in Hbelow. apply bool_decide_eq_true in Hbelow. lia.
      * intros s Hin. apply elem_of_cons in Hin as [->|Hin]; auto.
    + destruct m as [m0|]; [|done]. simpl in Hbelow.
      apply bool_decide_eq_false in Hbelow.
      destruct (IH _ _ Hm Hn Hres) as (H1 & H2 & H3).
      specialize (H2 _ eq_refl). split_and!.
      * destruct H1; [by left | right; by right].
      * by intros ? [= <-].
      * intros s Hin. apply elem_of_cons in Hin as [->|Hin]; [lia|auto].
Qed.

Lemma level_candidates_spec roomCooldown lvl l :
  l ≠ [] →
  let '(validStudents, forced) := level_candidates roomCooldown lvl l in
  validStudents ≠ [] ∧
  ∀ s, s ∈ validStudents → s ∈ l ∧ room_choice roomCooldown lvl l s forced.
Proof.
  intros Hne. unfold level_candidates.
  destruct (decide (length (valid_students roomCooldown lvl l) = 0%nat))
    as [Hlen|Hlen].
  - apply nil_length_inv in Hlen.
    assert (Hall : ∀ s', s' ∈ l → 0 < room_cooldown_of roomCooldown lvl s').
    { intros s' Hs'. destruct (decide (room_cooldown_of roomCooldown lvl s' ≤ 0))
        as [Hle|]; [|lia].
      assert (s' ∈ valid_students roomCooldown lvl l) as Hin
        by (apply list_elem_of_filter; done).
      rewrite Hlen in Hin. by apply elem_of_nil in Hin. }
    destruct (lowest_cooldown_student roomCooldown lvl l None None)
      as [b|] eqn:Hlow.
    + apply lowest_cooldown_student_spec in Hlow as (H1 & _ & H3); [|done..].
      destruct H1 as [?|Hb]; [done|]. split; [done|].
      intros s Hs. apply list_elem_of_singleton in Hs as ->. split; [done|].
      simpl. intros s' Hs'. split; auto.
    + destruct l as [|x l]; [done|]. simpl in Hlow.
      by destruct (lowest_cooldown_student_keeps roomCooldown lvl l
                     (Some (cooldown_of roomCooldown (roomKey lvl (room x))))
                     (Some x) (mk_is_Some _ _ eq_refl)) as [? ?]; simplify_eq.
  - split; [by intros Heq; rewrite Heq in Hlen|].
    intros s Hs. apply list_elem_of_filter in Hs as [Hcd Hs]. by split.
Qed.

Lemma candidate_levels_spec st :
  match candidate_levels st with
  | Some (levels, forced) =>
      levels ≠ [] ∧
      ∀ lvl, lvl ∈ levels →
             has_students (byLevel st) lvl ∧ level_choice st lvl forced
  | None => (∀ lvl, ¬ has_students (byLevel st) lvl) ∨
            has_students (byLevel st) ""
  end.
Proof.
  unfold candidate_levels.
  destruct (decide (length (collect_available _ _) = 0%nat)) as [Hlen|Hlen].
  - apply nil_length_inv in Hlen.
    destruct (lowest_cooldown_level _ _ None None) as [b|] eqn:Hlow; simpl.
    + apply lowest_cooldown_level_spec in Hlow as (H1 & _ & H3); [|done..].
      destruct H1 as [?|Hb]; [done|].
      case_bool_decide as Hempty.
      * split; [done|]. intros lvl Hin.
        apply list_elem_of_singleton in Hin as ->. split; [done|].
        simpl. intros lvl' Hlvl'. split; [|by apply H3].
        by apply (collect_available_nil _ (byLevel st)).
      * right. by subst b.
    + left. intros lvl Hlvl.
      destruct (lowest_cooldown_level_finds (levelCooldown st) _ None _ Hlvl)
        as [b Hb].
      congruence.
  - split; [by intros Heq; rewrite Heq in Hlen|].
    intros lvl Hin. by apply collect_available_elem in Hin.
Qed.

Lemma indexOf_elem l s : s ∈ l → ∃ i, indexOf l s = Some i ∧ l !! i = Some s.
Proof.
  induction l as [|x l IH]; simpl; intros Hin.
  - by apply elem_of_nil in Hin.
  - destruct (decide (x = s)) as [->|Hne]; [by exists 0%nat|].
    apply elem_of_cons in Hin as [?|Hin]; [done|].
    destruct (IH Hin) as (i & -> & Hi). by exists (S i).
Qed.

Lemma has_students_get byLevel lvl :
  NoDup byLevel.*1 →
  has_students byLevel lvl ↔ ∃ l, Map_get byLevel lvl = Some l ∧ l ≠ [].
Proof.
  intros Hnd. unfold has_students.
  split; intros (l & Hl & Hne); exists l; split; try done;
    by apply Map_elem_get.
Qed.

Lemma first_remaining_elem entries s lvl :
  first_remaining entries = Some (s, lvl) →
  ∃ l, (lvl, s :: l) ∈ entries.
Proof.
  induction entries as [|[k l] entries IH]; simpl; [done|].
  destruct l as [|x l].
  - intros Hf. destruct (IH Hf) as [l' ?]. exists l'. by right.
  - intros [= -> ->]. exists l. by left.
Qed.

Lemma commit_spec roomsPerLevel st s lvl l :
  Map_get (byLevel st) lvl = Some l → s ∈ l →
  ∃ i, l !! i = Some s ∧
       commit roomsPerLevel st s lvl = Some (committed roomsPerLevel st s lvl l i).
Proof.
  intros Hg Hs. destruct (indexOf_elem l s Hs) as (i & Hidx & Hi).
  exists i. split; [done|]. unfold commit. by rewrite Hg, Hidx.
Qed.

Lemma commit_buckets_ok byLevel lvl l i s :
  buckets_ok byLevel → Map_get byLevel lvl = Some l → l !! i = Some s →
  buckets_ok (Map_set byLevel lvl (delete i l)).
Proof.
  intros [Hnd Hb] Hg Hi. split; [by apply Map_set_NoDup|].
  intros k l' x Hin Hx.
  apply Map_elem_get in Hin; [|by apply Map_set_NoDup].
  destruct (decide (lvl = k)) as [<-|Hne].
  - rewrite Map_get_set_eq in Hin. injection Hin as <-.
    apply Map_get_Some_elem in Hg. apply (Hb _ l); [done|].
    by eapply list_elem_of_delete_inv.
  - rewrite Map_get_set_ne in Hin by done.
    apply Map_get_Some_elem in Hin. eauto.
Qed.

Lemma commit_remaining byLevel lvl l i s :
  Map_get byLevel lvl = Some l → l !! i = Some s →
  s :: remaining (Map_set byLevel lvl (delete i l)) ≡ₚ remaining byLevel.
Proof.
  intros Hg Hi.
  destruct (remaining_set_present _ _ _ (delete i l) Hg)
    as (pre & post & -> & ->).
  transitivity (pre ++ (s :: delete i l) ++ post).
  - simpl. apply Permutation_middle.
  - by rewrite <-(delete_Permutation l i s Hi).
Qed.

Section ShuffleFacts.
Context {E : JsEngine}.

Lemma shuffle_levels_keys byLevel r :
  (shuffle_levels byLevel r).1.*1 = byLevel.*1.
Proof.
  revert r. induction byLevel as [|[k l] m IH]; intros r; simpl; [done|].
  destruct (sort_random l r) as [sorted r1].
  specialize (IH r1). destruct (shuffle_levels m r1) as [m' r2].
  simpl in *. by f_equal.
Qed.

Lemma shuffle_levels_elem byLevel r k l :
  (k, l) ∈ (shuffle_levels byLevel r).1 →
  ∃ l0, (k, l0) ∈ byLevel ∧ l ≡ₚ l0.
Proof.
  revert r. induction byLevel as [|[k0 l0] m IH]; intros r; simpl.
  - intros Hin. by apply elem_of_nil in Hin.
  - pose proof (sort_random_perm _ l0 r) as Hperm.
    destruct (sort_random l0 r) as [sorted r1].
    specialize (IH r1). destruct (shuffle_levels m r1) as [m' r2].
    simpl in *. intros Hin. apply elem_of_cons in Hin as [Heq|Hin].
    + injection Heq as -> ->. exists l0. split; [by left | done].
    + destruct (IH Hin) as (l1 & ? & ?). exists l1. split; [by right|done].
Qed.

Lemma shuffle_levels_remaining byLevel r :
  remaining (shuffle_levels byLevel r).1 ≡ₚ remaining byLevel.
Proof.
  revert r. induction byLevel as [|[k0 l0] m IH]; intros r; simpl; [done|].
  pose proof (sort_random_perm _ l0 r) as Hperm.
  destruct (sort_random l0 r) as [sorted r1].
  specialize (IH r1). destruct (shuffle_levels m r1) as [m' r2].
  unfold remaining in *. simpl in *. by rewrite Hperm, IH.
Qed.

Lemma shuffle_levels_ok byLevel r :
  buckets_ok byLevel → buckets_ok (shuffle_levels byLevel r).1.
Proof.
  intros [Hnd Hb]. split; [by rewrite shuffle_levels_keys|].
  intros lvl l s Hin Hs.
  apply shuffle_levels_elem in Hin as (l0 & Hin & Hperm).
  apply (Hb _ l0); [done|]. by rewrite <-Hperm.
Qed.

Lemma try_levels_sound levels st r s lvl forced r' :
  try_levels levels st r = Some (Some s, Some lvl, forced, r') →
  lvl ∈ levels ∧
  ∃ l, Map_get (byLevel st) lvl = Some l ∧ s ∈ l ∧
       room_choice (roomCooldown st) lvl l s forced.
Proof.
  induction levels as [|k levels IH]; simpl; [done|].
  destruct (Map_get (byLevel st) k) as [l|] eqn:Hg; [|done].
  destruct (level_candidates (roomCooldown st) k l) as [valid f] eqn:Hc.
  destruct (decide (0 < length valid)%nat) as [Hlen|Hlen].
  - destruct (random_index (length valid) r) as [idx r1] eqn:Hidx.
    intros [= Hs <- <- <-]. split; [by left|]. exists l. split; [done|].
    assert (l ≠ []) as Hne.
    { intros ->. cbv in Hc. injection Hc as <- <-. simpl in Hlen. lia. }
    pose proof (level_candidates_spec (roomCooldown st) k l Hne) as Hspec.
    rewrite Hc in Hspec. destruct Hspec as [_ Hspec].
    apply Hspec. by eapply list_elem_of_lookup_2.
  - intros Hrec. destruct (IH Hrec) as [Hin Hl]. split; [by right | done].
Qed.

Lemma try_levels_no_throw levels st r :
  (∀ lvl, lvl ∈ levels → lvl ∈ (byLevel st).*1) →
  is_Some (try_levels levels st r).
Proof.
  induction levels as [|k levels IH]; simpl; intros Hkeys; [done|].
  destruct (Map_get_key (byLevel st) k) as [l ->]; [apply Hkeys; by left|].
  destruct (level_candidates (roomCooldown st) k l) as [valid f].
  destruct (decide (0 < length valid)%nat).
  - by destruct (random_index (length valid) r).
  - apply IH. intros lvl Hin. apply Hkeys. by right.
Qed.

Lemma try_levels_first lvl levels st r :
  NoDup (byLevel st).*1 → has_students (byLevel st) lvl →
  ∃ s forced r',
    try_levels (lvl :: levels) st r = Some (Some s, Some lvl, forced, r').
Proof.
  intros Hnd Hlvl. apply has_students_get in Hlvl as (l & Hg & Hne); [|done].
  simpl. rewrite Hg.
  pose proof (level_candidates_spec (roomCooldown st) lvl l Hne) as Hspec.
  destruct (level_candidates (roomCooldown st) lvl l) as [valid f].
  destruct Hspec as [Hvalid _].
  assert (0 < length valid)%nat as Hlen by (destruct valid; simpl; [done|lia]).
  rewrite decide_True by done.
  pose proof (random_index_lt (length valid) r Hlen) as Hlt.
  destruct (random_index (length valid) r) as [idx r1]. simpl in Hlt.
  destruct (lookup_lt_is_Some_2 valid idx Hlt) as [s Hs].
  exists s, f, r1. by rewrite Hs.
Qed.

Lemma has_students_key byLevel lvl :
  has_students byLevel lvl → lvl ∈ byLevel.*1.
Proof.
  intros (l & Hin & _). apply list_elem_of_fmap. by exists (lvl, l).
Qed.

(** A selection takes a student from the bucket of the level selected;
    unless the emergency branch made it, it follows the cooldown rules. *)
Lemma select_pick_sound st r ev r' :
  NoDup (byLevel st).*1 →
  select_pick st r = Some (Some ev, r') →
  ∃ l, Map_get (byLevel st) (pick_level ev) = Some l ∧
       pick_student ev ∈ l ∧
       (emergency ev = false →
        level_choice st (pick_level ev) (level_forced ev) ∧
        room_choice (roomCooldown st) (pick_level ev) l (pick_student ev)
          (room_forced ev)).
Proof.
  intros Hnd. unfold select_pick.
  pose proof (candidate_levels_spec st) as Hcand.
  destruct (candidate_levels st) as [[levels lforced]|]; [|done].
  destruct Hcand as [Hlevels Hcand].
  pose proof (sort_random_perm _ levels r) as Hperm.
  destruct (sort_random levels r) as [levels' r1]. simpl in Hperm.
  destruct (try_levels levels' st r1) as [[[[ss sl] rforced] r2]|] eqn:Htry;
    [|done].
  destruct (nothing_selected ss sl) eqn:Hurgent.
  - destruct (first_remaining (byLevel st)) as [[s lvl]|] eqn:Hfirst.
    + destruct (nothing_selected (Some s) (Some lvl)); [done|].
      apply first_remaining_elem in Hfirst as [l0 Hin].
      apply Map_elem_get in Hin; [|done].
      intros [= <- <-]. exists (s :: l0). simpl. split_and!; [done|by left|done].
    + by rewrite Hurgent.
  - rewrite Hurgent. destruct ss as [s|], sl as [lvl|]; try done.
    apply try_levels_sound in Htry as (Hin & l & Hg & Hs & Hroom).
    intros [= <- <-]. exists l. simpl. split_and!; try done.
    intros _. split; [|done]. apply Hcand. by rewrite <-Hperm.
Qed.

Lemma select_pick_no_throw st r : is_Some (select_pick st r).
Proof.
  unfold select_pick.
  pose proof (candidate_levels_spec st) as Hcand.
  destruct (candidate_levels st) as [[levels lforced]|]; [|done].
  destruct Hcand as [Hlevels Hcand].
  pose proof (sort_random_perm _ levels r) as Hperm.
  destruct (sort_random levels r) as [levels' r1]. simpl in Hperm.
  destruct (try_levels_no_throw levels' st r1) as [[[[ss sl] rforced] r2] Htry].
  { intros lvl Hin. apply has_students_key. apply Hcand. by rewrite <-Hperm. }
  rewrite Htry.
  destruct (nothing_selected ss sl) eqn:Hurgent.
  - destruct (first_remaining (byLevel st)) as [[s lvl]|] eqn:Hfirst.
    + by destruct (nothing_selected (Some s) (Some lvl)).
    + by rewrite Hurgent.
  - rewrite Hurgent. by destruct ss as [s|], sl as [lvl|].
Qed.

(** With a student left and no bucket under the empty level, the
    selection succeeds, and not by the emergency branch. *)
Lemma select_pick_total st r lvl0 :
  NoDup (byLevel st).*1 →
  has_students (byLevel st) lvl0 → ¬ has_students (byLevel st) "" →
  ∃ ev r', select_pick st r = Some (Some ev, r') ∧ emergency ev = false.
Proof.
  intros Hnd Hsome Hempty. unfold select_pick.
  pose proof (candidate_levels_spec st) as Hcand.
  destruct (candidate_levels st) as [[levels lforced]|].
  2:{ destruct Hcand as [Hnone|?]; [|done]. by destruct (Hnone lvl0). }
  destruct Hcand as [Hlevels Hcand].
  pose proof (sort_random_perm _ levels r) as Hperm.
  destruct (sort_random levels r) as [levels' r1]. simpl in Hperm.
  destruct levels' as [|lvl levels'].
  { apply Permutation_nil_l in Hperm. done. }
  assert (has_students (byLevel st) lvl) as Hlvl.
  { apply Hcand. rewrite <-Hperm. by left. }
  destruct (try_levels_first lvl levels' st r1 Hnd Hlvl)
    as (s & rforced & r2 & Htry).
  rewrite Htry.
  assert (nothing_selected (Some s) (Some lvl) = false) as Hsel.
  { unfold nothing_selected, truthy_level.
    rewrite (bool_decide_true (is_Some (Some s))) by (by eexists).
    rewrite (bool_decide_true (lvl ≠ "")); [done|].
    intros ->. done. }
  rewrite Hsel. cbv beta iota zeta. rewrite Hsel. by eexists _, _.
Qed.

Lemma loop_body_picked roomsPerLevel st r st' r' ev :
  NoDup (byLevel st).*1 →
  loop_body roomsPerLevel st r = Picked st' r' ev →
  picked_from roomsPerLevel st ev st'.
Proof.
  intros Hnd. unfold loop_body.
  destruct (select_pick st r) as [[[ev0|] r0]|] eqn:Hsel; [|done..].
  destruct (select_pick_sound _ _ _ _ Hnd Hsel) as (l & Hg & Hs & Hchoice).
  destruct (commit_spec roomsPerLevel st _ _ _ Hg Hs) as (i & Hi & Hc).
  rewrite Hc. intros [= <- <- <-]. by exists l, i.
Qed.

Lemma loop_body_no_throw roomsPerLevel st r :
  NoDup (byLevel st).*1 → loop_body roomsPerLevel st r ≠ Threw.
Proof.
  intros Hnd. unfold loop_body.
  destruct (select_pick_no_throw st r) as [[[ev0|] r0] Hsel]; rewrite Hsel;
    [|done].
  destruct (select_pick_sound _ _ _ _ Hnd Hsel) as (l & Hg & Hs & Hchoice).
  destruct (commit_spec roomsPerLevel st _ _ _ Hg Hs) as (i & Hi & Hc).
  by rewrite Hc.
Qed.

(** With a student left and no bucket under the empty level, the
    iteration picks, and not by the emergency branch. *)
Lemma loop_body_total roomsPerLevel st r lvl0 :
  NoDup (byLevel st).*1 →
  has_students (byLevel st) lvl0 → ¬ has_students (byLevel st) "" →
  ∃ st' r' ev,
    loop_body roomsPerLevel st r = Picked st' r' ev ∧ emergency ev = false.
Proof.
  intros Hnd Hsome Hempty. unfold loop_body.
  destruct (select_pick_total st r lvl0 Hnd Hsome Hempty)
    as (ev & r' & Hsel & Hem).
  rewrite Hsel.
  destruct (select_pick_sound _ _ _ _ Hnd Hsel) as (l & Hg & Hs & Hchoice).
  destruct (commit_spec roomsPerLevel st _ _ _ Hg Hs) as (i & Hi & Hc).
  rewrite Hc. by eexists _, _, _.
Qed.

End ShuffleFacts.

(** ** The loop invariant and the trace of picks *)

Lemma picked_from_inv roomsPerLevel students st ev st' :
  loop_inv students st → picked_from roomsPerLevel st ev st' →
  loop_inv students st'.
Proof.
  intros [Hok Hperm] (l & i & Hg & Hi & _ & -> & _). split; simpl.
  - by eapply commit_buckets_ok.
  - rewrite <-Hperm, <-app_assoc. f_equiv. simpl. by apply commit_remaining.
Qed.

Lemma picked_from_result roomsPerLevel st ev st' :
  picked_from roomsPerLevel st ev st' →
  result st' = result st ++ [pick_student ev].
Proof. by intros (l & i & Hg & Hi & _ & -> & _). Qed.

Lemma trace_from_inv roomsPerLevel students st tr fin :
  loop_inv students st → trace_from roomsPerLevel st tr fin →
  loop_inv students fin ∧ Forall (λ p, loop_inv students p.1) tr.
Proof.
  intros Hinv Htr. induction Htr as [st|st ev st' tr fin Hpick Htr IH].
  - by split.
  - destruct IH as [Hfin Hall]; [by eapply picked_from_inv|].
    split; [done|]. by constructor.
Qed.

Lemma trace_from_result roomsPerLevel st tr fin :
  trace_from roomsPerLevel st tr fin →
  result fin = result st ++ ((pick_student ∘ snd) <$> tr).
Proof.
  induction 1 as [st|st ev st' tr fin Hpick Htr IH]; simpl.
  - by rewrite app_nil_r.
  - rewrite IH, (picked_from_result _ _ _ _ Hpick). by rewrite <-app_assoc.
Qed.

(** Every suffix of a trace is the trace of the rest of the run. *)
Lemma trace_from_drop roomsPerLevel st tr fin j stj ev :
  trace_from roomsPerLevel st tr fin → tr !! j = Some (stj, ev) →
  trace_from roomsPerLevel stj (drop j tr) fin.
Proof.
  intros Htr. revert j. induction Htr as [st|st ev0 st' tr fin Hpick Htr IH];
    intros j Hj; [done|].
  destruct j as [|j]; simpl in *.
  - injection Hj as <- <-. by econstructor.
  - by apply IH.
Qed.

Section LoopFacts.
Context {E : JsEngine}.

Lemma pick_loop_trace fuel size roomsPerLevel students st r run :
  loop_inv students st →
  pick_loop fuel size roomsPerLevel st r = Normal run →
  ∃ fin, run_final run = Some fin ∧ run_result run = result fin ∧
         trace_from roomsPerLevel st (run_trace run) fin.
Proof.
  revert st r run. induction fuel as [|fuel IH]; intros st r run Hinv; simpl.
  - destruct (decide (length (result st) < size)%nat); [done|].
    intros [= <-]. exists st. split_and!; [done..|constructor].
  - destruct (decide (length (result st) < size)%nat).
    2:{ intros [= <-]. exists st. split_and!; [done..|constructor]. }
    destruct (loop_body roomsPerLevel st r) as [st' r' ev|r'|] eqn:Hbody.
    + apply loop_body_picked in Hbody; [|apply Hinv].
      destruct (pick_loop fuel size roomsPerLevel st' r') as [run'| |] eqn:Hrec;
        [|done..].
      intros [= <-]. simpl.
      destruct (IH _ _ _ (picked_from_inv _ _ _ _ _ Hinv Hbody) Hrec)
        as (fin & Hfin & Hres & Htr).
      exists fin. split_and!; [done..|]. by econstructor.
    + intros [= <-]. exists st. split_and!; [done..|constructor].
    + done.
Qed.

(** The loop ends within [size - result.length] iterations and does not
    throw. *)
Lemma pick_loop_terminates fuel size roomsPerLevel students st r :
  loop_inv students st →
  (size - length (result st) ≤ fuel)%nat →
  ∃ run, pick_loop fuel size roomsPerLevel st r = Normal run ∧
         (length (run_trace run) + (if run_broke run then 1 else 0)
          ≤ size - length (result st))%nat.
Proof.
  revert st r. induction fuel as [|fuel IH]; intros st r Hinv Hfuel; simpl.
  - rewrite decide_False by lia. eexists. split; [done|]. simpl. lia.
  - destruct (decide (length (result st) < size)%nat) as [Hlt|Hlt].
    2:{ eexists. split; [done|]. simpl. lia. }
    destruct (loop_body roomsPerLevel st r) as [st' r' ev|r'|] eqn:Hbody.
    + apply loop_body_picked in Hbody; [|apply Hinv].
      pose proof (picked_from_result _ _ _ _ Hbody) as Hres.
      destruct (IH st' r') as (run' & -> & Hcount).
      { by eapply picked_from_inv. }
      { rewrite Hres, length_app. simpl. lia. }
      eexists. split; [done|]. simpl.
      rewrite Hres, length_app in Hcount. simpl in Hcount. lia.
    + eexists. split; [done|]. simpl. lia.
    + by apply loop_body_no_throw in Hbody; [|apply Hinv].
Qed.

(** More fuel does not change a run. *)
Lemma pick_loop_fuel_mono fuel fuel' size roomsPerLevel st r run :
  (fuel ≤ fuel')%nat →
  pick_loop fuel size roomsPerLevel st r = Normal run →
  pick_loop fuel' size roomsPerLevel st r = Normal run.
Proof.
  revert fuel' st r run.
  induction fuel as [|fuel IH]; intros fuel' st r run Hle; simpl.
  - destruct (decide (length (result st) < size)%nat) as [Hlt|Hlt]; [done|].
    intros <-. destruct fuel'; simpl; by rewrite decide_False.
  - destruct fuel' as [|fuel']; [lia|]. simpl.
    destruct (decide (length (result st) < size)%nat) as [Hlt|Hlt]; [|done].
    destruct (loop_body roomsPerLevel st r) as [st' r' ev|r'|]; [|done..].
    destruct (pick_loop fuel size roomsPerLevel st' r') as [run'| |] eqn:Hrec;
      [|done..].
    by rewrite (IH fuel' st' r' run') by (done || lia).
Qed.

(** Without a bucket under the empty level, every iteration picks, none by
    the emergency branch, and the loop ends by its condition. *)
Lemma pick_loop_complete fuel roomsPerLevel students st r run :
  loop_inv students st →
  (∀ s, s ∈ students → level s ≠ "") →
  pick_loop fuel (length students) roomsPerLevel st r = Normal run →
  run_broke run = false ∧
  Forall (λ p, emergency p.2 = false) (run_trace run) ∧
  (length (result st) + length (run_trace run))%nat = length students.
Proof.
  intros Hinv Hlevels. revert st r run Hinv.
  assert (Hlen : ∀ st, loop_inv students st →
                       (length (result st) ≤ length students)%nat).
  { intros st [_ Hperm]. rewrite <-Hperm, length_app. lia. }
  induction fuel as [|fuel IH]; intros st r run Hinv; simpl.
  - destruct (decide (length (result st) < length students)%nat); [done|].
    intros [= <-]. simpl. specialize (Hlen _ Hinv). split_and!; [done..|lia].
  - destruct (decide (length (result st) < length students)%nat) as [Hlt|Hlt].
    2:{ intros [= <-]. simpl. specialize (Hlen _ Hinv).
        split_and!; [done..|lia]. }
    assert (∃ s, s ∈ remaining (byLevel st)) as [s0 Hs0].
    { destruct (remaining (byLevel st)) as [|s0 rest] eqn:Hrem.
      - destruct Hinv as [_ Hperm]. rewrite Hrem, app_nil_r in Hperm.
        rewrite Hperm in Hlt. lia.
      - exists s0. by left. }
    apply remaining_elem in Hs0 as (lvl0 & l0 & Hin0 & Hs0).
    destruct (loop_body_total roomsPerLevel st r lvl0)
      as (st' & r' & ev & Hbody & Hem).
    { apply Hinv. }
    { exists l0. split; [done|]. intros ->. by apply elem_of_nil in Hs0. }
    { intros (l & Hin & Hne). destruct l as [|x l]; [done|].
      apply (Hlevels x).
      - destruct Hinv as [_ Hperm]. rewrite <-Hperm.
        apply elem_of_app. right. apply remaining_elem.
        exists "", (x :: l). split; [done | by left].
      - destruct Hinv as [[_ Hb] _]. apply (Hb _ (x :: l)); [done | by left]. }
    rewrite Hbody.
    apply loop_body_picked in Hbody; [|apply Hinv].
    destruct (pick_loop fuel (length students) roomsPerLevel st' r')
      as [run'| |] eqn:Hrec; [|done..].
    intros [= <-]. simpl.
    destruct (IH _ _ _ (picked_from_inv _ _ _ _ _ Hinv Hbody) Hrec)
      as (Hbroke & Hall & Hcount).
    split_and!; [done|by constructor|].
    rewrite (picked_from_result _ _ _ _ Hbody), length_app in Hcount.
    simpl in Hcount. lia.
Qed.

Lemma initial_inv students r :
  loop_inv students
    (initial_state (shuffle_levels (group_by_level students) r).1).
Proof.
  destruct (group_by_level_ok students) as [Hok Hperm]. split; simpl.
  - by apply shuffle_levels_ok.
  - by rewrite shuffle_levels_remaining.
Qed.

End LoopFacts.

(** ** Runs of [fairDistributionShuffle] *)

Section RunFacts.
Context {E : JsEngine}.

(** The loop of a pool of more than two students starts from the shuffled
    buckets and ends in a state reached by picks. *)
Lemma run_trace_from fuel students r run :
  (2 < length students)%nat →
  fairDistributionShuffle_run fuel students r = Normal run →
  ∃ st0 fin,
    st0 = initial_state (shuffle_levels (group_by_level students) r).1 ∧
    loop_inv students st0 ∧ loop_inv students fin ∧
    run_final run = Some fin ∧
    run_result run = (pick_student ∘ snd) <$> run_trace run ∧
    trace_from (rooms_per_level students) st0 (run_trace run) fin.
Proof.
  intros Hlen. unfold fairDistributionShuffle_run.
  rewrite decide_False by lia.
  pose proof (initial_inv students r) as Hinv.
  destruct (shuffle_levels (group_by_level students) r) as [byLevel0 r1].
  simpl in Hinv. intros Hrun.
  destruct (pick_loop_trace _ _ _ _ _ _ _ Hinv Hrun)
    as (fin & Hfin & Hres & Htr).
  exists (initial_state byLevel0), fin. split_and!; try done.
  - by destruct (trace_from_inv _ _ _ _ _ Hinv Htr).
  - by rewrite Hres, (trace_from_result _ _ _ _ Htr).
Qed.

(** Termination: as many iterations as there are students are enough, the
    run does not throw, and it makes no more iterations than that. *)
Lemma run_terminates fuel students r :
  (length students ≤ fuel)%nat →
  ∃ run, fairDistributionShuffle_run fuel students r = Normal run ∧
         (length (run_trace run) + (if run_broke run then 1 else 0)
          ≤ length students)%nat.
Proof.
  intros Hfuel. unfold fairDistributionShuffle_run.
  destruct (decide (length students ≤ 2)%nat).
  { eexists. split; [done|]. simpl. lia. }
  pose proof (initial_inv students r) as Hinv.
  destruct (shuffle_levels (group_by_level students) r) as [byLevel0 r1].
  simpl in Hinv.
  destruct (pick_loop_terminates fuel (length students)
              (rooms_per_level students) students _ r1 Hinv)
    as (run & Hrun & Hcount); [simpl; lia|].
  exists run. split; [done|]. simpl in Hcount. lia.
Qed.

Lemma run_fuel_mono fuel fuel' students r run :
  (fuel ≤ fuel')%nat →
  fairDistributionShuffle_run fuel students r = Normal run →
  fairDistributionShuffle_run fuel' students r = Normal run.
Proof.
  intros Hle. unfold fairDistributionShuffle_run.
  destruct (decide (length students ≤ 2)%nat); [done|].
  destruct (shuffle_levels (group_by_level students) r) as [byLevel0 r1].
  by apply pick_loop_fuel_mono.
Qed.

(** On a pool without empty levels the loop picks every student. *)
Lemma run_complete fuel students r run :
  levels_nonempty students →
  fairDistributionShuffle_run fuel students r = Normal run →
  run_broke run = false ∧
  run_result run ≡ₚ students ∧
  Forall (λ p, emergency p.2 = false) (run_trace run) ∧
  length (run_trace run) =
    (if decide (length students ≤ 2)%nat then 0%nat else length students).
Proof.
  intros Hlevels Hrun.
  destruct (decide (length students ≤ 2)%nat) as [Hsmall|Hbig].
  { unfold fairDistributionShuffle_run in Hrun.
    rewrite decide_True in Hrun by done. by injection Hrun as <-. }
  destruct (run_trace_from fuel students r run) as
    (st0 & fin & Hst0 & Hinv0 & Hinvf & Hfin & Hres & Htr); [lia|done|].
  unfold fairDistributionShuffle_run in Hrun.
  rewrite decide_False in Hrun by done.
  destruct (shuffle_levels (group_by_level students) r) as [byLevel0 r1].
  simpl in Hst0. subst st0.
  destruct (pick_loop_complete _ _ _ _ _ _ Hinv0
              (proj1 (Forall_forall _ _) Hlevels) Hrun)
    as (Hbroke & Hem & Hcount).
  simpl in Hcount. split_and!; try done.
  destruct Hinvf as [_ Hperm].
  pose proof (Permutation_length Hperm) as Hlen.
  rewrite length_app in Hlen.
  pose proof (trace_from_result _ _ _ _ Htr) as Hfinres. simpl in Hfinres.
  assert (result fin = run_result run) as Heq by (by rewrite Hres, Hfinres).
  rewrite Heq in Hlen, Hperm. rewrite Hres, length_fmap in Hlen.
  assert (remaining (byLevel fin) = []) as Hrem
    by (apply nil_length_inv; lia).
  by rewrite Hrem, app_nil_r in Hperm.
Qed.

End RunFacts.

Lemma trace_from_lookup_result roomsPerLevel st tr fin j stj ev :
  trace_from roomsPerLevel st tr fin → tr !! j = Some (stj, ev) →
  length (result stj) = (length (result st) + j)%nat.
Proof.
  intros Htr. revert j. induction Htr as [st|st ev0 st' tr fin Hpick Htr IH];
    intros j Hj; [done|].
  destruct j as [|j]; simpl in *.
  - injection Hj as <- <-. lia.
  - rewrite (IH _ Hj), (picked_from_result _ _ _ _ Hpick), length_app.
    simpl. lia.
Qed.

(** ** Cooldown counters along a run *)

Lemma Map_get_decrease_others m key k :
  Map_get (decrease_others m key) k =
  (λ cd, if decide (k ≠ key) then Z.max (cd - 1) 0 else cd) <$> Map_get m k.
Proof.
  unfold decrease_others. induction m as [|[k0 v0] m IH]; simpl; [done|].
  destruct (decide (k0 ≠ key)) as [Hne|Heq]; simpl.
  - destruct (decide (k0 = k)) as [->|?]; simpl; [|done].
    by rewrite decide_True.
  - destruct (decide (k0 = k)) as [->|?]; simpl; [|done].
    by rewrite decide_False.
Qed.

(** The counter of a key after a commit that set [key] to [v]. *)
Lemma cooldown_of_commit m key v k :
  cooldown_of (decrease_others (Map_set m key v) key) k =
  if decide (k = key) then v else Z.max (cooldown_of m k - 1) 0.
Proof.
  unfold cooldown_of at 1. rewrite Map_get_decrease_others.
  destruct (decide (k = key)) as [->|Hne].
  - rewrite Map_get_set_eq. simpl. by rewrite decide_False by (by intros []).
  - rewrite Map_get_set_ne by done. unfold cooldown_of.
    destruct (Map_get m k); simpl; [by rewrite decide_True|done].
Qed.

Lemma Map_set_Forall {V : Type} (P : string * V → Prop) m k v :
  Forall P m → P (k, v) → Forall P (Map_set m k v).
Proof.
  intros Hall Hv. induction Hall as [|[k0 v0] m H0 Hall IH]; simpl.
  - by constructor.
  - destruct (decide (k0 = k)); by constructor.
Qed.

Lemma decrease_others_bounds m key bound :
  Forall (λ e, 0 ≤ e.2 ≤ bound) m →
  Forall (λ e, 0 ≤ e.2 ≤ bound) (decrease_others m key).
Proof.
  intros Hall. unfold decrease_others. apply Forall_fmap.
  eapply Forall_impl; [done|]. intros [k v] Hv. simpl in *.
  destruct (decide (k ≠ key)); simpl; lia.
Qed.

Lemma level_bounds_cooldown st lvl :
  level_bounds st → 0 ≤ cooldown_of (levelCooldown st) lvl ≤ LEVEL_COOLDOWN.
Proof.
  intros Hb. unfold cooldown_of.
  destruct (Map_get (levelCooldown st) lvl) as [cd|] eqn:Hg; [|done].
  apply Map_get_Some_elem in Hg. unfold level_bounds in Hb.
  rewrite Forall_forall in Hb. by apply (Hb (lvl, cd)).
Qed.

Lemma picked_from_level_bounds roomsPerLevel st ev st' :
  level_bounds st → picked_from roomsPerLevel st ev st' → level_bounds st'.
Proof.
  intros Hb (l & i & _ & _ & _ & -> & _). unfold level_bounds. simpl.
  apply decrease_others_bounds, Map_set_Forall; [done|]. simpl. done.
Qed.

Lemma picked_from_level_cooldown roomsPerLevel st ev st' lvl :
  picked_from roomsPerLevel st ev st' →
  cooldown_of (levelCooldown st') lvl =
  if decide (lvl = pick_level ev) then LEVEL_COOLDOWN
  else Z.max (cooldown_of (levelCooldown st) lvl - 1) 0.
Proof.
  intros (l & i & _ & _ & _ & -> & _). simpl. apply cooldown_of_commit.
Qed.

Lemma picked_from_student roomsPerLevel students st ev st' :
  loop_inv students st → picked_from roomsPerLevel st ev st' →
  pick_student ev ∈ students ∧
  level (pick_student ev) = pick_level ev ∧
  has_students (byLevel st) (pick_level ev).
Proof.
  intros [[Hnd Hb] Hperm] (l & i & Hg & Hi & _).
  apply Map_get_Some_elem in Hg. apply list_elem_of_lookup_2 in Hi.
  split_and!.
  - rewrite <-Hperm. apply elem_of_app. right. apply remaining_elem. eauto.
  - by apply (Hb _ l).
  - exists l. split; [done|]. intros ->. by apply elem_of_nil in Hi.
Qed.

(** A property of states kept by every pick holds all along a trace. *)
Lemma trace_from_Forall (P : State → Prop) roomsPerLevel students :
  (∀ st ev st', loop_inv students st → P st →
                picked_from roomsPerLevel st ev st' → P st') →
  ∀ st tr fin, loop_inv students st → P st →
               trace_from roomsPerLevel st tr fin →
               P fin ∧ Forall (λ p, P p.1) tr.
Proof.
  intros Hstep st tr fin Hinv HP Htr.
  induction Htr as [st|st ev st' tr fin Hpick Htr IH]; [by split|].
  destruct IH as [Hfin Hall]; [by eapply picked_from_inv | by eapply Hstep|].
  split; [done | by constructor].
Qed.

Lemma trace_from_lookup roomsPerLevel st tr fin j stj ev :
  trace_from roomsPerLevel st tr fin → tr !! j = Some (stj, ev) →
  ∃ st', picked_from roomsPerLevel stj ev st' ∧
         trace_from roomsPerLevel st' (drop (S j) tr) fin.
Proof.
  intros Htr Hj. pose proof (trace_from_drop _ _ _ _ _ _ _ Htr Hj) as Hdrop.
  rewrite (drop_S _ _ _ Hj) in Hdrop. inversion Hdrop; subst. eauto.
Qed.

(** A counter goes down by at most one per pick. *)
Lemma trace_from_level_cooldown_lower roomsPerLevel st tr fin j stj ev lvl :
  level_bounds st →
  trace_from roomsPerLevel st tr fin → tr !! j = Some (stj, ev) →
  cooldown_of (levelCooldown st) lvl - Z.of_nat j
  ≤ cooldown_of (levelCooldown stj) lvl.
Proof.
  intros Hb Htr. revert j.
  induction Htr as [st|st ev0 st' tr fin Hpick Htr IH]; intros j Hj; [done|].
  destruct j as [|j]; simpl in Hj.
  - injection Hj as <- <-. lia.
  - specialize (IH (picked_from_level_bounds _ _ _ _ Hb Hpick) _ Hj).
    rewrite (picked_from_level_cooldown _ _ _ _ lvl Hpick) in IH.
    pose proof (level_bounds_cooldown st lvl Hb). unfold LEVEL_COOLDOWN in *.
    destruct (decide (lvl = pick_level ev0)); lia.
Qed.

(** ** Rooms per level *)

Lemma Set_add_elem rooms x y : y ∈ Set_add rooms x ↔ y ∈ rooms ∨ y = x.
Proof.
  unfold Set_add. destruct (decide (x ∈ rooms)).
  - split; [by left|]. intros [?| ->]; done.
  - rewrite elem_of_app, list_elem_of_singleton. done.
Qed.

Lemma Set_add_NoDup rooms x : NoDup rooms → NoDup (Set_add rooms x).
Proof.
  intros Hnd. unfold Set_add. destruct (decide (x ∈ rooms)); [done|].
  apply NoDup_app. split_and!; [done| |apply NoDup_singleton].
  intros y Hy Hy'. by apply list_elem_of_singleton in Hy' as ->.
Qed.

Lemma foldl_Set_add_spec rooms xs :
  NoDup rooms →
  NoDup (foldl Set_add rooms xs) ∧
  ∀ y, y ∈ foldl Set_add rooms xs ↔ y ∈ rooms ∨ y ∈ xs.
Proof.
  revert rooms. induction xs as [|x xs IH]; intros rooms Hnd; simpl.
  - split; [done|]. intros y. rewrite elem_of_nil. tauto.
  - destruct (IH _ (Set_add_NoDup rooms x Hnd)) as [Hnd' Hin].
    split; [done|]. intros y. rewrite Hin, Set_add_elem, elem_of_cons.
    tauto.
Qed.

Lemma rooms_per_level_from roomsPerLevel students lvl :
  Map_get (foldl rooms_step roomsPerLevel students) lvl =
  match filter (λ s, level s = lvl) students with
  | [] => Map_get roomsPerLevel lvl
  | of_level =>
      Some (foldl Set_add (default [] (Map_get roomsPerLevel lvl))
              (room <$> of_level))
  end.
Proof.
  revert roomsPerLevel.
  induction students as [|s students IH]; intros m; simpl; [done|].
  rewrite IH. unfold rooms_step.
  destruct (decide (level s = lvl)) as [<-|Hne].
  - rewrite filter_cons_True by done. rewrite Map_get_set_eq. simpl.
    by destruct (filter _ students).
  - rewrite filter_cons_False by done. by rewrite Map_get_set_ne.
Qed.

(** [roomCount] is the number of distinct rooms of the level in the pool
    (1 for a level that does not occur). *)
Lemma roomCount_distinct students lvl :
  roomCount (rooms_per_level students) lvl =
  match filter (λ s, level s = lvl) students with
  | [] => 1
  | _ => Z.of_nat (length (distinct_rooms students lvl))
  end.
Proof.
  unfold roomCount, rooms_per_level, distinct_rooms.
  rewrite rooms_per_level_from.
  destruct (filter _ students) as [|s0 of_level] eqn:Hf; [done|].
  change (default [] (Map_get [] lvl)) with (@nil string).
  destruct (foldl_Set_add_spec [] (room <$> s0 :: of_level)) as [_ Hin];
    [constructor|].
  destruct (foldl Set_add [] (room <$> s0 :: of_level)) as [|x rooms] eqn:Hr.
  - assert (room s0 ∈ @nil string) as Hs0
      by (apply Hin; right; simpl; by left).
    by apply elem_of_nil in Hs0.
  - by rewrite decide_False.
Qed.

Lemma roomCount_occurring students lvl s :
  s ∈ students → level s = lvl →
  roomCount (rooms_per_level students) lvl =
  Z.of_nat (length (distinct_rooms students lvl)).
Proof.
  intros Hs Hl. rewrite roomCount_distinct.
  destruct (filter _ students) eqn:Hf; [|done].
  assert (s ∈ filter (λ s, level s = lvl) students) as Hin
    by (by apply list_elem_of_filter).
  rewrite Hf in Hin. by apply elem_of_nil in Hin.
Qed.

Lemma distinct_rooms_spec students lvl :
  NoDup (distinct_rooms students lvl) ∧
  ∀ rm, rm ∈ distinct_rooms students lvl ↔
        ∃ s, s ∈ students ∧ level s = lvl ∧ room s = rm.
Proof.
  unfold distinct_rooms.
  destruct (foldl_Set_add_spec [] (room <$> filter (λ s, level s = lvl) students))
    as [Hnd Hin]; [constructor|].
  split; [done|]. intros rm. rewrite Hin, elem_of_nil, list_elem_of_fmap.
  split.
  - intros [[]|(s & -> & Hs)]. apply list_elem_of_filter in Hs as [? ?]. eauto.
  - intros (s & Hs & Hl & <-). right. exists s. split; [done|].
    by apply list_elem_of_filter.
Qed.

(** ** Bounds of the room counters *)

Lemma Map_set_elem {V : Type} (m : list (string * V)) k v e :
  e ∈ Map_set m k v → e = (k, v) ∨ e ∈ m.
Proof.
  induction m as [|[k0 v0] m IH]; simpl.
  - intros Hin. apply list_elem_of_singleton in Hin. by left.
  - destruct (decide (k0 = k)); intros Hin;
      apply elem_of_cons in Hin as [->|Hin]; auto.
    + right. by right.
    + right. by left.
    + destruct (IH Hin); auto. right. by right.
Qed.

Lemma commit_inv roomsPerLevel st s lvl st' :
  commit roomsPerLevel st s lvl = Some st' →
  levelCooldown st' =
    decrease_others (Map_set (levelCooldown st) lvl LEVEL_COOLDOWN) lvl ∧
  roomCooldown st' =
    decrease_others
      (Map_set (roomCooldown st) (roomKey lvl (room s))
         (room_bound roomsPerLevel lvl))
      (roomKey lvl (room s)).
Proof.
  unfold commit. destruct (Map_get (byLevel st) lvl); [|done].
  by intros [= <-].
Qed.

(** The commit of a student of the pool keeps the bounds. *)
Lemma commit_bounds students st s st' :
  room_keys_unambiguous students → s ∈ students →
  level_bounds st → room_bounds students st →
  commit (rooms_per_level students) st s (level s) = Some st' →
  level_bounds st' ∧ room_bounds students st'.
Proof.
  intros Hkeys Hs Hlb Hrb Hc. apply commit_inv in Hc as [Hlc Hrc]. split.
  - unfold level_bounds. rewrite Hlc.
    apply decrease_others_bounds, Map_set_Forall; [done|]. simpl. done.
  - intros key v s' Hin Hs' Hkey. rewrite Hrc in Hin.
    unfold decrease_others in Hin.
    apply list_elem_of_fmap in Hin as ([k1 v1] & Heq & Hin). simpl in Heq.
    assert (0 ≤ v1 ≤ room_bound (rooms_per_level students) (level s')
            ∧ k1 = key) as [Hv1 ->].
    { assert (k1 = key) as -> by (destruct (decide (k1 ≠ _)); by simplify_eq).
      split; [|done].
      apply Map_set_elem in Hin as [Hnew|Hold]; [|by eapply Hrb].
      injection Hnew as Hk ->.
      unfold room_keys_unambiguous in Hkeys. rewrite Forall_forall in Hkeys.
      specialize (Hkeys _ Hs). rewrite Forall_forall in Hkeys.
      rewrite <-(Hkeys _ Hs') by congruence.
      unfold room_bound. lia. }
    destruct (decide (key ≠ _)); simplify_eq; lia.
Qed.

(** Levels without a hyphen, such as the grades 1 to 6 of the application,
    give unambiguous keys. *)
Lemma roomKey_level_inj lvl lvl' rm rm' :
  hyphen_free lvl → hyphen_free lvl' →
  roomKey lvl rm = roomKey lvl' rm' → lvl = lvl'.
Proof.
  unfold roomKey. revert lvl'.
  induction lvl as [|a lvl IH]; intros [|b lvl']; simpl; try done.
  - intros _ [Hb _] [= <-]. done.
  - intros [Ha _] _ [= ->]. done.
  - intros [_ Hl] [_ Hl'] [= -> Heq]. f_equal. by apply IH.
Qed.

Lemma hyphen_free_unambiguous students :
  Forall (λ s, hyphen_free (level s)) students →
  room_keys_unambiguous students.
Proof.
  intros Hfree. unfold room_keys_unambiguous. rewrite Forall_forall in Hfree.
  apply Forall_forall. intros s Hs. apply Forall_forall. intros s' Hs' Hkey.
  eapply roomKey_level_inj; eauto.
Qed.

(** ** Room counters in a pool of a single level *)

Lemma roomKey_inj lvl rm rm' : roomKey lvl rm = roomKey lvl rm' → rm = rm'.
Proof.
  unfold roomKey. intros Heq.
  apply (inj (String.app lvl)) in Heq. by apply (inj (String.app "-")) in Heq.
Qed.

Lemma picked_from_room_cooldown roomsPerLevel st ev st' key :
  picked_from roomsPerLevel st ev st' →
  cooldown_of (roomCooldown st') key =
  if decide (key = roomKey (pick_level ev) (room (pick_student ev)))
  then room_bound roomsPerLevel (pick_level ev)
  else Z.max (cooldown_of (roomCooldown st) key - 1) 0.
Proof.
  intros (l & i & _ & _ & _ & -> & _). simpl. apply cooldown_of_commit.
Qed.

Lemma room_cap_cooldown cap st key :
  0 ≤ cap → room_cap cap st → 0 ≤ cooldown_of (roomCooldown st) key ≤ cap.
Proof.
  intros Hcap Hb. unfold cooldown_of.
  destruct (Map_get (roomCooldown st) key) as [cd|] eqn:Hg; [|done].
  apply Map_get_Some_elem in Hg. unfold room_cap in Hb.
  rewrite Forall_forall in Hb. by apply (Hb (key, cd)).
Qed.

Section SingleLevel.
Variable students : list Student.
Variable lvl : string.
Variable roomsPerLevel : list (string * list string).
Hypothesis single : ∀ s, s ∈ students → level s = lvl.

Let cap : Z := room_bound roomsPerLevel lvl.

Lemma single_pick_level st ev st' :
  loop_inv students st → picked_from roomsPerLevel st ev st' →
  pick_level ev = lvl.
Proof.
  intros Hinv Hpick.
  destruct (picked_from_student _ _ _ _ _ Hinv Hpick) as (Hs & <- & _). auto.
Qed.

Lemma single_room_cap st ev st' :
  loop_inv students st → room_cap cap st →
  picked_from roomsPerLevel st ev st' → room_cap cap st'.
Proof.
  intros Hinv Hb Hpick. pose proof (single_pick_level _ _ _ Hinv Hpick) as Hl.
  destruct Hpick as (l & i & _ & _ & _ & -> & _). unfold room_cap. simpl.
  apply decrease_others_bounds, Map_set_Forall; [done|]. simpl.
  rewrite Hl. unfold cap, room_bound. lia.
Qed.

(** A room counter goes down by at most one per pick. *)
Lemma single_room_cooldown_lower st tr fin j stj ev key :
  loop_inv students st → room_cap cap st →
  trace_from roomsPerLevel st tr fin → tr !! j = Some (stj, ev) →
  cooldown_of (roomCooldown st) key - Z.of_nat j
  ≤ cooldown_of (roomCooldown stj) key.
Proof.
  intros Hinv Hb Htr. revert j.
  induction Htr as [st|st ev0 st' tr fin Hpick Htr IH]; intros j Hj; [done|].
  destruct j as [|j]; simpl in Hj.
  - injection Hj as <- <-. lia.
  - specialize (IH (picked_from_inv _ _ _ _ _ Hinv Hpick)
                   (single_room_cap _ _ _ Hinv Hb Hpick) _ Hj).
    rewrite (picked_from_room_cooldown _ _ _ _ key Hpick) in IH.
    rewrite (single_pick_level _ _ _ Hinv Hpick) in IH.
    assert (0 ≤ cap) as Hcap by (unfold cap, room_bound; lia).
    pose proof (room_cap_cooldown cap st key Hcap Hb). fold cap in IH.
    destruct (decide (key = _)); lia.
Qed.

(** A room counter above 0 was above 0 at the start or belongs to a room
    picked since. *)
Lemma single_room_cooldown_positive st tr fin j stj ev key :
  loop_inv students st →
  trace_from roomsPerLevel st tr fin → tr !! j = Some (stj, ev) →
  0 < cooldown_of (roomCooldown stj) key →
  0 < cooldown_of (roomCooldown st) key ∨
  ∃ i sti evi, (i < j)%nat ∧ tr !! i = Some (sti, evi) ∧
               key = roomKey lvl (room (pick_student evi)).
Proof.
  intros Hinv Htr. revert j.
  induction Htr as [st|st ev0 st' tr fin Hpick Htr IH]; intros j Hj Hpos;
    [done|].
  destruct j as [|j]; simpl in Hj.
  - injection Hj as <- <-. by left.
  - destruct (IH (picked_from_inv _ _ _ _ _ Hinv Hpick) _ Hj Hpos)
      as [Hpos'|(i & sti & evi & Hi & Hlook & Hkey)].
    + rewrite (picked_from_room_cooldown _ _ _ _ key Hpick) in Hpos'.
      rewrite (single_pick_level _ _ _ Hinv Hpick) in Hpos'.
      destruct (decide (key = _)) as [Hkey|Hkey]; [|left; lia].
      right. exists 0%nat, st, ev0. split_and!; [lia|done..].
    + right. exists (S i), sti, evi. split_and!; [lia|done..].
Qed.

End SingleLevel.

Lemma trace_from_take_result roomsPerLevel st tr fin j stj ev :
  trace_from roomsPerLevel st tr fin → tr !! j = Some (stj, ev) →
  result stj = result st ++ ((pick_student ∘ snd) <$> take j tr).
Proof.
  intros Htr. revert j. induction Htr as [st|st ev0 st' tr fin Hpick Htr IH];
    intros j Hj; [done|].
  destruct j as [|j]; simpl in *.
  - injection Hj as <- <-. by rewrite app_nil_r.
  - rewrite (IH _ Hj), (picked_from_result _ _ _ _ Hpick).
    by rewrite <-app_assoc.
Qed.

(** Some room of a duplicate-free list is not among fewer rooms. *)
Lemma room_not_among (rooms picked : list string) :
  NoDup rooms → (length picked < length rooms)%nat →
  ∃ rm, rm ∈ rooms ∧ rm ∉ picked.
Proof.
  intros Hnd Hlen.
  destruct (decide (Forall (λ rm, rm ∈ picked) rooms)) as [Hall|Hex].
  - rewrite Forall_forall in Hall.
    pose proof (submseteq_length _ _ (NoDup_submseteq _ _ Hnd Hall)). lia.
  - apply not_Forall_Exists in Hex; [|apply _].
    apply Exists_exists in Hex as (rm & Hin & Hnot). by exists rm.
Qed.

(** *** The heap run and the run on values agree *)

Lemma array_at_insert_eq h l v : array_at (<[l := v]> h) l = v.
Proof. unfold array_at. by rewrite lookup_insert_eq. Qed.

Lemma array_at_insert_ne h l l' v :
  l ≠ l' → array_at (<[l := v]> h) l' = array_at h l'.
Proof. intros Hne. unfold array_at. by rewrite lookup_insert_ne. Qed.

Lemma deref_cons h k l byLevel :
  deref h ((k, l) :: byLevel) = (k, array_at h l) :: deref h byLevel.
Proof. done. Qed.

Lemma Map_get_deref h byLevel lvl :
  Map_get (deref h byLevel) lvl = array_at h <$> Map_get byLevel lvl.
Proof.
  induction byLevel as [|[k l] byLevel IH]; [done|].
  rewrite deref_cons. simpl. by destruct (decide (k = lvl)).
Qed.

Lemma deref_insert_notin h byLevel l v :
  l ∉ byLevel.*2 → deref (<[l := v]> h) byLevel = deref h byLevel.
Proof.
  induction byLevel as [|[k l0] byLevel IH]; [done|].
  rewrite !deref_cons, fmap_cons. simpl.
  intros Hnotin. apply not_elem_of_cons in Hnotin as [Hne Hnotin].
  by rewrite array_at_insert_ne, IH.
Qed.

Lemma Map_get_Some_loc {V : Type} (m : list (string * V)) k v :
  Map_get m k = Some v → v ∈ m.*2.
Proof.
  intros Hg. apply Map_get_Some_elem in Hg.
  apply list_elem_of_fmap. by exists (k, v).
Qed.

Lemma deref_insert_bucket h byLevel lvl l v :
  NoDup byLevel.*2 → Map_get byLevel lvl = Some l →
  deref (<[l := v]> h) byLevel = Map_set (deref h byLevel) lvl v.
Proof.
  induction byLevel as [|[k l0] byLevel IH]; [done|].
  rewrite !deref_cons, fmap_cons. simpl.
  intros Hnd Hg. apply NoDup_cons in Hnd as [Hl0 Hnd].
  destruct (decide (k = lvl)) as [->|Hne].
  - injection Hg as ->. rewrite array_at_insert_eq. f_equal.
    by apply deref_insert_notin.
  - rewrite array_at_insert_ne.
    2:{ intros ->. apply Hl0. by eapply Map_get_Some_loc. }
    f_equal. by apply IH.
Qed.

Lemma Map_set_same {V : Type} (m : list (string * V)) k v :
  Map_get m k = Some v → Map_set m k v = m.
Proof.
  induction m as [|[k0 v0] m IH]; simpl; [done|].
  destruct (decide (k0 = k)) as [->|Hne]; [by intros [= ->]|].
  intros Hg. f_equal. auto.
Qed.

Lemma frame_dom h0 h l : frame h0 h → l ∈ dom h0 → l ∈ dom h.
Proof.
  intros Hf Hl. apply elem_of_dom. rewrite (Hf l Hl). by apply elem_of_dom.
Qed.

Lemma frame_insert h0 h l v : frame h0 h → l ∉ dom h0 → frame h0 (<[l := v]> h).
Proof.
  intros Hf Hl l' Hl'. rewrite lookup_insert_ne; [by apply Hf|].
  by intros ->.
Qed.

Lemma fresh_locs_insert h0 h locs l v :
  fresh_locs h0 h locs → fresh_locs h0 (<[l := v]> h) locs.
Proof.
  intros [Hnd Hlocs]. split; [done|]. intros l' Hl'.
  destruct (Hlocs l' Hl') as [? ?]. split; [done|].
  rewrite dom_insert_L. set_solver.
Qed.

Lemma array_at_Some h l : l ∈ dom h → h !! l = Some (array_at h l).
Proof.
  intros Hl. apply elem_of_dom in Hl as [v Hv]. unfold array_at.
  by rewrite Hv.
Qed.

Lemma group_step_heap_sim h0 acc s :
  frame h0 acc.2 → fresh_locs h0 acc.2 acc.1.*2 →
  frame h0 (group_step_heap acc s).2 ∧
  fresh_locs h0 (group_step_heap acc s).2 (group_step_heap acc s).1.*2 ∧
  deref (group_step_heap acc s).2 (group_step_heap acc s).1
  = group_step (deref acc.2 acc.1) s.
Proof.
  destruct acc as [byLevel h]. simpl. intros Hf [Hnd Hlocs].
  unfold group_step_heap, group_step. simpl. rewrite Map_get_deref.
  destruct (Map_get byLevel (level s)) as [l|] eqn:Hg; simpl.
  - pose proof (Map_get_Some_loc _ _ _ Hg) as Hl.
    destruct (Hlocs l Hl) as [Hl0 Hlh].
    rewrite (Map_set_same _ _ _ Hg). split_and!.
    + by apply frame_insert.
    + by apply fresh_locs_insert.
    + by apply deref_insert_bucket.
  - set (l := fresh (dom h)).
    assert (l ∉ dom h) as Hfresh by apply is_fresh.
    assert (l ∉ dom h0) as Hl0 by (intros ?; by eapply Hfresh, frame_dom).
    assert (l ∉ byLevel.*2) as Hnotin.
    { intros Hin. by destruct (Hlocs l Hin). }
    rewrite array_at_insert_eq. rewrite (Map_set_absent _ _ _ Hg).
    rewrite Map_set_absent by (by rewrite Map_get_deref, Hg).
    split_and!.
    + apply frame_insert; [apply frame_insert|]; done.
    + split.
      * rewrite fmap_app. simpl. apply NoDup_app. split_and!; [done| |].
        -- intros l' Hl' Hl''. apply list_elem_of_singleton in Hl'' as ->.
           done.
        -- apply NoDup_singleton.
      * intros l' Hl'. rewrite fmap_app in Hl'. simpl in Hl'.
        rewrite !dom_insert_L.
        apply elem_of_app in Hl' as [Hl'|Hl'].
        -- destruct (Hlocs l' Hl'). split; [done|set_solver].
        -- apply list_elem_of_singleton in Hl' as ->. split; [done|set_solver].
    + unfold deref. rewrite fmap_app. simpl. rewrite array_at_insert_eq.
      f_equal. fold (deref (<[l:=[s]]> (<[l:=[]]> h)) byLevel).
      by rewrite !deref_insert_notin.
Qed.

Lemma group_by_level_heap_from h0 acc students :
  frame h0 acc.2 → fresh_locs h0 acc.2 acc.1.*2 →
  frame h0 (foldl group_step_heap acc students).2 ∧
  fresh_locs h0 (foldl group_step_heap acc students).2
    (foldl group_step_heap acc students).1.*2 ∧
  deref (foldl group_step_heap acc students).2
    (foldl group_step_heap acc students).1
  = foldl group_step (deref acc.2 acc.1) students.
Proof.
  revert acc. induction students as [|s students IH]; intros acc Hf Hlocs.
  - done.
  - simpl. destruct (group_step_heap_sim h0 acc s Hf Hlocs) as (Hf' & Hl' & <-).
    by apply IH.
Qed.

Lemma group_by_level_heap_sim h students :
  let grouped := group_by_level_heap h students in
  frame h grouped.2 ∧ fresh_locs h grouped.2 grouped.1.*2 ∧
  deref grouped.2 grouped.1 = group_by_level students.
Proof.
  apply (group_by_level_heap_from h ([], h) students).
  - by intros l Hl.
  - split; [constructor|]. intros l Hl. by apply elem_of_nil in Hl.
Qed.

Section HeapFacts.
Context {E : JsEngine}.

Lemma shuffle_levels_heap_sim h0 byLevel h r :
  frame h0 h → fresh_locs h0 h byLevel.*2 →
  let out := shuffle_levels_heap byLevel h r in
  frame h0 out.1 ∧ fresh_locs h0 out.1 byLevel.*2 ∧
  deref out.1 byLevel = (shuffle_levels (deref h byLevel) r).1 ∧
  out.2 = (shuffle_levels (deref h byLevel) r).2 ∧
  (∀ l, l ∉ byLevel.*2 → out.1 !! l = h !! l) ∧
  (∀ l, l ∈ dom h → l ∈ dom out.1).
Proof.
  revert h r. induction byLevel as [|[k l] byLevel IH]; intros h r Hf Hlocs.
  - simpl. by split_and!.
  - rewrite deref_cons. simpl.
    destruct (sort_random (array_at h l) r) as [sorted r1] eqn:Hsort.
    destruct Hlocs as [Hnd Hlocs]. rewrite fmap_cons in Hnd, Hlocs.
    simpl in Hnd, Hlocs. apply NoDup_cons in Hnd as [Hl Hnd].
    destruct (Hlocs l) as [Hl0 Hlh]; [by left|].
    destruct (IH (<[l := sorted]> h) r1) as (Hf' & Hl' & Hd & Hr & Hsame & Hdom).
    { by apply frame_insert. }
    { apply fresh_locs_insert. split; [done|]. intros l' Hin. apply Hlocs.
      by right. }
    rewrite deref_insert_notin in Hd, Hr by done.
    destruct (shuffle_levels (deref h byLevel) r1) as [rest' r2] eqn:Hrest.
    simpl in *. split_and!.
    + done.
    + split; [by constructor|]. intros l' Hin.
      apply elem_of_cons in Hin as [->|Hin].
      * split; [done|]. apply Hdom. rewrite dom_insert_L. set_solver.
      * by apply Hl'.
    + rewrite deref_cons, Hd. f_equal. f_equal.
      unfold array_at. rewrite (Hsame l Hl). by rewrite lookup_insert_eq.
    + done.
    + intros l' Hnotin. apply not_elem_of_cons in Hnotin as [Hne Hnotin].
      rewrite (Hsame l' Hnotin). by rewrite lookup_insert_ne.
    + intros l' Hin. apply Hdom. rewrite dom_insert_L. set_solver.
Qed.

Lemma commit_heap_sim h0 roomsPerLevel hs h s lvl :
  heap_inv h0 hs h →
  match commit roomsPerLevel (view h hs) s lvl with
  | Some st' =>
      ∃ hs' h', commit_heap roomsPerLevel hs h s lvl = Some (hs', h') ∧
                view h' hs' = st' ∧ heap_inv h0 hs' h' ∧
                h_result hs' = h_result hs
  | None => commit_heap roomsPerLevel hs h s lvl = None
  end.
Proof.
  intros [Hf [Hnd Hlocs]]. unfold commit, commit_heap. simpl.
  rewrite Map_get_deref.
  destruct (Map_get (h_byLevel hs) lvl) as [l|] eqn:Hg; simpl; [|done].
  apply NoDup_cons in Hnd as [Hres Hnd].
  pose proof (Map_get_Some_loc _ _ _ Hg) as Hl.
  assert (h_result hs ≠ l) as Hne by (intros Heq; apply Hres; by rewrite Heq).
  destruct (Hlocs (h_result hs)) as [Hres0 _]; [by left|].
  destruct (Hlocs l) as [Hl0 _]; [by right|].
  rewrite array_at_insert_ne by done.
  eexists _, _. split; [done|]. split_and!.
  - unfold view. simpl. f_equal.
    + rewrite (deref_insert_bucket _ _ lvl l) by done.
      by rewrite deref_insert_notin.
    + rewrite array_at_insert_ne by done. by rewrite array_at_insert_eq.
  - split; simpl.
    + apply frame_insert; [apply frame_insert|]; done.
    + do 2 apply fresh_locs_insert. split; [by constructor | done].
  - done.
Qed.

Lemma pick_loop_heap_sim h0 students_loc students fuel roomsPerLevel hs h r :
  heap_inv h0 hs h → h0 !! students_loc = Some students →
  match pick_loop fuel (length students) roomsPerLevel (view h hs) r with
  | Normal run =>
      ∃ ret h',
        pick_loop_heap fuel students_loc roomsPerLevel hs h r
        = Normal (ret, h', run_rng run) ∧
        h' !! ret = Some (run_result run) ∧ frame h0 h' ∧ ret ∉ dom h0
  | Throw => pick_loop_heap fuel students_loc roomsPerLevel hs h r = Throw
  | OutOfFuel =>
      pick_loop_heap fuel students_loc roomsPerLevel hs h r = OutOfFuel
  end.
Proof.
  intros Hinv Hin. revert hs h r Hinv.
  assert (Hstop : ∀ hs h, heap_inv h0 hs h →
            h !! h_result hs = Some (array_at h (h_result hs)) ∧
            frame h0 h ∧ (h_result hs ∉ dom h0) ∧
            array_at h students_loc = students).
  { intros hs h [Hf [_ Hlocs]]. destruct (Hlocs (h_result hs)) as [? ?];
      [by left|].
    split_and!; [by apply array_at_Some|done..|].
    unfold array_at. rewrite Hf by (apply elem_of_dom; eauto). by rewrite Hin. }
  induction fuel as [|fuel IH]; intros hs h r Hinv;
    destruct (Hstop hs h Hinv) as (Hres & Hf & Hfresh & Hlen); simpl;
    rewrite Hlen.
  - destruct (decide (_ < _)%nat); [done|]. simpl. by eexists _, _.
  - destruct (decide (_ < _)%nat); [|simpl; by eexists _, _].
    unfold loop_body.
    destruct (select_pick (view h hs) r) as [[[ev|] r']|]; [| |done].
    + pose proof (commit_heap_sim h0 roomsPerLevel hs h (pick_student ev)
                    (pick_level ev) Hinv) as Hc.
      destruct (commit roomsPerLevel (view h hs) (pick_student ev)
                  (pick_level ev)) as [st'|]; [|by rewrite Hc].
      destruct Hc as (hs' & h' & -> & <- & Hinv' & _).
      specialize (IH hs' h' r' Hinv').
      destruct (pick_loop fuel (length students) roomsPerLevel (view h' hs') r')
        as [run| |]; [|done..].
      destruct IH as (ret & h'' & -> & ? & ? & ?). simpl. by eexists _, _.
    + simpl. by eexists _, _.
Qed.

(** The function on the heap computes what the function on values
    computes, leaves the heap it was given as it was, and returns its
    argument (at most two students) or an array of its own. *)
Lemma fairDistributionShuffle_heap_sim h students_loc students fuel r :
  h !! students_loc = Some students →
  match fairDistributionShuffle_run fuel students r with
  | Normal run =>
      ∃ ret h',
        fairDistributionShuffle_heap fuel h students_loc r
        = Normal (ret, h', run_rng run) ∧
        h' !! ret = Some (run_result run) ∧ frame h h' ∧
        (if decide (length students ≤ 2)%nat then ret = students_loc
         else ret ∉ dom h)
  | Throw => fairDistributionShuffle_heap fuel h students_loc r = Throw
  | OutOfFuel => fairDistributionShuffle_heap fuel h students_loc r = OutOfFuel
  end.
Proof.
  intros Hin. unfold fairDistributionShuffle_run, fairDistributionShuffle_heap.
  assert (array_at h students_loc = students) as Hread
    by (unfold array_at; by rewrite Hin).
  rewrite Hread.
  destruct (decide (length students ≤ 2)%nat).
  { eexists _, _. split_and!; [done..|by intros l' Hl'|done]. }
  destruct (group_by_level_heap_sim h students) as (Hf1 & Hl1 & Hd1).
  destruct (group_by_level_heap h students) as [byLevel1 h1]. simpl in *.
  assert (array_at h1 students_loc = students) as Hread1.
  { unfold array_at. rewrite Hf1 by (apply elem_of_dom; eauto).
    by rewrite Hin. }
  rewrite Hread1.
  destruct (shuffle_levels_heap_sim h byLevel1 h1 r Hf1 Hl1)
    as (Hf2 & Hl2 & Hd2 & Hr2 & _ & Hdom2).
  rewrite Hd1 in Hd2, Hr2.
  destruct (shuffle_levels_heap byLevel1 h1 r) as [h2 r1].
  destruct (shuffle_levels (group_by_level students) r) as [byLevel2 r1'].
  simpl in *. subst r1'.
  set (res := fresh (dom h2)).
  assert (res ∉ dom h2) as Hres by apply is_fresh.
  set (hs := {| h_byLevel := byLevel1; h_result := res;
                h_levelCooldown := []; h_roomCooldown := [] |}).
  assert (heap_inv h hs (<[res := []]> h2)) as Hinv.
  { split.
    - apply frame_insert; [done|]. intros ?. by eapply Hres, frame_dom.
    - simpl. destruct Hl2 as [Hnd Hlocs]. split.
      + constructor; [|done]. intros Hin'. by destruct (Hlocs res Hin').
      + intros l Hl. rewrite dom_insert_L.
        apply elem_of_cons in Hl as [->|Hl].
        * split; [|set_solver]. intros ?. by eapply Hres, frame_dom.
        * destruct (Hlocs l Hl). split; [done|set_solver]. }
  pose proof (pick_loop_heap_sim h students_loc students fuel
                (rooms_per_level students) hs _ r1 Hinv Hin) as Hsim.
  assert (view (<[res := []]> h2) hs = initial_state byLevel2) as Hview.
  { unfold view, initial_state. simpl. f_equal.
    - rewrite deref_insert_notin; [done|].
      intros Hin'. destruct Hl2 as [_ Hlocs]. by destruct (Hlocs res Hin').
    - by rewrite array_at_insert_eq. }
  rewrite Hview in Hsim.
  destruct (pick_loop fuel (length students) (rooms_per_level students)
              (initial_state byLevel2) r1) as [run| |]; [|done..].
  destruct Hsim as (ret & h' & -> & ? & ? & ?). by eexists _, _.
Qed.

End HeapFacts.

Section RunResult.
Context {E : JsEngine}.

(** What a run returns is taken from the pool, no entry more often than
    the pool has it. *)
Lemma run_result_submseteq fuel students r run :
  fairDistributionShuffle_run fuel students r = Normal run →
  run_result run ⊆+ students.
Proof.
  intros Hrun. destruct (decide (length students ≤ 2)%nat) as [Hsmall|Hbig].
  { unfold fairDistributionShuffle_run in Hrun.
    rewrite decide_True in Hrun by done. by injection Hrun as <-. }
  assert (2 < length students)%nat as Hlt by lia.
  destruct (run_trace_from _ _ _ _ Hlt Hrun)
    as (st0 & fin & -> & _ & [_ Hperm] & _ & Hres & Htr).
  pose proof (trace_from_result _ _ _ _ Htr) as Hfin. simpl in Hfin.
  rewrite <-Hres in Hfin. rewrite <-Hperm, Hfin.
  by apply submseteq_inserts_r.
Qed.

End RunResult.

(** ** More on the picks of a run *)

Lemma group_by_level_get_from byLevel students lvl :
  Map_get (foldl group_step byLevel students) lvl =
  match filter (λ s, level s = lvl) students with
  | [] => Map_get byLevel lvl
  | of_level => Some (default [] (Map_get byLevel lvl) ++ of_level)
  end.
Proof.
  revert byLevel.
  induction students as [|s students IH]; intros m; simpl; [done|].
  rewrite IH. unfold group_step.
  destruct (decide (level s = lvl)) as [<-|Hne].
  - rewrite filter_cons_True by done. rewrite Map_get_set_eq. simpl.
    destruct (filter _ students); [done|]. by rewrite <-app_assoc.
  - rewrite filter_cons_False by done. by rewrite Map_get_set_ne.
Qed.

(** A room counter goes down by at most one per pick, and a pick that sets
    it sets it to the bound of its level. *)
Lemma trace_from_room_cooldown_lower roomsPerLevel st tr fin j stj ev key cap :
  trace_from roomsPerLevel st tr fin → tr !! j = Some (stj, ev) →
  (∀ p stp evp, (p < j)%nat → tr !! p = Some (stp, evp) →
     roomKey (pick_level evp) (room (pick_student evp)) = key →
     cap ≤ room_bound roomsPerLevel (pick_level evp)) →
  Z.min (cooldown_of (roomCooldown st) key) cap - Z.of_nat j
  ≤ cooldown_of (roomCooldown stj) key.
Proof.
  intros Htr. revert j.
  induction Htr as [st|st ev0 st' tr fin Hpick Htr IH]; intros j Hj Hkeys;
    [done|].
  destruct j as [|j]; simpl in Hj.
  - injection Hj as <- <-. lia.
  - assert (Z.min (cooldown_of (roomCooldown st') key) cap - Z.of_nat j
            ≤ cooldown_of (roomCooldown stj) key) as Hlow.
    { apply IH; [done|]. intros p stp evp Hp Hlook.
      apply (Hkeys (S p) stp evp); [lia|done]. }
    rewrite (picked_from_room_cooldown _ _ _ _ key Hpick) in Hlow.
    destruct (decide (key = _)) as [Hkey|Hkey]; [|lia].
    pose proof (Hkeys 0%nat st ev0 ltac:(lia) eq_refl (eq_sym Hkey)). lia.
Qed.

Lemma trace_from_state_after roomsPerLevel st tr fin j stj ev :
  trace_from roomsPerLevel st tr fin → tr !! j = Some (stj, ev) →
  ∃ st', picked_from roomsPerLevel stj ev st' ∧
         trace_from roomsPerLevel st' (drop (S j) tr) fin ∧
         match tr !! S j with
         | Some (s, _) => s
         | None => fin
         end = st'.
Proof.
  intros Htr Hj.
  destruct (trace_from_lookup _ _ _ _ _ _ _ Htr Hj) as (st' & Hpick & Htr').
  exists st'. split_and!; [done..|].
  destruct (tr !! S j) as [[s e]|] eqn:Hnext.
  - rewrite (drop_S _ _ _ Hnext) in Htr'. by inversion Htr'.
  - apply lookup_ge_None in Hnext. rewrite drop_ge in Htr' by done.
    by inversion Htr'.
Qed.

(** In a pool of at most two students of one level, returned as it is,
    the first students, as many as the level has rooms, are in distinct
    rooms. *)
Lemma small_pool_rooms students lvl i j si sj :
  (length students ≤ 2)%nat → Forall (λ s, level s = lvl) students →
  (i < j)%nat → (j < length (distinct_rooms students lvl))%nat →
  students !! i = Some si → students !! j = Some sj → room si ≠ room sj.
Proof.
  intros Hlen Hsingle Hij Hjk Hi Hj Hroom.
  destruct students as [|s0 [|s1 [|s2 rest]]]; simpl in Hlen; try lia.
  - done.
  - destruct j; [lia|done].
  - apply Forall_cons in Hsingle as [H0 Hsingle].
    apply Forall_cons in Hsingle as [H1 _].
    assert (i = 0 ∧ j = 1)%nat as [-> ->].
    { apply lookup_lt_Some in Hj. simpl in Hj. lia. }
    simpl in Hi, Hj. injection Hi as <-. injection Hj as <-.
    unfold distinct_rooms in Hjk.
    rewrite !filter_cons_True in Hjk by done. rewrite filter_nil in Hjk.
    cbn [fmap list_fmap foldl] in Hjk.
    unfold Set_add in Hjk at 2.
    rewrite decide_False in Hjk by (apply not_elem_of_nil).
    unfold Set_add in Hjk. rewrite decide_True in Hjk; [simpl in Hjk; lia|].
    rewrite Hroom. simpl. by left.
Qed.



Section PickFacts.
Context {E : JsEngine}.



End PickFacts.

Lemma two_levels_pool_nonempty : levels_nonempty two_levels_pool.
Proof. repeat constructor; done. Qed.

Lemma two_levels_pool_unambiguous : room_keys_unambiguous two_levels_pool.
Proof.
  repeat constructor; intros Hkey;
    (reflexivity || (vm_compute in Hkey; discriminate)).
Qed.

(** ** The claims *)

Section Claims.
Context {E : JsEngine}.

(** X22: for every pool whose entries all have a non-empty
    level, and for every behaviour of the random source and of the
    engine's sort, [fairDistributionShuffle] returns normally a
    permutation of the pool: the same entries, each as often as in the
    input, and so the same length. *)
Theorem shuffle_permutation students r :
  levels_nonempty students →
  ∃ out, fairDistributionShuffle students r = Normal out ∧
         out ≡ₚ students ∧ length out = length students.
Proof.
  intros Hlevels.
  destruct (run_terminates (length students) students r) as (run & Hrun & _);
    [done|].
  destruct (run_complete _ _ _ _ Hlevels Hrun) as (_ & Hperm & _).
  exists (run_result run). unfold fairDistributionShuffle. rewrite Hrun.
  split_and!; [done..|by apply Permutation_length].
Qed.

(** C2: a pool of at most two students (the empty pool, one student, two
    students) is returned as it is, in input order; the loop is not
    entered, no pick is made and the random source is not consulted.  On
    the heap the function returns the location it was given and leaves the
    heap as it is. *)
Theorem shuffle_trivial students r :
  (length students ≤ 2)%nat →
  fairDistributionShuffle students r = Normal students ∧
  (∀ fuel, fairDistributionShuffle_run fuel students r =
           Normal {| run_result := students; run_rng := r; run_trace := [];
                     run_final := None; run_broke := false |}) ∧
  (∀ fuel h students_loc,
     h !! students_loc = Some students →
     fairDistributionShuffle_heap fuel h students_loc r
     = Normal (students_loc, h, r)).
Proof.
  intros Hlen. unfold fairDistributionShuffle, fairDistributionShuffle_run.
  split_and!; [|intros fuel|]; try by rewrite decide_True.
  intros fuel h students_loc Hin. unfold fairDistributionShuffle_heap.
  assert (array_at h students_loc = students) as ->
    by (unfold array_at; by rewrite Hin).
  by rewrite decide_True.
Qed.

(** X23: on every pool whose entries all have a non-empty level,
    every pick takes a student of the level chosen, and the level chosen
    either has a cooldown counter <= 0 or has the lowest counter among the
    levels that still have students.  When the level picked at position
    [j] was also picked at one of the [LEVEL_COOLDOWN] = 5 positions before
    it, the pick was forced: every level that still had students had a
    counter above 0 and the level chosen had the lowest. *)
Theorem level_cooldown_spacing students r :
  levels_nonempty students →
  ∃ run,
    fairDistributionShuffle_run (length students) students r = Normal run ∧
    ((2 < length students)%nat →
     run_result run = (pick_student ∘ snd) <$> run_trace run) ∧
    ∀ j stj evj, run_trace run !! j = Some (stj, evj) →
      let cd := cooldown_of (levelCooldown stj) in
      level (pick_student evj) = pick_level evj ∧
      has_students (byLevel stj) (pick_level evj) ∧
      (cd (pick_level evj) ≤ 0 ∨
       ∀ lvl, has_students (byLevel stj) lvl → cd (pick_level evj) ≤ cd lvl) ∧
      ∀ i sti evi,
        run_trace run !! i = Some (sti, evi) →
        (i < j)%nat → Z.of_nat j ≤ Z.of_nat i + LEVEL_COOLDOWN →
        pick_level evi = pick_level evj →
        ∀ lvl, has_students (byLevel stj) lvl →
               0 < cd lvl ∧ cd (pick_level evj) ≤ cd lvl.
Proof.
  intros Hlevels.
  destruct (run_terminates (length students) students r) as (run & Hrun & _);
    [done|].
  exists run. split; [done|].
  destruct (decide (length students ≤ 2)%nat) as [Hsmall|Hbig].
  { split; [lia|]. unfold fairDistributionShuffle_run in Hrun.
    rewrite decide_True in Hrun by done. by injection Hrun as <-. }
  assert (2 < length students)%nat as Hlt by lia.
  destruct (run_trace_from _ _ _ _ Hlt Hrun)
    as (st0 & fin & Hst0 & Hinv0 & _ & _ & Hres & Htr).
  split; [done|].
  destruct (run_complete _ _ _ _ Hlevels Hrun) as (_ & _ & Hem & _).
  assert (level_bounds st0) as Hb0 by (subst st0; constructor).
  destruct (trace_from_inv _ _ _ _ _ Hinv0 Htr) as [_ Hinvs].
  destruct (trace_from_Forall level_bounds _ students
              (λ st ev st' _ Hb Hp, picked_from_level_bounds _ st ev st' Hb Hp)
              _ _ _ Hinv0 Hb0 Htr) as [_ Hbs].
  rewrite Forall_forall in Hem, Hinvs, Hbs.
  intros j stj evj Hj cd.
  pose proof (list_elem_of_lookup_2 _ _ _ Hj) as Hin.
  specialize (Hem _ Hin). specialize (Hinvs _ Hin). simpl in Hem, Hinvs.
  destruct (trace_from_lookup _ _ _ _ _ _ _ Htr Hj) as (stj' & Hpick & _).
  destruct (picked_from_student _ _ _ _ _ Hinvs Hpick) as (_ & Hlvl & Hhas).
  destruct Hpick as (l & idx & _ & _ & _ & _ & Hchoice).
  destruct (Hchoice Hem) as [Hlevel _]. unfold level_choice in Hlevel.
  split_and!; [done..| |].
  - destruct (level_forced evj); [right|by left].
    intros lvl Hl. by apply Hlevel.
  - intros i sti evi Hi Hij Hwin Hsame lvl Hl.
    destruct (trace_from_lookup _ _ _ _ _ _ _ Htr Hi) as (sti' & Hpicki & Htri).
    assert (drop (S i) (run_trace run) !! (j - S i)%nat = Some (stj, evj))
      as Hj'.
    { rewrite lookup_drop. rewrite <-Hj. f_equal. lia. }
    assert (level_bounds sti') as Hbi.
    { eapply picked_from_level_bounds; [|done].
      apply (Hbs (sti, evi)). by eapply list_elem_of_lookup_2. }
    pose proof (trace_from_level_cooldown_lower _ _ _ _ _ _ _
                  (pick_level evj) Hbi Htri Hj') as Hlow.
    rewrite (picked_from_level_cooldown _ _ _ _ _ Hpicki) in Hlow.
    rewrite decide_True in Hlow by done. unfold LEVEL_COOLDOWN in *.
    destruct (level_forced evj); [by apply Hlevel|].
    fold cd in Hlevel. unfold cd in *. lia.
Qed.

(** In a pool whose entries all belong to one level with [k] distinct
    rooms, the first [k] picks are from [k] distinct rooms. *)
Lemma single_level_round_robin students r lvl :
  lvl ≠ "" → (2 < length students)%nat →
  Forall (λ s, level s = lvl) students →
  let k := length (distinct_rooms students lvl) in
  ∃ run,
    fairDistributionShuffle_run (length students) students r = Normal run ∧
    run_result run = (pick_student ∘ snd) <$> run_trace run ∧
    run_result run ≡ₚ students ∧
    roomCount (rooms_per_level students) lvl = Z.of_nat k ∧
    (∀ j stj evj stj' evj',
       run_trace run !! j = Some (stj, evj) →
       run_trace run !! S j = Some (stj', evj') →
       cooldown_of (roomCooldown stj') (roomKey lvl (room (pick_student evj)))
       = Z.max (Z.of_nat k - 1) 0) ∧
    (∀ i j si sj,
       (i < j)%nat → (j < k)%nat →
       run_result run !! i = Some si → run_result run !! j = Some sj →
       room si ≠ room sj).
Proof.
  intros Hlvl Hlen Hsingle k. rewrite Forall_forall in Hsingle.
  assert (levels_nonempty students) as Hlevels.
  { apply Forall_forall. intros s Hs. by rewrite (Hsingle s Hs). }
  destruct (run_terminates (length students) students r) as (run & Hrun & _);
    [done|].
  destruct (run_trace_from _ _ _ _ Hlen Hrun)
    as (st0 & fin & Hst0 & Hinv0 & _ & _ & Hres & Htr).
  destruct (run_complete _ _ _ _ Hlevels Hrun) as (_ & Hperm & Hem & _).
  destruct (trace_from_inv _ _ _ _ _ Hinv0 Htr) as [_ Hinvs].
  rewrite Forall_forall in Hem, Hinvs.
  assert (roomCount (rooms_per_level students) lvl = Z.of_nat k) as Hcount.
  { destruct students as [|s0 rest] eqn:Hst; [simpl in Hlen; lia|].
    apply (roomCount_occurring _ lvl s0); [by left|].
    apply Hsingle. by left. }
  set (cap := room_bound (rooms_per_level students) lvl).
  assert (cap = Z.max (Z.of_nat k - 1) 0) as Hcapk
    by (unfold cap, room_bound; by rewrite Hcount).
  assert (room_cap cap st0) as Hcap0 by (subst st0; constructor).
  destruct (trace_from_Forall (room_cap cap) _ students
              (λ st ev st' Hinv Hb Hp,
                 single_room_cap students lvl _ Hsingle st ev st' Hinv Hb Hp)
              _ _ _ Hinv0 Hcap0 Htr) as [_ Hcaps].
  rewrite Forall_forall in Hcaps.
  exists run. split_and!; try done.
  - intros j stj evj stj' evj' Hj Hj'.
    destruct (trace_from_lookup _ _ _ _ _ _ _ Htr Hj) as (st' & Hpick & Htr').
    rewrite (drop_S _ _ _ Hj') in Htr'. inversion Htr'; subst.
    rewrite (picked_from_room_cooldown _ _ _ _ _ Hpick).
    rewrite (single_pick_level students lvl _ Hsingle _ _ _
               (Hinvs _ (list_elem_of_lookup_2 _ _ _ Hj)) Hpick).
    by rewrite decide_True.
  - intros i j si sj Hij Hjk Hi Hj Hroom.
    rewrite Hres, list_lookup_fmap in Hi, Hj.
    destruct (run_trace run !! i) as [[sti evi]|] eqn:Hti; [|done].
    destruct (run_trace run !! j) as [[stj evj]|] eqn:Htj; [|done].
    simpl in Hi, Hj. injection Hi as <-. injection Hj as <-.
    pose proof (Hinvs _ (list_elem_of_lookup_2 _ _ _ Hti)) as Hinvi.
    pose proof (Hinvs _ (list_elem_of_lookup_2 _ _ _ Htj)) as Hinvj.
    pose proof (Hcaps _ (list_elem_of_lookup_2 _ _ _ Hti)) as Hcapi.
    simpl in Hinvi, Hinvj, Hcapi.
    (* the counter of the room picked at [i] is still above 0 at [j] *)
    destruct (trace_from_lookup _ _ _ _ _ _ _ Htr Hti)
      as (sti' & Hpicki & Htri).
    assert (drop (S i) (run_trace run) !! (j - S i)%nat = Some (stj, evj))
      as Hj'.
    { rewrite lookup_drop. rewrite <-Htj. f_equal. lia. }
    pose proof (single_pick_level students lvl _ Hsingle _ _ _ Hinvi Hpicki)
      as Hli.
    pose proof (single_room_cooldown_lower students lvl _ Hsingle
                  _ _ _ _ _ _ (roomKey lvl (room (pick_student evi)))
                  (picked_from_inv _ _ _ _ _ Hinvi Hpicki)
                  (single_room_cap students lvl _ Hsingle _ _ _
                     Hinvi Hcapi Hpicki)
                  Htri Hj') as Hlow.
    rewrite (picked_from_room_cooldown _ _ _ _ _ Hpicki), Hli in Hlow.
    rewrite decide_True in Hlow by done. fold cap in Hlow.
    assert (0 < cooldown_of (roomCooldown stj)
                  (roomKey lvl (room (pick_student evj)))) as Hpos.
    { rewrite <-Hroom. lia. }
    (* so the pick at [j] was forced: no student left is off cooldown *)
    destruct (trace_from_lookup _ _ _ _ _ _ _ Htr Htj)
      as (stj' & Hpickj & _).
    pose proof (single_pick_level students lvl _ Hsingle _ _ _ Hinvj Hpickj)
      as Hlj.
    destruct Hpickj as (l & idx & Hg & _ & _ & _ & Hchoice).
    destruct (Hchoice (Hem _ (list_elem_of_lookup_2 _ _ _ Htj)))
      as [_ Hrc].
    rewrite Hlj in Hg, Hrc. unfold room_choice, room_cooldown_of in Hrc.
    destruct (room_forced evj); [|lia].
    (* but a room not picked so far has a student left, off cooldown *)
    set (picked := (room ∘ pick_student ∘ snd) <$> take j (run_trace run)).
    destruct (distinct_rooms_spec students lvl) as [Hnd Hrooms].
    destruct (room_not_among (distinct_rooms students lvl) picked Hnd)
      as (rm & Hrm & Hfresh).
    { unfold picked. rewrite length_fmap, length_take. fold k. lia. }
    apply Hrooms in Hrm as (s' & Hs' & _ & Hrm').
    assert (s' ∈ l) as Hs'l.
    { destruct Hinvj as [[Hndk Hb] Hpermj].
      rewrite <-Hpermj in Hs'. apply elem_of_app in Hs' as [Hs'|Hs'].
      - exfalso. apply Hfresh.
        rewrite (trace_from_take_result _ _ _ _ _ _ _ Htr Htj) in Hs'.
        subst st0. simpl in Hs'.
        apply list_elem_of_fmap in Hs' as (p & -> & Hp).
        unfold picked. apply list_elem_of_fmap. exists p. by split.
      - apply remaining_elem in Hs' as (lvl' & l' & Hin' & Hs'l').
        pose proof (Hb _ _ _ Hin' Hs'l') as Hl'.
        rewrite (Hsingle s') in Hl'.
        2:{ rewrite <-Hpermj. apply elem_of_app. right.
            apply remaining_elem. eauto. }
        subst lvl'. apply Map_elem_get in Hin'; [|done]. congruence. }
    destruct (Hrc s' Hs'l) as [Hpos' _]. rewrite Hrm' in Hpos'.
    destruct (single_room_cooldown_positive students lvl _ Hsingle
                _ _ _ _ _ _ _ Hinv0 Htr Htj Hpos')
      as [Hinit|(i' & stp & evp & Hi' & Hlook & Hkey)].
    + subst st0. simpl in Hinit. unfold cooldown_of in Hinit. simpl in Hinit.
      lia.
    + apply roomKey_inj in Hkey. apply Hfresh. unfold picked.
      apply list_elem_of_fmap. exists (stp, evp). split; [done|].
      apply list_elem_of_lookup. exists i'. by rewrite lookup_take_lt.
Qed.

(** C4 (amended): a room just picked from a level with [k] distinct rooms
    in the input gets the counter max(k - 1, 0), and every later pick,
    from whichever level it is taken, takes 1 off the counters of the
    other keys, down to 0.  A room on cooldown is picked only by the room
    fallback, when every student left in the level is in a room on
    cooldown, or by the emergency branch.  So a pick that is not forced
    does not take the room of a pick from the same level made fewer than
    [k] picks of the draw earlier, unless a pick in between, from another
    level, had the same [`${level}-${room}`] key.  In a pool of one level
    (three rooms A, B, C for instance) the first [k] picks are from [k]
    distinct rooms. *)
Theorem room_round_robin students r :
  ∃ run,
    fairDistributionShuffle_run (length students) students r = Normal run ∧
    (∀ j stj evj st',
       run_trace run !! j = Some (stj, evj) → state_after run j = Some st' →
       let key := roomKey (pick_level evj) (room (pick_student evj)) in
       let k := length (distinct_rooms students (pick_level evj)) in
       cooldown_of (roomCooldown st') key = Z.max (Z.of_nat k - 1) 0 ∧
       ∀ key', key' ≠ key →
         cooldown_of (roomCooldown st') key'
         = Z.max (cooldown_of (roomCooldown stj) key' - 1) 0) ∧
    (∀ j stj evj l,
       run_trace run !! j = Some (stj, evj) → emergency evj = false →
       Map_get (byLevel stj) (pick_level evj) = Some l →
       room_choice (roomCooldown stj) (pick_level evj) l (pick_student evj)
         (room_forced evj)) ∧
    (∀ i j sti evi stj evj,
       run_trace run !! i = Some (sti, evi) →
       run_trace run !! j = Some (stj, evj) →
       (i < j)%nat →
       (j < i + length (distinct_rooms students (pick_level evi)))%nat →
       pick_level evj = pick_level evi →
       (∀ p stp evp,
          (i < p < j)%nat → run_trace run !! p = Some (stp, evp) →
          roomKey (pick_level evp) (room (pick_student evp))
          = roomKey (pick_level evi) (room (pick_student evi)) →
          pick_level evp = pick_level evi) →
       emergency evj = false → room_forced evj = false →
       room (pick_student evj) ≠ room (pick_student evi)) ∧
    (∀ lvl, lvl ≠ "" → Forall (λ s, level s = lvl) students →
       ∀ i j si sj,
         (i < j)%nat → (j < length (distinct_rooms students lvl))%nat →
         run_result run !! i = Some si → run_result run !! j = Some sj →
         room si ≠ room sj).
Proof.
  destruct (run_terminates (length students) students r) as (run & Hrun & _);
    [done|].
  exists run. split; [done|].
  destruct (decide (length students ≤ 2)%nat) as [Hsmall|Hbig].
  { pose proof Hrun as Hrun'. unfold fairDistributionShuffle_run in Hrun'.
    rewrite decide_True in Hrun' by done. injection Hrun' as <-. simpl.
    split_and!; try done.
    intros lvl _ Hsingle i j si sj. by apply small_pool_rooms. }
  assert (2 < length students)%nat as Hlen by lia.
  destruct (run_trace_from _ _ _ _ Hlen Hrun)
    as (st0 & fin & Hst0 & Hinv0 & _ & Hfin & Hres & Htr).
  destruct (trace_from_inv _ _ _ _ _ Hinv0 Htr) as [_ Hinvs].
  rewrite Forall_forall in Hinvs.
  assert (Hk : ∀ j stj evj, run_trace run !! j = Some (stj, evj) →
            room_bound (rooms_per_level students) (pick_level evj)
            = Z.max (Z.of_nat (length (distinct_rooms students (pick_level evj)))
                     - 1) 0).
  { intros j stj evj Hj.
    destruct (trace_from_lookup _ _ _ _ _ _ _ Htr Hj) as (st' & Hpick & _).
    destruct (picked_from_student _ _ _ _ _
                (Hinvs _ (list_elem_of_lookup_2 _ _ _ Hj)) Hpick)
      as (Hs & Hl & _).
    unfold room_bound. by rewrite (roomCount_occurring _ _ _ Hs Hl). }
  split_and!.
  - intros j stj evj st' Hj Hafter key k.
    destruct (trace_from_state_after _ _ _ _ _ _ _ Htr Hj)
      as (st1 & Hpick & _ & Hnext).
    assert (st' = st1) as ->.
    { unfold state_after in Hafter. rewrite Hfin in Hafter.
      destruct (run_trace run !! S j) as [[s e]|]; by simplify_eq. }
    split.
    + rewrite (picked_from_room_cooldown _ _ _ _ _ Hpick).
      rewrite decide_True by done. by eapply Hk.
    + intros key' Hne.
      rewrite (picked_from_room_cooldown _ _ _ _ _ Hpick).
      by rewrite decide_False.
  - intros j stj evj l Hj Hem Hg.
    destruct (trace_from_lookup _ _ _ _ _ _ _ Htr Hj) as (st' & Hpick & _).
    destruct Hpick as (l' & idx & Hg' & _ & _ & _ & Hchoice).
    rewrite Hg in Hg'. injection Hg' as <-. by apply Hchoice.
  - intros i j sti evi stj evj Hi Hj Hij Hwin Hsame Hkeys Hem Hrf Hroom.
    destruct (trace_from_lookup _ _ _ _ _ _ _ Htr Hi) as (sti' & Hpicki & Htri).
    assert (drop (S i) (run_trace run) !! (j - S i)%nat = Some (stj, evj))
      as Hj'.
    { rewrite lookup_drop. rewrite <-Hj. f_equal. lia. }
    set (key := roomKey (pick_level evi) (room (pick_student evi))).
    pose proof (trace_from_room_cooldown_lower _ _ _ _ _ _ _ key
                  (room_bound (rooms_per_level students) (pick_level evi))
                  Htri Hj') as Hlow.
    rewrite (picked_from_room_cooldown _ _ _ _ _ Hpicki) in Hlow.
    rewrite decide_True in Hlow by done.
    rewrite (Hk _ _ _ Hi) in Hlow.
    assert (0 < cooldown_of (roomCooldown stj) key) as Hpos.
    { assert (Z.min (Z.max (Z.of_nat (length (distinct_rooms students
                                                (pick_level evi))) - 1) 0)
                    (Z.max (Z.of_nat (length (distinct_rooms students
                                                (pick_level evi))) - 1) 0)
              - Z.of_nat (j - S i)
              ≤ cooldown_of (roomCooldown stj) key) as Hlow'; [|lia].
      apply Hlow. intros p stp evp Hp Hlook Hkey.
      rewrite lookup_drop in Hlook.
      rewrite (Hkeys (S i + p)%nat stp evp); [|lia|done|done].
      rewrite (Hk _ _ _ Hi). lia. }
    destruct (trace_from_lookup _ _ _ _ _ _ _ Htr Hj) as (stj' & Hpickj & _).
    destruct Hpickj as (l & idx & _ & _ & _ & _ & Hchoice).
    destruct (Hchoice Hem) as [_ Hrc]. rewrite Hrf in Hrc.
    unfold room_choice, room_cooldown_of in Hrc.
    rewrite Hsame, Hroom in Hrc. fold key in Hrc. lia.
  - intros lvl Hlvl Hsingle.
    destruct (single_level_round_robin students r lvl Hlvl Hlen Hsingle)
      as (run' & Hrun' & _ & _ & _ & _ & Hdistinct).
    rewrite Hrun in Hrun'. injection Hrun' as <-. exact Hdistinct.
Qed.

(** X24: on every pool whose entries all have a non-empty level
    the emergency fallback is never executed: every iteration of the loop
    commits a pick that the candidate-level phase selected, and no
    iteration ends the loop by [break]. *)
Theorem emergency_unreachable students r :
  levels_nonempty students →
  ∃ run, fairDistributionShuffle_run (length students) students r = Normal run ∧
         run_broke run = false ∧
         Forall (λ p, emergency p.2 = false) (run_trace run) ∧
         length (run_trace run) =
           (if decide (length students ≤ 2)%nat then 0%nat
            else length students).
Proof.
  intros Hlevels.
  destruct (run_terminates (length students) students r) as (run & Hrun & _);
    [done|].
  destruct (run_complete _ _ _ _ Hlevels Hrun) as (? & _ & ? & ?).
  by exists run.
Qed.

(** X25: [fairDistributionShuffle] always terminates without
    throwing; the loop runs at most |pool| iterations, any number of
    iterations allowed beyond |pool| gives the same run, and the pick
    made in iteration [j] finds |pool| - j students in the buckets, so
    every pick removes exactly one.  When all levels are non-empty the
    loop ends by its condition after exactly |pool| picks (no pick when
    |pool| <= 2). *)
Theorem shuffle_terminates students r :
  ∃ run,
    fairDistributionShuffle_run (length students) students r = Normal run ∧
    fairDistributionShuffle students r = Normal (run_result run) ∧
    (∀ fuel, (length students ≤ fuel)%nat →
             fairDistributionShuffle_run fuel students r = Normal run) ∧
    (length (run_trace run) + (if run_broke run then 1 else 0)
     ≤ length students)%nat ∧
    (∀ j st ev, run_trace run !! j = Some (st, ev) →
       (length (remaining (byLevel st)) + j)%nat = length students) ∧
    ((length students ≤ 2)%nat →
     run_trace run = [] ∧ run_broke run = false) ∧
    (levels_nonempty students →
     run_broke run = false ∧
     length (run_trace run) =
       (if decide (length students ≤ 2)%nat then 0%nat
        else length students)).
Proof.
  destruct (run_terminates (length students) students r)
    as (run & Hrun & Hcount); [done|].
  exists run. split_and!; try done.
  - unfold fairDistributionShuffle. by rewrite Hrun.
  - intros fuel Hfuel. by eapply run_fuel_mono.
  - intros j st ev Hj.
    destruct (decide (length students ≤ 2)%nat) as [Hsmall|Hbig].
    { unfold fairDistributionShuffle_run in Hrun.
      rewrite decide_True in Hrun by done. by injection Hrun as <-. }
    assert (2 < length students)%nat as Hlt by lia.
    destruct (run_trace_from _ _ _ _ Hlt Hrun)
      as (st0 & fin & -> & Hinv0 & _ & _ & _ & Htr).
    pose proof (trace_from_lookup_result _ _ _ _ _ _ _ Htr Hj) as Hlen.
    destruct (trace_from_inv _ _ _ _ _ Hinv0 Htr) as [_ Hall].
    rewrite Forall_forall in Hall.
    destruct (Hall (st, ev)) as [_ Hperm];
      [by eapply list_elem_of_lookup_2|].
    apply Permutation_length in Hperm. rewrite length_app in Hperm.
    simpl in *. lia.
  - intros Hsmall. unfold fairDistributionShuffle_run in Hrun.
    rewrite decide_True in Hrun by done. by injection Hrun as <-.
  - intros Hlevels.
    by destruct (run_complete _ _ _ _ Hlevels Hrun) as (? & _ & _ & ?).
Qed.

(** C8: [fairDistributionShuffle] does not change its input.  Called with
    the location of an array in any heap, it returns normally; the input
    array and every other array of that heap are afterwards what they were
    (length, contents, order); the array returned holds records of the
    input, none more often than the input has it, and is what the function
    on values computes.  Records are values here: the function has no
    assignment to a field of a student. *)
Theorem input_not_mutated h students_loc students r :
  h !! students_loc = Some students →
  ∃ ret h' r' out,
    fairDistributionShuffle_heap (length students) h students_loc r
    = Normal (ret, h', r') ∧
    h' !! students_loc = Some students ∧
    (∀ l, l ∈ dom h → h' !! l = h !! l) ∧
    h' !! ret = Some out ∧
    out ⊆+ students ∧
    fairDistributionShuffle students r = Normal out.
Proof.
  intros Hin.
  destruct (run_terminates (length students) students r) as (run & Hrun & _);
    [done|].
  pose proof (fairDistributionShuffle_heap_sim h students_loc students
                (length students) r Hin) as Hsim.
  rewrite Hrun in Hsim. destruct Hsim as (ret & h' & Hheap & Hret & Hf & _).
  exists ret, h', (run_rng run), (run_result run). split_and!; try done.
  - rewrite Hf; [done|]. apply elem_of_dom. eauto.
  - by eapply run_result_submseteq.
  - unfold fairDistributionShuffle. by rewrite Hrun.
Qed.

(** C9: the array returned and the random source left depend only on the
    contents of the input array and on the random source.  Two invocations
    on arrays with the same contents, in any two heaps (that of a later
    invocation holds whatever earlier invocations left), with the same
    random source, return arrays with the same contents and leave the same
    random source; each starts its loop with empty cooldown maps. *)
Theorem shuffle_deterministic h1 h2 loc1 loc2 students r :
  h1 !! loc1 = Some students → h2 !! loc2 = Some students →
  ∃ out r' ret1 h1' ret2 h2' run,
    fairDistributionShuffle_heap (length students) h1 loc1 r
    = Normal (ret1, h1', r') ∧
    fairDistributionShuffle_heap (length students) h2 loc2 r
    = Normal (ret2, h2', r') ∧
    h1' !! ret1 = Some out ∧ h2' !! ret2 = Some out ∧
    fairDistributionShuffle students r = Normal out ∧
    fairDistributionShuffle_run (length students) students r = Normal run ∧
    ∀ st ev, run_trace run !! 0%nat = Some (st, ev) →
             levelCooldown st = [] ∧ roomCooldown st = [].
Proof.
  intros Hin1 Hin2.
  destruct (run_terminates (length students) students r) as (run & Hrun & _);
    [done|].
  pose proof (fairDistributionShuffle_heap_sim h1 loc1 students
                (length students) r Hin1) as Hsim1.
  pose proof (fairDistributionShuffle_heap_sim h2 loc2 students
                (length students) r Hin2) as Hsim2.
  rewrite Hrun in Hsim1, Hsim2.
  destruct Hsim1 as (ret1 & h1' & Hheap1 & Hret1 & _).
  destruct Hsim2 as (ret2 & h2' & Hheap2 & Hret2 & _).
  exists (run_result run), (run_rng run), ret1, h1', ret2, h2', run.
  split_and!; try done.
  - unfold fairDistributionShuffle. by rewrite Hrun.
  - intros st ev Hfirst.
    destruct (decide (length students ≤ 2)%nat) as [Hsmall|Hbig].
    { unfold fairDistributionShuffle_run in Hrun.
      rewrite decide_True in Hrun by done. by injection Hrun as <-. }
    assert (2 < length students)%nat as Hlt by lia.
    destruct (run_trace_from _ _ _ _ Hlt Hrun)
      as (st0 & fin & -> & _ & _ & _ & _ & Htr).
    inversion Htr; subst; [by rewrite <-H1 in Hfirst|].
    rewrite <-H in Hfirst. simpl in Hfirst. by injection Hfirst as <- <-.
Qed.

(** X26: when no two levels of the pool produce the same
    [`${level}-${room}`] key, at the start of every iteration of the pick
    loop, and when the loop ends, every level counter lies in [0, 5] and
    the counter of the key of a room of level L lies in
    [0, max(roomCount(L) - 1, 0)], where roomCount(L) is the number of
    distinct rooms of L in the input; the commit of any student of the
    pool keeps these bounds. *)
Theorem cooldown_bounds students r :
  room_keys_unambiguous students →
  ∃ run,
    fairDistributionShuffle_run (length students) students r = Normal run ∧
    (∀ st, (∃ ev, (st, ev) ∈ run_trace run) ∨ run_final run = Some st →
           level_bounds st ∧ room_bounds students st) ∧
    (∀ st s st',
       s ∈ students → level_bounds st → room_bounds students st →
       commit (rooms_per_level students) st s (level s) = Some st' →
       level_bounds st' ∧ room_bounds students st') ∧
    (∀ lvl s, s ∈ students → level s = lvl →
       roomCount (rooms_per_level students) lvl =
       Z.of_nat (length (distinct_rooms students lvl))).
Proof.
  intros Hkeys.
  destruct (run_terminates (length students) students r) as (run & Hrun & _);
    [done|].
  exists run. split; [done|]. split_and!.
  - destruct (decide (length students ≤ 2)%nat) as [Hsmall|Hbig].
    { unfold fairDistributionShuffle_run in Hrun.
      rewrite decide_True in Hrun by done. injection Hrun as <-. simpl.
      intros st [[ev Hin]|?]; [by apply elem_of_nil in Hin|done]. }
    assert (2 < length students)%nat as Hlt by lia.
    destruct (run_trace_from _ _ _ _ Hlt Hrun)
      as (st0 & fin & Hst0 & Hinv0 & _ & Hfin & _ & Htr).
    assert (∀ st ev st', loop_inv students st →
              level_bounds st ∧ room_bounds students st →
              picked_from (rooms_per_level students) st ev st' →
              level_bounds st' ∧ room_bounds students st') as Hstep.
    { intros st ev st' Hinv [Hlb Hrb] Hpick.
      destruct (picked_from_student _ _ _ _ _ Hinv Hpick) as (Hs & Hlvl & _).
      destruct Hpick as (l & i & _ & _ & Hc & _).
      apply (commit_bounds students st (pick_student ev)); try done.
      by rewrite Hlvl. }
    assert (level_bounds st0 ∧ room_bounds students st0) as Hb0.
    { subst st0. split; [constructor|]. intros key v s Hin.
      by apply elem_of_nil in Hin. }
    destruct (trace_from_Forall _ _ _ Hstep _ _ _ Hinv0 Hb0 Htr)
      as [Hbfin Hball].
    rewrite Forall_forall in Hball.
    intros st [[ev Hin]|Hst]; [by apply (Hball (st, ev))|].
    rewrite Hfin in Hst. by injection Hst as <-.
  - intros st s st' Hs Hlb Hrb Hc. by eapply commit_bounds.
  - intros lvl s Hs Hl. by eapply roomCount_occurring.
Qed.


End Claims.

(** ** Witnesses and counterexamples *)

(** X22, witness: a pool of five students in two levels. *)
Lemma shuffle_permutation_witness :
  levels_nonempty two_levels_pool ∧
  ∃ out, fairDistributionShuffle (E := stable_engine) two_levels_pool halves
         = Normal out ∧
         out ≡ₚ two_levels_pool ∧ length out = length two_levels_pool.
Proof.
  split; [exact two_levels_pool_nonempty|].
  exact (shuffle_permutation (E := stable_engine) two_levels_pool halves
           two_levels_pool_nonempty).
Defined.

(** C1: [fairDistributionShuffle] does not return a permutation of every
    pool.  Of three students whose level is the empty string it returns
    none: the level selected is falsy in [!selectedLevel], the emergency
    branch selects the same level again and the loop breaks. *)
Lemma shuffle_empty_level_lost :
  ¬ ∃ out, fairDistributionShuffle (E := stable_engine) empty_level_pool halves
           = Normal out ∧ out ≡ₚ empty_level_pool.
Proof.
  intros (out & Hrun & Hperm). vm_compute in Hrun. injection Hrun as <-.
  by apply Permutation_nil_l in Hperm.
Qed.

(** C2, witness: a pool of two students. *)
Lemma shuffle_trivial_witness :
  (length pair_pool ≤ 2)%nat ∧
  fairDistributionShuffle (E := stable_engine) pair_pool halves
  = Normal pair_pool.
Proof.
  assert (Hlen : (length pair_pool ≤ 2)%nat) by (simpl; lia).
  split; [exact Hlen|].
  exact (proj1 (shuffle_trivial (E := stable_engine) pair_pool halves Hlen)).
Defined.

(** X23, witness. *)
Lemma level_cooldown_spacing_witness :
  levels_nonempty two_levels_pool ∧
  ∃ run,
    fairDistributionShuffle_run (E := stable_engine)
      (length two_levels_pool) two_levels_pool halves = Normal run ∧
    ∀ j stj evj, run_trace run !! j = Some (stj, evj) →
      level (pick_student evj) = pick_level evj.
Proof.
  split; [exact two_levels_pool_nonempty|].
  destruct (level_cooldown_spacing (E := stable_engine) two_levels_pool halves
              two_levels_pool_nonempty) as (run & Hrun & _ & Hpicks).
  exists run. split; [exact Hrun|].
  intros j stj evj Hj. exact (proj1 (Hpicks j stj evj Hj)).
Defined.

(** C3: a level is picked again within its cooldown although another
    level was eligible.  Level 1 is picked at positions 0 and 1; at the
    second pick its counter is 5 while the empty level, which has a student
    left, has counter 0: the candidate phase selected the empty level,
    [!selectedLevel] found it falsy, and the emergency branch took the
    first bucket instead. *)
Lemma level_repeats_unforced :
  ∃ run st0 ev0 st1 ev1,
    fairDistributionShuffle_run (E := stable_engine)
      (length mixed_level_pool) mixed_level_pool halves = Normal run ∧
    run_trace run !! 0%nat = Some (st0, ev0) ∧
    run_trace run !! 1%nat = Some (st1, ev1) ∧
    pick_level ev0 = "1" ∧ pick_level ev1 = "1" ∧
    cooldown_of (levelCooldown st1) "1" = 5 ∧
    has_students (byLevel st1) "" ∧
    cooldown_of (levelCooldown st1) "" = 0.
Proof.
  eexists _, _, _, _, _. split; [vm_compute; reflexivity|]. simpl.
  split_and!; try done.
  eexists. split; [right; left|done].
Qed.

(** C4, witness: the first three picks of [three_rooms_pool], one level
    with three rooms, are from three distinct rooms. *)
Lemma room_round_robin_witness :
  ∃ run,
    fairDistributionShuffle_run (E := stable_engine)
      (length three_rooms_pool) three_rooms_pool halves = Normal run ∧
    ∀ i j si sj,
      (i < j)%nat → (j < 3)%nat →
      run_result run !! i = Some si → run_result run !! j = Some sj →
      room si ≠ room sj.
Proof.
  assert (H1 : "1" ≠ "") by discriminate.
  assert (H3 : Forall (λ s, level s = "1") three_rooms_pool)
    by (repeat constructor).
  destruct (room_round_robin (E := stable_engine) three_rooms_pool halves)
    as (run & Hrun & _ & _ & _ & Hsingle).
  exists run. split; [exact Hrun | exact (Hsingle "1" H1 H3)].
Defined.

(** C4, counterexample: six levels, so that every level is off cooldown
    when its turn comes and no fallback of any kind occurs in the whole
    run.  The picks from level 1 are six picks apart, the counter of a room
    (2) has run down in between, and the first two picks from level 1 are
    both from room B. *)
Lemma room_repeats_unforced :
  ∃ run,
    fairDistributionShuffle_run (E := stable_engine)
      (length six_levels_pool) six_levels_pool halves = Normal run ∧
    Forall (λ p, level_forced p.2 = false ∧ room_forced p.2 = false ∧
                 emergency p.2 = false) (run_trace run) ∧
    room <$> take 3 (filter (λ s, level s = "1") (run_result run))
    = ["B"; "B"; "C"].
Proof.
  eexists. split; [vm_compute; reflexivity|]. simpl.
  split; [repeat constructor | reflexivity].
Qed.

(** X24, witness. *)
Lemma emergency_unreachable_witness :
  levels_nonempty two_levels_pool ∧
  ∃ run, fairDistributionShuffle_run (E := stable_engine)
           (length two_levels_pool) two_levels_pool halves = Normal run ∧
         Forall (λ p, emergency p.2 = false) (run_trace run).
Proof.
  split; [exact two_levels_pool_nonempty|].
  destruct (emergency_unreachable (E := stable_engine) two_levels_pool halves
              two_levels_pool_nonempty) as (run & Hrun & _ & Hem & _).
  exists run. split; [exact Hrun | exact Hem].
Defined.

(** C5: the emergency branch is reached.  With a student whose level is
    the empty string the second pick is made by the emergency branch,
    although the candidate phase had selected a student: the level selected
    is falsy in [!selectedLevel]. *)
Lemma emergency_reached :
  ∃ run st ev,
    fairDistributionShuffle_run (E := stable_engine)
      (length mixed_level_pool) mixed_level_pool halves = Normal run ∧
    run_trace run !! 1%nat = Some (st, ev) ∧ emergency ev = true.
Proof.
  eexists _, _, _. split; [vm_compute; reflexivity|]. simpl. by split.
Qed.

(** X25, witness: the five students of [two_levels_pool] take five
    picks. *)
Lemma shuffle_terminates_witness :
  levels_nonempty two_levels_pool ∧
  ∃ run,
    fairDistributionShuffle_run (E := stable_engine)
      (length two_levels_pool) two_levels_pool halves = Normal run ∧
    run_broke run = false ∧ length (run_trace run) = 5%nat.
Proof.
  split; [exact two_levels_pool_nonempty|].
  destruct (shuffle_terminates (E := stable_engine) two_levels_pool halves)
    as (run & Hrun & _ & _ & _ & _ & _ & Hpicks).
  destruct (Hpicks two_levels_pool_nonempty) as [Hbroke Hcount].
  exists run. split_and!; [exact Hrun | exact Hbroke | exact Hcount].
Defined.

(** C7: the loop does not always make as many picks as there are
    students.  A pool of four students makes one pick, not four: the second
    iteration selects the empty level and [!selectedLevel] breaks the
    loop. *)
Lemma shuffle_stops_early :
  ∃ run,
    fairDistributionShuffle_run (E := stable_engine)
      (length mixed_level_pool4) mixed_level_pool4 halves = Normal run ∧
    length (run_trace run) = 1%nat ∧ run_broke run = true ∧
    length (run_result run) ≠ length mixed_level_pool4.
Proof.
  eexists. split; [vm_compute; reflexivity|]. simpl. split_and!; [done..|lia].
Qed.

(** C8, witness. *)
Lemma input_not_mutated_witness :
  pool_heap !! 0%nat = Some two_levels_pool ∧
  ∃ ret h' r' out,
    fairDistributionShuffle_heap (E := stable_engine)
      (length two_levels_pool) pool_heap 0%nat halves = Normal (ret, h', r') ∧
    h' !! 0%nat = Some two_levels_pool ∧
    h' !! ret = Some out ∧ out ⊆+ two_levels_pool.
Proof.
  assert (Hin : pool_heap !! 0%nat = Some two_levels_pool) by reflexivity.
  split; [exact Hin|].
  destruct (input_not_mutated (E := stable_engine) pool_heap 0%nat
              two_levels_pool halves Hin)
    as (ret & h' & r' & out & Hrun & Hsame & _ & Hret & Hsub & _).
  exists ret, h', r', out. split_and!; assumption.
Defined.

(** C9, witness: the pool alone in a heap, and among other arrays. *)
Lemma shuffle_deterministic_witness :
  (pool_heap !! 0%nat = Some two_levels_pool ∧
   busy_heap !! 4%nat = Some two_levels_pool) ∧
  ∃ out r' ret1 h1' ret2 h2',
    fairDistributionShuffle_heap (E := stable_engine)
      (length two_levels_pool) pool_heap 0%nat halves
    = Normal (ret1, h1', r') ∧
    fairDistributionShuffle_heap (E := stable_engine)
      (length two_levels_pool) busy_heap 4%nat halves
    = Normal (ret2, h2', r') ∧
    h1' !! ret1 = Some out ∧ h2' !! ret2 = Some out.
Proof.
  assert (Hin1 : pool_heap !! 0%nat = Some two_levels_pool) by reflexivity.
  assert (Hin2 : busy_heap !! 4%nat = Some two_levels_pool) by reflexivity.
  split; [exact (conj Hin1 Hin2)|].
  destruct (shuffle_deterministic (E := stable_engine) pool_heap busy_heap
              0%nat 4%nat two_levels_pool halves Hin1 Hin2)
    as (out & r' & ret1 & h1' & ret2 & h2' & run & H1 & H2 & H3 & H4 & _).
  exists out, r', ret1, h1', ret2, h2'. split_and!; assumption.
Defined.

(** X26, witness. *)
Lemma cooldown_bounds_witness :
  room_keys_unambiguous two_levels_pool ∧
  ∃ run,
    fairDistributionShuffle_run (E := stable_engine)
      (length two_levels_pool) two_levels_pool halves = Normal run ∧
    ∀ st, (∃ ev, (st, ev) ∈ run_trace run) ∨ run_final run = Some st →
          level_bounds st ∧ room_bounds two_levels_pool st.
Proof.
  split; [exact two_levels_pool_unambiguous|].
  destruct (cooldown_bounds (E := stable_engine) two_levels_pool halves
              two_levels_pool_unambiguous) as (run & Hrun & Hbounds & _).
  exists run. split; [exact Hrun | exact Hbounds].
Defined.

(** C10: a room counter exceeds the bound of its level.  The first pick
    takes student 2 (level ["a-b"], room ["c"]) and sets the counter of
    ["a-b-c"] to 2, the bound of level ["a-b"] with its three rooms; the
    same key is that of room ["b-c"] of level ["a"], whose bound, with one
    room, is 0. *)
Lemma room_counter_exceeds_bound :
  ∃ run st ev s,
    fairDistributionShuffle_run (E := stable_engine)
      (length colliding_pool) colliding_pool halves = Normal run ∧
    run_trace run !! 1%nat = Some (st, ev) ∧
    s ∈ colliding_pool ∧
    (roomKey (level s) (room s), 2) ∈ roomCooldown st ∧
    room_bound (rooms_per_level colliding_pool) (level s) = 0.
Proof.
  eexists _, _, _, (student 4 "a" "b-c").
  split; [vm_compute; reflexivity|]. simpl. split_and!; try done.
  - do 3 right. left.
  - left.
Qed.

(** ** Runs on the example pools *)

Example shuffle_two_levels :
  fairDistributionShuffle (E := stable_engine) two_levels_pool halves
  = Normal [student 2 "1" "1"; student 4 "2" "2"; student 5 "1" "2";
            student 3 "2" "2"; student 1 "1" "1"].
Proof. vm_compute. reflexivity. Qed.

Example shuffle_empty_level :
  fairDistributionShuffle (E := stable_engine) empty_level_pool halves
  = Normal [].
Proof. vm_compute. reflexivity. Qed.

Example shuffle_mixed_level :
  fairDistributionShuffle (E := stable_engine) mixed_level_pool halves
  = Normal [student 2 "1" "1"; student 1 "1" "1"].
Proof. vm_compute. reflexivity. Qed.

Example shuffle_two_levels_heap :
  match fairDistributionShuffle_heap (E := stable_engine)
          (length two_levels_pool) busy_heap 4%nat halves with
  | Normal (ret, h', _) =>
      h' !! 4%nat = Some two_levels_pool ∧
      obj_ref <$> array_at h' ret = [2; 4; 5; 3; 1]%nat
  | _ => False
  end.
Proof. vm_compute. split; reflexivity. Qed.


(** * Further properties

    Properties of the setup, of the picks and of the code around
    [fairDistributionShuffle]: the draws, the requests to the table, the
    administration page and the draw page. *)

(** ** Levels and rooms along a run *)

Lemma Map_set_keys {V : Type} (m : list (string * V)) k v :
  (Map_set m k v).*1 = Set_add m.*1 k.
Proof.
  unfold Set_add. induction m as [|[k0 v0] m IH]; [done|].
  cbn [Map_set]. rewrite fmap_cons. cbn [fst].
  destruct (decide (k0 = k)) as [->|Hne].
  - rewrite decide_True by (by left). done.
  - rewrite fmap_cons, IH. cbn [fst].
    destruct (decide (k ∈ m.*1)) as [Hin|Hnin].
    + rewrite decide_True by (by right). done.
    + rewrite decide_False; [done|].
      intros [?|?]%elem_of_cons; done.
Qed.

Lemma group_by_level_keys_from byLevel students :
  (foldl group_step byLevel students).*1 =
  foldl Set_add byLevel.*1 (level <$> students).
Proof.
  revert byLevel. induction students as [|s students IH]; intros m; simpl;
    [done|].
  rewrite IH. unfold group_step. by rewrite Map_set_keys.
Qed.

(** The students picked along a trace were in the buckets at its start. *)
Lemma trace_from_picked_remaining roomsPerLevel students st tr fin p :
  loop_inv students st → trace_from roomsPerLevel st tr fin → p ∈ tr →
  pick_student p.2 ∈ remaining (byLevel st).
Proof.
  intros Hinv Htr. revert Hinv.
  induction Htr as [st|st ev st' tr fin Hpick Htr IH]; intros Hinv Hp.
  - by apply elem_of_nil in Hp.
  - pose proof (picked_from_inv _ _ _ _ _ Hinv Hpick) as Hinv'.
    destruct Hpick as (l & i & Hg & Hi & _ & -> & _).
    pose proof (commit_remaining _ _ _ _ _ Hg Hi) as Hrem.
    apply elem_of_cons in Hp as [->|Hp]; simpl.
    + rewrite <-Hrem. by left.
    + specialize (IH Hinv' Hp). simpl in IH. rewrite <-Hrem. by right.
Qed.

(** A student in the buckets makes their level one that has students. *)
Lemma remaining_has_students byLevel s :
  buckets_ok byLevel → s ∈ remaining byLevel →
  has_students byLevel (level s).
Proof.
  intros [_ Hb] (lvl & l & Hin & Hs)%remaining_elem.
  rewrite (Hb _ _ _ Hin Hs). exists l. split; [done|].
  intros ->. by apply elem_of_nil in Hs.
Qed.

(** A level counter of at least [c > 0] was at least [c + j] at the start,
    or the level was picked among the last [LEVEL_COOLDOWN - c + 1]
    picks. *)
Lemma trace_from_level_cooldown_recent roomsPerLevel st tr fin j stj ev lvl c :
  0 < c →
  trace_from roomsPerLevel st tr fin → tr !! j = Some (stj, ev) →
  c ≤ cooldown_of (levelCooldown stj) lvl →
  c + Z.of_nat j ≤ cooldown_of (levelCooldown st) lvl ∨
  ∃ p stp evp, (p < j)%nat ∧ tr !! p = Some (stp, evp) ∧
               pick_level evp = lvl ∧
               Z.of_nat j - 1 - Z.of_nat p ≤ LEVEL_COOLDOWN - c.
Proof.
  intros Hc Htr. revert j.
  induction Htr as [st|st ev0 st' tr fin Hpick Htr IH]; intros j Hj Hcd;
    [done|].
  destruct j as [|j]; simpl in Hj.
  - injection Hj as <- <-. left. lia.
  - destruct (IH _ Hj Hcd) as [Hstart|(p & stp & evp & Hp & Hlook & Hlvl & Hd)].
    + rewrite (picked_from_level_cooldown _ _ _ _ lvl Hpick) in Hstart.
      destruct (decide (lvl = pick_level ev0)) as [->|Hne].
      * right. exists 0%nat, st, ev0. split_and!; [lia|done..|lia].
      * left. lia.
    + right. exists (S p), stp, evp. split_and!; [lia|done..|lia].
Qed.

Section Window.
Context {E : JsEngine}.

(** The core of the two theorems on levels: a level picked again within
    [LEVEL_COOLDOWN] picks means that every level that still had students
    had been picked in between. *)
Lemma run_level_window students r run i j sti evi stj evj :
  levels_nonempty students → (2 < length students)%nat →
  fairDistributionShuffle_run (length students) students r = Normal run →
  run_trace run !! i = Some (sti, evi) → run_trace run !! j = Some (stj, evj) →
  (i < j)%nat → (j ≤ i + 5)%nat → pick_level evi = pick_level evj →
  ∀ k stk evk, (j ≤ k)%nat → run_trace run !! k = Some (stk, evk) →
    ∃ p stp evp, (i ≤ p < j)%nat ∧ run_trace run !! p = Some (stp, evp) ∧
                 pick_level evp = level (pick_student evk).
Proof.
  intros Hlevels Hlt Hrun Hi Hj Hij Hwin Hsame k stk evk Hjk Hk.
  destruct (run_trace_from _ _ _ _ Hlt Hrun)
    as (st0 & fin & Hst0 & Hinv0 & _ & _ & Hres & Htr).
  destruct (run_complete _ _ _ _ Hlevels Hrun) as (_ & _ & Hem & _).
  assert (level_bounds st0) as Hb0 by (subst st0; constructor).
  destruct (trace_from_inv _ _ _ _ _ Hinv0 Htr) as [_ Hinvs].
  destruct (trace_from_Forall level_bounds _ students
              (λ st ev st' _ Hb Hp, picked_from_level_bounds _ st ev st' Hb Hp)
              _ _ _ Hinv0 Hb0 Htr) as [_ Hbs].
  rewrite Forall_forall in Hem, Hinvs, Hbs.
  pose proof (Hinvs _ (list_elem_of_lookup_2 _ _ _ Hj)) as Hinvj.
  pose proof (Hem _ (list_elem_of_lookup_2 _ _ _ Hj)) as Hemj.
  simpl in Hinvj, Hemj.
  (* the counter of the level picked at [i] is still high at [j] *)
  destruct (trace_from_lookup _ _ _ _ _ _ _ Htr Hi) as (sti' & Hpicki & Htri).
  assert (drop (S i) (run_trace run) !! (j - S i)%nat = Some (stj, evj))
    as Hj'.
  { rewrite lookup_drop. rewrite <-Hj. f_equal. lia. }
  assert (level_bounds sti') as Hbi.
  { eapply picked_from_level_bounds; [|done].
    apply (Hbs (sti, evi)). by eapply list_elem_of_lookup_2. }
  pose proof (trace_from_level_cooldown_lower _ _ _ _ _ _ _
                (pick_level evj) Hbi Htri Hj') as Hlow.
  rewrite (picked_from_level_cooldown _ _ _ _ _ Hpicki) in Hlow.
  rewrite decide_True in Hlow by done.
  (* so the pick at [j] was forced *)
  destruct (trace_from_lookup _ _ _ _ _ _ _ Htr Hj) as (stj' & Hpickj & _).
  destruct Hpickj as (l & idx & _ & _ & _ & _ & Hchoice).
  destruct (Hchoice Hemj) as [Hlevel _]. unfold level_choice in Hlevel.
  unfold LEVEL_COOLDOWN in *.
  destruct (level_forced evj); [|lia].
  (* the student picked at [k] was in the buckets at [j] *)
  assert (has_students (byLevel stj) (level (pick_student evk))) as Hhas.
  { apply remaining_has_students; [apply Hinvj|].
    apply (trace_from_picked_remaining (rooms_per_level students) students
             stj (drop j (run_trace run)) fin (stk, evk));
      [done|by eapply trace_from_drop|].
    apply list_elem_of_lookup. exists (k - j)%nat.
    rewrite lookup_drop. rewrite <-Hk. f_equal. lia. }
  destruct (Hlevel _ Hhas) as [Hpos Hmin].
  destruct (trace_from_level_cooldown_recent _ _ _ _ _ _ _
              (level (pick_student evk))
              (5 - (Z.of_nat (j - S i)))
              ltac:(lia) Htr Hj ltac:(lia))
    as [Hstart|(p & stp & evp & Hp & Hlook & Hlvl & Hd)].
  - subst st0. simpl in Hstart. unfold cooldown_of in Hstart. simpl in Hstart.
    lia.
  - exists p, stp, evp. split_and!; try done; unfold LEVEL_COOLDOWN in *; lia.
Qed.

End Window.

Lemma distinct_levels_spec students :
  NoDup (distinct_levels students) ∧
  ∀ lvl, lvl ∈ distinct_levels students ↔ ∃ s, s ∈ students ∧ level s = lvl.
Proof.
  unfold distinct_levels.
  destruct (foldl_Set_add_spec [] (level <$> students)) as [Hnd Hin];
    [constructor|].
  split; [done|]. intros lvl. rewrite Hin, elem_of_nil, list_elem_of_fmap.
  naive_solver.
Qed.

Section WindowTheorems.
Context {E : JsEngine}.

(** X2: a level comes again within five positions only when every level
    that still has students was picked in between. *)
Theorem level_repeat_exhausts students r :
  levels_nonempty students →
  ∃ out, fairDistributionShuffle students r = Normal out ∧
         out ≡ₚ students ∧
         ∀ i j si sj,
           (i < j)%nat → (j ≤ i + 5)%nat →
           out !! i = Some si → out !! j = Some sj → level si = level sj →
           ∀ k sk, (j ≤ k)%nat → out !! k = Some sk →
             ∃ p sp, (i ≤ p < j)%nat ∧ out !! p = Some sp ∧
                     level sp = level sk.
Proof.
  intros Hlevels.
  destruct (run_terminates (length students) students r) as (run & Hrun & _);
    [done|].
  destruct (run_complete _ _ _ _ Hlevels Hrun) as (_ & Hperm & _).
  exists (run_result run). unfold fairDistributionShuffle. rewrite Hrun.
  split_and!; [done..|].
  intros i j si sj Hij Hwin Hi Hj Hsame k sk Hjk Hk.
  destruct (decide (length students ≤ 2)%nat) as [Hsmall|Hbig].
  { pose proof (lookup_lt_Some _ _ _ Hk) as Hlen.
    rewrite (Permutation_length Hperm) in Hlen.
    assert (k = j) as -> by lia. exists i, si. split_and!; [lia|lia|done|].
    congruence. }
  assert (2 < length students)%nat as Hlt by lia.
  destruct (run_trace_from _ _ _ _ Hlt Hrun)
    as (st0 & fin & Hst0 & Hinv0 & _ & _ & Hres & Htr).
  destruct (trace_from_inv _ _ _ _ _ Hinv0 Htr) as [_ Hinvs].
  rewrite Forall_forall in Hinvs.
  assert (Hlevel : ∀ n stn evn, run_trace run !! n = Some (stn, evn) →
                     level (pick_student evn) = pick_level evn).
  { intros n stn evn Hn.
    destruct (trace_from_lookup _ _ _ _ _ _ _ Htr Hn) as (stn' & Hpick & _).
    apply (picked_from_student _ students _ _ _
             (Hinvs _ (list_elem_of_lookup_2 _ _ _ Hn)) Hpick). }
  rewrite Hres, list_lookup_fmap in Hi, Hj, Hk.
  destruct (run_trace run !! i) as [[sti evi]|] eqn:Hti; [|done].
  destruct (run_trace run !! j) as [[stj evj]|] eqn:Htj; [|done].
  destruct (run_trace run !! k) as [[stk evk]|] eqn:Htk; [|done].
  simpl in Hi, Hj, Hk. injection Hi as <-. injection Hj as <-.
  injection Hk as <-.
  rewrite (Hlevel _ _ _ Hti), (Hlevel _ _ _ Htj) in Hsame.
  destruct (run_level_window students r run i j sti evi stj evj
              Hlevels Hlt Hrun Hti Htj Hij Hwin Hsame k stk evk Hjk Htk)
    as (p & stp & evp & Hp & Hlook & Hlvl).
  exists p, (pick_student evp). split_and!; [lia..| |].
  - by rewrite Hres, list_lookup_fmap, Hlook.
  - by rewrite (Hlevel _ _ _ Hlook).
Qed.

(** X3: the first picks are from different levels: as many as the pool
    has levels, up to six. *)
Theorem first_picks_distinct_levels students r :
  levels_nonempty students →
  ∃ out, fairDistributionShuffle students r = Normal out ∧
         out ≡ₚ students ∧
         ∀ i j si sj,
           (i < j)%nat → (j < length (distinct_levels students))%nat →
           (j ≤ 5)%nat →
           out !! i = Some si → out !! j = Some sj → level si ≠ level sj.
Proof.
  intros Hlevels.
  destruct (run_terminates (length students) students r) as (run & Hrun & _);
    [done|].
  destruct (run_complete _ _ _ _ Hlevels Hrun) as (_ & Hperm & _).
  exists (run_result run). unfold fairDistributionShuffle. rewrite Hrun.
  split_and!; [done..|].
  intros i j si sj Hij Hjm Hj5 Hi Hj Hsame.
  destruct (distinct_levels_spec students) as [Hnd Hin].
  (* every level of the pool occurs among the first [j] picks *)
  assert (∀ lvl, lvl ∈ distinct_levels students →
                 lvl ∈ level <$> take j (run_result run)) as Hsub.
  { intros lvl (s & Hs & <-)%Hin. rewrite <-Hperm in Hs.
    apply list_elem_of_lookup in Hs as [k Hk].
    destruct (decide (k < j)%nat) as [Hkj|Hkj].
    { apply list_elem_of_fmap. exists s. split; [done|].
      apply list_elem_of_lookup. exists k. by rewrite lookup_take_lt. }
    assert (∃ p sp, (i ≤ p < j)%nat ∧ run_result run !! p = Some sp ∧
                    level sp = level s) as (p & sp & Hp & Hlook & <-).
    { destruct (decide (length students ≤ 2)%nat) as [Hsmall|Hbig].
      - pose proof (lookup_lt_Some _ _ _ Hk) as Hlen.
        rewrite (Permutation_length Hperm) in Hlen.
        assert (k = j) as -> by lia. exists i, si. split_and!; [lia|lia|done|].
        congruence.
      - assert (2 < length students)%nat as Hlt by lia.
        destruct (run_trace_from _ _ _ _ Hlt Hrun)
          as (st0 & fin & Hst0 & Hinv0 & _ & _ & Hres & Htr).
        destruct (trace_from_inv _ _ _ _ _ Hinv0 Htr) as [_ Hinvs].
        rewrite Forall_forall in Hinvs.
        assert (Hlevel : ∀ n stn evn, run_trace run !! n = Some (stn, evn) →
                           level (pick_student evn) = pick_level evn).
        { intros n stn evn Hn.
          destruct (trace_from_lookup _ _ _ _ _ _ _ Htr Hn)
            as (stn' & Hpick & _).
          apply (picked_from_student _ students _ _ _
                   (Hinvs _ (list_elem_of_lookup_2 _ _ _ Hn)) Hpick). }
        rewrite Hres, list_lookup_fmap in Hi, Hj, Hk.
        destruct (run_trace run !! i) as [[sti evi]|] eqn:Hti; [|done].
        destruct (run_trace run !! j) as [[stj evj]|] eqn:Htj; [|done].
        destruct (run_trace run !! k) as [[stk evk]|] eqn:Htk; [|done].
        simpl in Hi, Hj, Hk. injection Hi as <-. injection Hj as <-.
        injection Hk as <-.
        rewrite (Hlevel _ _ _ Hti), (Hlevel _ _ _ Htj) in Hsame.
        destruct (run_level_window students r run i j sti evi stj evj
                    Hlevels Hlt Hrun Hti Htj Hij ltac:(lia) Hsame
                    k stk evk ltac:(lia) Htk)
          as (p & stp & evp & Hp & Hlook & Hlvl).
        exists p, (pick_student evp). split_and!; [lia..| |].
        + by rewrite Hres, list_lookup_fmap, Hlook.
        + by rewrite (Hlevel _ _ _ Hlook). }
    apply list_elem_of_fmap. exists sp. split; [done|].
    apply list_elem_of_lookup. exists p. rewrite lookup_take_lt by lia. done. }
  pose proof (submseteq_length _ _ (NoDup_submseteq _ _ Hnd Hsub)) as Hlen.
  rewrite length_fmap, length_take in Hlen. lia.
Qed.

End WindowTheorems.

Section SingleLevelWindow.
Variable students : list Student.
Variable lvl : string.
Variable roomsPerLevel : list (string * list string).
Hypothesis single : ∀ s, s ∈ students → level s = lvl.

(** A room counter of at least [c > 0] was at least [c + j] at the start,
    or the room was picked among the last picks. *)
Lemma single_room_cooldown_recent st tr fin j stj ev key c :
  0 < c → loop_inv students st →
  trace_from roomsPerLevel st tr fin → tr !! j = Some (stj, ev) →
  c ≤ cooldown_of (roomCooldown stj) key →
  c + Z.of_nat j ≤ cooldown_of (roomCooldown st) key ∨
  ∃ p stp evp, (p < j)%nat ∧ tr !! p = Some (stp, evp) ∧
               key = roomKey lvl (room (pick_student evp)) ∧
               Z.of_nat j - 1 - Z.of_nat p ≤ room_bound roomsPerLevel lvl - c.
Proof.
  intros Hc Hinv Htr. revert j Hinv.
  induction Htr as [st|st ev0 st' tr fin Hpick Htr IH]; intros j Hinv Hj Hcd;
    [done|].
  destruct j as [|j]; simpl in Hj.
  - injection Hj as <- <-. left. lia.
  - destruct (IH _ (picked_from_inv _ _ _ _ _ Hinv Hpick) Hj Hcd)
      as [Hstart|(p & stp & evp & Hp & Hlook & Hkey & Hd)].
    + rewrite (picked_from_room_cooldown _ _ _ _ key Hpick) in Hstart.
      rewrite (single_pick_level students lvl _ single _ _ _ Hinv Hpick)
        in Hstart.
      destruct (decide (key = _)) as [Hkey|Hne].
      * right. exists 0%nat, st, ev0. split_and!; [lia|done..|lia].
      * left. lia.
    + right. exists (S p), stp, evp. split_and!; [lia|done..|lia].
Qed.

(** In a bucket map of a single level every student left is in the bucket
    of that level. *)
Lemma single_remaining_bucket st l s :
  loop_inv students st → Map_get (byLevel st) lvl = Some l →
  s ∈ remaining (byLevel st) → s ∈ l.
Proof.
  intros [[Hnd Hb] Hperm] Hg Hs.
  pose proof Hs as (lvl' & l' & Hin' & Hs')%remaining_elem.
  pose proof (Hb _ _ _ Hin' Hs') as Hl'.
  rewrite (single s) in Hl'.
  2:{ rewrite <-Hperm. apply elem_of_app. by right. }
  subst lvl'. apply Map_elem_get in Hin'; [|done]. congruence.
Qed.

End SingleLevelWindow.

Section RoomWindow.
Context {E : JsEngine}.

(** X4: in a pool of a single level with [k] rooms, a room comes again
    within [k - 1] positions only when every room that still has students
    was picked in between. *)
Theorem room_repeat_exhausts students r lvl :
  lvl ≠ "" → Forall (λ s, level s = lvl) students →
  ∃ out, fairDistributionShuffle students r = Normal out ∧
         out ≡ₚ students ∧
         ∀ i j si sj,
           (i < j)%nat →
           (j < i + length (distinct_rooms students lvl))%nat →
           out !! i = Some si → out !! j = Some sj → room si = room sj →
           ∀ m sm, (j ≤ m)%nat → out !! m = Some sm →
             ∃ p sp, (i ≤ p < j)%nat ∧ out !! p = Some sp ∧
                     room sp = room sm.
Proof.
  intros Hlvl Hsingle. rewrite Forall_forall in Hsingle.
  assert (levels_nonempty students) as Hlevels.
  { apply Forall_forall. intros s Hs. by rewrite (Hsingle s Hs). }
  destruct (run_terminates (length students) students r) as (run & Hrun & _);
    [done|].
  destruct (run_complete _ _ _ _ Hlevels Hrun) as (_ & Hperm & Hem & _).
  exists (run_result run). unfold fairDistributionShuffle. rewrite Hrun.
  split_and!; [done..|].
  intros i j si sj Hij Hwin Hi Hj Hroom m sm Hjm Hm.
  destruct (decide (length students ≤ 2)%nat) as [Hsmall|Hbig].
  { pose proof (lookup_lt_Some _ _ _ Hm) as Hlen.
    rewrite (Permutation_length Hperm) in Hlen.
    assert (m = j) as -> by lia. exists i, si. split_and!; [lia|lia|done|].
    congruence. }
  assert (2 < length students)%nat as Hlen by lia.
  destruct (run_trace_from _ _ _ _ Hlen Hrun)
    as (st0 & fin & Hst0 & Hinv0 & _ & _ & Hres & Htr).
  destruct (trace_from_inv _ _ _ _ _ Hinv0 Htr) as [_ Hinvs].
  rewrite Forall_forall in Hem, Hinvs.
  set (k := length (distinct_rooms students lvl)) in *.
  assert (roomCount (rooms_per_level students) lvl = Z.of_nat k) as Hcount.
  { destruct students as [|s0 rest] eqn:Hst; [simpl in Hlen; lia|].
    apply (roomCount_occurring _ lvl s0); [by left|].
    apply Hsingle. by left. }
  set (cap := room_bound (rooms_per_level students) lvl).
  assert (cap = Z.max (Z.of_nat k - 1) 0) as Hcapk
    by (unfold cap, room_bound; by rewrite Hcount).
  assert (room_cap cap st0) as Hcap0 by (subst st0; constructor).
  destruct (trace_from_Forall (room_cap cap) _ students
              (λ st ev st' Hinv Hb Hp,
                 single_room_cap students lvl _ Hsingle st ev st' Hinv Hb Hp)
              _ _ _ Hinv0 Hcap0 Htr) as [_ Hcaps].
  rewrite Forall_forall in Hcaps.
  rewrite Hres, list_lookup_fmap in Hi, Hj, Hm.
  destruct (run_trace run !! i) as [[sti evi]|] eqn:Hti; [|done].
  destruct (run_trace run !! j) as [[stj evj]|] eqn:Htj; [|done].
  destruct (run_trace run !! m) as [[stm evm]|] eqn:Htm; [|done].
  simpl in Hi, Hj, Hm. injection Hi as <-. injection Hj as <-.
  injection Hm as <-.
  pose proof (Hinvs _ (list_elem_of_lookup_2 _ _ _ Hti)) as Hinvi.
  pose proof (Hinvs _ (list_elem_of_lookup_2 _ _ _ Htj)) as Hinvj.
  pose proof (Hcaps _ (list_elem_of_lookup_2 _ _ _ Hti)) as Hcapi.
  simpl in Hinvi, Hinvj, Hcapi.
  (* the counter of the room picked at [i] is still above 0 at [j] *)
  destruct (trace_from_lookup _ _ _ _ _ _ _ Htr Hti)
    as (sti' & Hpicki & Htri).
  assert (drop (S i) (run_trace run) !! (j - S i)%nat = Some (stj, evj))
    as Hj'.
  { rewrite lookup_drop. rewrite <-Htj. f_equal. lia. }
  pose proof (single_pick_level students lvl _ Hsingle _ _ _ Hinvi Hpicki)
    as Hli.
  pose proof (single_room_cooldown_lower students lvl _ Hsingle
                _ _ _ _ _ _ (roomKey lvl (room (pick_student evi)))
                (picked_from_inv _ _ _ _ _ Hinvi Hpicki)
                (single_room_cap students lvl _ Hsingle _ _ _
                   Hinvi Hcapi Hpicki)
                Htri Hj') as Hlow.
  rewrite (picked_from_room_cooldown _ _ _ _ _ Hpicki), Hli in Hlow.
  rewrite decide_True in Hlow by done. fold cap in Hlow.
  rewrite Hroom in Hlow.
  (* so the pick at [j] was forced *)
  destruct (trace_from_lookup _ _ _ _ _ _ _ Htr Htj)
    as (stj' & Hpickj & _).
  pose proof (single_pick_level students lvl _ Hsingle _ _ _ Hinvj Hpickj)
    as Hlj.
  destruct Hpickj as (l & idx & Hg & _ & _ & _ & Hchoice).
  destruct (Hchoice (Hem _ (list_elem_of_lookup_2 _ _ _ Htj)))
    as [_ Hrc].
  rewrite Hlj in Hg, Hrc. unfold room_choice, room_cooldown_of in Hrc.
  destruct (room_forced evj); [|lia].
  (* the student picked at [m] was in the bucket at [j] *)
  assert (pick_student evm ∈ l) as Hml.
  { apply (single_remaining_bucket students lvl Hsingle stj); [done..|].
    apply (trace_from_picked_remaining (rooms_per_level students) students
             stj (drop j (run_trace run)) fin (stm, evm));
      [done|by eapply trace_from_drop|].
    apply list_elem_of_lookup. exists (m - j)%nat.
    rewrite lookup_drop. rewrite <-Htm. f_equal. lia. }
  destruct (Hrc _ Hml) as [Hpos Hmin].
  destruct (single_room_cooldown_recent students lvl _ Hsingle
              _ _ _ _ _ _ (roomKey lvl (room (pick_student evm)))
              (cap - Z.of_nat (j - S i))
              ltac:(lia) Hinv0 Htr Htj ltac:(lia))
    as [Hstart|(p & stp & evp & Hp & Hlook & Hkey & Hd)].
  - subst st0. simpl in Hstart. unfold cooldown_of in Hstart. simpl in Hstart.
    lia.
  - apply roomKey_inj in Hkey. fold cap in Hd.
    exists p, (pick_student evp). split_and!; [lia..| |done].
    by rewrite Hres, list_lookup_fmap, Hlook.
Qed.

End RoomWindow.


(** ** More on the setup and on the array returned *)

(** X1: the two maps of the setup.  The buckets are keyed by the levels
    in order of first occurrence and hold the students of the level in
    input order; the room sets hold the distinct rooms of the level in
    order of first occurrence. *)
Theorem setup_maps_spec students :
  (group_by_level students).*1 = distinct_levels students ∧
  (rooms_per_level students).*1 = distinct_levels students ∧
  NoDup (distinct_levels students) ∧
  ∀ lvl,
    match filter (λ s, level s = lvl) students with
    | [] => Map_get (group_by_level students) lvl = None ∧
            Map_get (rooms_per_level students) lvl = None
    | of_level =>
        Map_get (group_by_level students) lvl = Some of_level ∧
        Map_get (rooms_per_level students) lvl
        = Some (distinct_rooms students lvl)
    end.
Proof.
  split_and!.
  - apply group_by_level_keys_from.
  - unfold rooms_per_level, distinct_levels.
    assert (∀ m, (foldl rooms_step m students).*1
                 = foldl Set_add m.*1 (level <$> students)) as Hkeys.
    { induction students as [|s rest IH]; intros m; simpl; [done|].
      rewrite IH. unfold rooms_step. by rewrite Map_set_keys. }
    apply Hkeys.
  - apply distinct_levels_spec.
  - intros lvl. unfold group_by_level, rooms_per_level, distinct_rooms.
    rewrite group_by_level_get_from, rooms_per_level_from.
    by destruct (filter _ students).
Qed.

Section FreshResult.
Context {E : JsEngine}.

(** X5: for more than two students the array returned is a new one: it
    is not the input array nor any array the heap held before the call
    (for at most two it is the input array itself). *)
Theorem shuffle_result_fresh h students_loc students r :
  h !! students_loc = Some students →
  ∃ ret h' r',
    fairDistributionShuffle_heap (length students) h students_loc r
    = Normal (ret, h', r') ∧
    is_Some (h' !! ret) ∧
    ((2 < length students)%nat → (ret ∉ dom h) ∧ ret ≠ students_loc) ∧
    ((length students ≤ 2)%nat → ret = students_loc).
Proof.
  intros Hin.
  destruct (run_terminates (length students) students r) as (run & Hrun & _);
    [done|].
  pose proof (fairDistributionShuffle_heap_sim h students_loc students
                (length students) r Hin) as Hsim.
  rewrite Hrun in Hsim.
  destruct Hsim as (ret & h' & Hheap & Hret & _ & Hfresh).
  exists ret, h', (run_rng run). split_and!; [done|by eexists| |].
  - intros Hlen. rewrite decide_False in Hfresh by lia. split; [done|].
    intros ->. apply Hfresh. apply elem_of_dom. by eexists.
  - intros Hlen. by rewrite decide_True in Hfresh by lia.
Qed.

End FreshResult.

(** ** Lemmas on [slice] and on the rows of an answer *)

Lemma Array_slice_prefix {A : Type} (l : list A) (end_ : Z) :
  Array_slice l 0 end_ =
  take (Z.to_nat (if decide (end_ < 0)
                  then Z.max (Z.of_nat (length l) + end_) 0
                  else Z.min end_ (Z.of_nat (length l)))) l.
Proof.
  unfold Array_slice. cbv zeta. destruct (decide (0 < 0)) as [?|_]; [lia|].
  replace (Z.min 0 (Z.of_nat (length l))) with 0 by lia.
  rewrite Z.sub_0_r. done.
Qed.

Lemma Array_slice_prefix_length {A : Type} (l : list A) (end_ : Z) :
  Z.of_nat (length (Array_slice l 0 end_)) =
  if decide (end_ < 0) then Z.max (Z.of_nat (length l) + end_) 0
  else Z.min end_ (Z.of_nat (length l)).
Proof.
  rewrite Array_slice_prefix, length_take. destruct (decide (end_ < 0)); lia.
Qed.

Lemma Array_slice_prefix_submseteq {A : Type} (l : list A) (end_ : Z) :
  Array_slice l 0 end_ ⊆+ l.
Proof.
  rewrite Array_slice_prefix. apply sublist_submseteq, sublist_take.
Qed.

Lemma row_objects_lookup rows i s :
  row_objects rows !! i = Some s ↔
  ∃ row, rows !! i = Some row ∧ s = with_ref i row.
Proof.
  unfold row_objects. rewrite list_lookup_imap.
  destruct (rows !! i) as [row|]; simpl; naive_solver.
Qed.

Lemma row_objects_elem rows s :
  s ∈ row_objects rows →
  ∃ row, row ∈ rows ∧ id s = id row ∧ level s = level row ∧
         room s = room row ∧ number s = number row ∧ name s = name row ∧
         is_winner s = is_winner row.
Proof.
  intros [i Hi]%list_elem_of_lookup.
  apply row_objects_lookup in Hi as (row & Hrow & ->).
  exists row. split; [by eapply list_elem_of_lookup_2|done].
Qed.

Lemma row_objects_length rows : length (row_objects rows) = length rows.
Proof. unfold row_objects. by rewrite length_imap. Qed.

Lemma row_objects_levels_nonempty rows :
  Forall (λ s, level s ≠ "") rows → levels_nonempty (row_objects rows).
Proof.
  unfold levels_nonempty. rewrite !Forall_forall.
  intros Hrows s (row & Hrow & _ & Hl & _)%row_objects_elem.
  rewrite Hl. by apply Hrows.
Qed.

Lemma next_fault_database w : database (next_fault w).2 = database w.
Proof. unfold next_fault. by destruct (faults w). Qed.

Lemma next_fault_none w :
  head (faults w) ≠ Some true → (next_fault w).1 = false.
Proof. unfold next_fault. destruct (faults w) as [|[] ?]; simpl; done. Qed.

Lemma draw_slice_length {A : Type} (l : list A) count :
  Z.of_nat (length (Array_slice l 0 (Z.min count (Z.of_nat (length l))))) =
  draw_size count (length l).
Proof.
  rewrite Array_slice_prefix_length. unfold draw_size.
  destruct (decide (Z.min _ _ < 0)), (decide (count < 0)); lia.
Qed.

Section CandidateFacts.
Context {E : JsEngine}.

Lemma shuffle_run_total data r :
  ∃ run, fairDistributionShuffle_run (length data) data r = Normal run ∧
         run_result run ⊆+ data ∧
         (levels_nonempty data → run_result run ≡ₚ data) ∧
         ((length data ≤ 2)%nat → run_result run = data ∧ run_rng run = r).
Proof.
  destruct (run_terminates (length data) data r) as (run & Hrun & _); [done|].
  exists run. split_and!; [done| | |].
  - by eapply run_result_submseteq.
  - intros Hl. by destruct (run_complete _ _ _ _ Hl Hrun) as (_ & ? & _).
  - intros Hsmall. unfold fairDistributionShuffle_run in Hrun.
    rewrite decide_True in Hrun by done. by injection Hrun as <-.
Qed.

Lemma draws_within_pool count lvl w r :
  (∃ out w' r',
     getRandomCandidates count w r = Normal (out, w', r') ∧
     database w' = database w ∧
     out ⊆+ row_objects (non_winners w) ∧
     (0 ≤ count → Z.of_nat (length out) ≤ count)) ∧
  (∃ out w' r',
     getRandomCandidatesByLevel lvl count w r = Normal (out, w', r') ∧
     database w' = database w ∧
     out ⊆+ row_objects (non_winners_of_level lvl w) ∧
     (0 ≤ count → Z.of_nat (length out) ≤ count)).
Proof.
  split.
  - unfold getRandomCandidates, getRandomCandidates_resume, select_students.
    pose proof (next_fault_database w) as Hdb.
    destruct (next_fault w) as [[] w1]; simpl in *.
    { eexists _, _, _. split_and!; [done..| |simpl; lia].
      apply submseteq_nil_l. }
    rewrite Hdb. fold (non_winners w).
    destruct (decide (length (row_objects (non_winners w)) = 0%nat)).
    { eexists _, _, _. split_and!; [done..| |simpl; lia].
      apply submseteq_nil_l. }
    destruct (shuffle_run_total (row_objects (non_winners w)) r)
      as (run & -> & Hsub & _).
    eexists _, _, _. split_and!; [done..| |].
    + etrans; [apply Array_slice_prefix_submseteq|done].
    + intros Hc. rewrite draw_slice_length. unfold draw_size.
      rewrite decide_False by lia. lia.
  - unfold getRandomCandidatesByLevel, getRandomCandidatesByLevel_resume,
    select_students.
    pose proof (next_fault_database w) as Hdb.
    destruct (next_fault w) as [[] w1]; simpl in *.
    { eexists _, _, _. split_and!; [done..| |simpl; lia].
      apply submseteq_nil_l. }
    rewrite Hdb. fold (non_winners_of_level lvl w).
    destruct (decide (length (row_objects (non_winners_of_level lvl w))
                      = 0%nat)).
    { eexists _, _, _. split_and!; [done..| |simpl; lia].
      apply submseteq_nil_l. }
    destruct (shuffle_run_total (row_objects (non_winners_of_level lvl w)) r)
      as (run & -> & Hsub & _).
    eexists _, _, _. split_and!; [done..| |].
    + etrans; [apply Array_slice_prefix_submseteq|done].
    + intros Hc. rewrite draw_slice_length. unfold draw_size.
      rewrite decide_False by lia. lia.
Qed.

Lemma next_fault_failed w :
  head (faults w) = Some true → (next_fault w).1 = true.
Proof. unfold next_fault. by destruct (faults w) as [|[] ?]. Qed.

(** A draw whose request fails returns the empty array. *)
Lemma draws_failed count lvl w r :
  head (faults w) = Some true →
  (∃ w', getRandomCandidates count w r = Normal ([], w', r)) ∧
  (∃ w', getRandomCandidatesByLevel lvl count w r = Normal ([], w', r)).
Proof.
  intros Hfail%next_fault_failed.
  unfold getRandomCandidates, getRandomCandidates_resume,
    getRandomCandidatesByLevel, getRandomCandidatesByLevel_resume,
    select_students.
  destruct (next_fault w) as [failed w1]. simpl in Hfail. subst failed.
  split; by eexists.
Qed.

(** X6: the draws never throw, leave the table as it is, and return
    rows of the table that are not winners (of the level asked for), none
    more than once, and no more than [count] of them; they return the
    empty array when the request fails and when no row is left to draw
    from. *)
Theorem candidates_safe count lvl w r :
  (∃ out w' r',
     getRandomCandidates count w r = Normal (out, w', r') ∧
     database w' = database w ∧
     out ⊆+ row_objects (non_winners w) ∧
     (0 ≤ count → Z.of_nat (length out) ≤ count) ∧
     (head (faults w) = Some true → out = []) ∧
     (non_winners w = [] → out = [])) ∧
  (∃ out w' r',
     getRandomCandidatesByLevel lvl count w r = Normal (out, w', r') ∧
     database w' = database w ∧
     out ⊆+ row_objects (non_winners_of_level lvl w) ∧
     (0 ≤ count → Z.of_nat (length out) ≤ count) ∧
     (head (faults w) = Some true → out = []) ∧
     (non_winners_of_level lvl w = [] → out = [])).
Proof.
  destruct (draws_within_pool count lvl w r)
    as [(out & w' & r' & Hrun & Hdb & Hsub & Hlen)
        (out2 & w2 & r2 & Hrun2 & Hdb2 & Hsub2 & Hlen2)].
  split.
  - exists out, w', r'. split_and!; try done.
    + intros Hfail.
      destruct (draws_failed count lvl w r Hfail) as [[w0 Hrun0] _].
      rewrite Hrun in Hrun0. by injection Hrun0.
    + intros Hnone. rewrite Hnone in Hsub. by apply submseteq_nil_r.
  - exists out2, w2, r2. split_and!; try done.
    + intros Hfail.
      destruct (draws_failed count lvl w r Hfail) as [_ [w0 Hrun0]].
      rewrite Hrun2 in Hrun0. by injection Hrun0.
    + intros Hnone. rewrite Hnone in Hsub2. by apply submseteq_nil_r.
Qed.

End CandidateFacts.

Section CandidateSize.
Context {E : JsEngine}.

(** X7: when the request succeeds and no row has an empty level, the
    draw from all levels is the beginning of a rearrangement of the rows
    that are not winners. *)
Theorem getRandomCandidates_size count w r :
  head (faults w) ≠ Some true →
  Forall (λ s, level s ≠ "") (non_winners w) →
  ∃ out w' r' shuffled,
    getRandomCandidates count w r = Normal (out, w', r') ∧
    shuffled ≡ₚ row_objects (non_winners w) ∧
    out = take (length out) shuffled ∧
    (0 ≤ count →
     Z.of_nat (length out) = Z.min count (Z.of_nat (length (non_winners w)))) ∧
    (count < 0 →
     Z.of_nat (length out)
     = Z.max (Z.of_nat (length (non_winners w)) + count) 0) ∧
    ((length (non_winners w) ≤ 2)%nat →
     shuffled = row_objects (non_winners w)).
Proof.
  intros Hok Hlevels.
  unfold getRandomCandidates, getRandomCandidates_resume, select_students.
  pose proof (next_fault_database w) as Hdb.
  pose proof (next_fault_none w Hok) as Hnone.
  destruct (next_fault w) as [failed w1]; simpl in *. subst failed.
  cbn [error data]. rewrite Hdb. fold (non_winners w).
  set (data := row_objects (non_winners w)).
  assert (length data = length (non_winners w)) as Hlen
    by apply row_objects_length.
  destruct (decide (length data = 0%nat)) as [Hzero|Hpos].
  { exists [], w1, r, data. split_and!; try done; simpl; intros; lia. }
  destruct (shuffle_run_total data r) as (run & -> & _ & Hperm & Hsmall).
  specialize (Hperm (row_objects_levels_nonempty _ Hlevels)).
  pose proof (draw_slice_length (run_result run) count) as Hsize.
  unfold draw_size in Hsize. pose proof (Permutation_length Hperm) as Hpl.
  eexists _, _, _, (run_result run). split_and!; [done..| | | |].
  - rewrite !Array_slice_prefix, length_take. f_equal.
    match goal with
    | |- ?n = (?n `min` ?m)%nat => assert (n ≤ m)%nat; [|lia]
    end.
    destruct (decide (Z.min count (Z.of_nat (length (run_result run))) < 0));
      lia.
  - intros Hc. rewrite Hsize, Hpl, Hlen. by rewrite decide_False by lia.
  - intros Hc. rewrite Hsize, Hpl, Hlen. by rewrite decide_True by lia.
  - intros Hn. apply Hsmall. lia.
Qed.

(** X8: the draw from one level returns rows of that level only; when
    the request succeeds and the level asked for is not the empty string
    it is the beginning of a rearrangement of the rows of the level that
    are not winners. *)
Theorem getRandomCandidatesByLevel_size lvl count w r :
  head (faults w) ≠ Some true → lvl ≠ "" →
  ∃ out w' r' shuffled,
    getRandomCandidatesByLevel lvl count w r = Normal (out, w', r') ∧
    shuffled ≡ₚ row_objects (non_winners_of_level lvl w) ∧
    out = take (length out) shuffled ∧
    Forall (λ s, level s = lvl ∧ is_winner s = false) out ∧
    (0 ≤ count →
     Z.of_nat (length out)
     = Z.min count (Z.of_nat (length (non_winners_of_level lvl w)))) ∧
    (count < 0 →
     Z.of_nat (length out)
     = Z.max (Z.of_nat (length (non_winners_of_level lvl w)) + count) 0).
Proof.
  intros Hok Hlvl. unfold getRandomCandidatesByLevel, getRandomCandidatesByLevel_resume,
    select_students.
  pose proof (next_fault_database w) as Hdb.
  pose proof (next_fault_none w Hok) as Hnone.
  destruct (next_fault w) as [failed w1]; simpl in *. subst failed.
  cbn [error data]. rewrite Hdb. fold (non_winners_of_level lvl w).
  set (data := row_objects (non_winners_of_level lvl w)).
  assert (length data = length (non_winners_of_level lvl w)) as Hlen
    by apply row_objects_length.
  assert (Forall (λ s, level s = lvl ∧ is_winner s = false) data) as Hdata.
  { apply Forall_forall.
    intros s (row & Hrow & _ & Hl & _ & _ & _ & Hw)%row_objects_elem.
    apply list_elem_of_filter in Hrow as [[? ?] _]. split; congruence. }
  destruct (decide (length data = 0%nat)) as [Hzero|Hpos].
  { exists [], w1, r, data. split_and!; try done; simpl; intros; lia. }
  assert (levels_nonempty data) as Hlevels.
  { eapply Forall_impl; [done|]. intros s [-> _]. done. }
  destruct (shuffle_run_total data r) as (run & -> & _ & Hperm & _).
  specialize (Hperm Hlevels).
  pose proof (draw_slice_length (run_result run) count) as Hsize.
  unfold draw_size in Hsize. pose proof (Permutation_length Hperm) as Hpl.
  eexists _, _, _, (run_result run). split_and!; [done..| | | |].
  - rewrite !Array_slice_prefix, length_take. f_equal.
    match goal with
    | |- ?n = (?n `min` ?m)%nat => assert (n ≤ m)%nat; [|lia]
    end.
    destruct (decide (Z.min count (Z.of_nat (length (run_result run))) < 0));
      lia.
  - rewrite Array_slice_prefix. apply Forall_take. by rewrite Hperm.
  - intros Hc. rewrite Hsize, Hpl, Hlen. by rewrite decide_False by lia.
  - intros Hc. rewrite Hsize, Hpl, Hlen. by rewrite decide_True by lia.
Qed.

End CandidateSize.

(** ** The numbers of rows per level *)

Lemma cooldown_of_set_eq m k v : cooldown_of (Map_set m k v) k = v.
Proof. unfold cooldown_of. by rewrite Map_get_set_eq. Qed.

Lemma cooldown_of_set_ne m k k' v :
  k ≠ k' → cooldown_of (Map_set m k v) k' = cooldown_of m k'.
Proof. intros Hne. unfold cooldown_of. by rewrite Map_get_set_ne. Qed.

Lemma level_counts_from levelCounts data lvl :
  Map_get (foldl count_step levelCounts data) lvl =
  match filter (λ s, level s = lvl) data with
  | [] => Map_get levelCounts lvl
  | of_level =>
      Some (cooldown_of levelCounts lvl + Z.of_nat (length of_level))
  end.
Proof.
  revert levelCounts.
  induction data as [|s data IH]; intros m; simpl; [done|].
  rewrite IH. unfold count_step.
  destruct (decide (level s = lvl)) as [<-|Hne].
  - rewrite filter_cons_True by done.
    rewrite cooldown_of_set_eq, Map_get_set_eq.
    destruct (filter _ data) as [|s0 rest]; f_equal; rewrite ?length_cons;
      lia.
  - rewrite filter_cons_False by done.
    by rewrite cooldown_of_set_ne, Map_get_set_ne by done.
Qed.

Lemma level_counts_keys_from levelCounts data :
  (foldl count_step levelCounts data).*1 =
  foldl Set_add levelCounts.*1 (level <$> data).
Proof.
  revert levelCounts. induction data as [|s data IH]; intros m; simpl; [done|].
  rewrite IH. unfold count_step. by rewrite Map_set_keys.
Qed.

(** *** The order of the properties of an object *)

Lemma array_index_key k n : array_index k = Some n → pretty n = k.
Proof.
  unfold array_index. destruct (decimal k 0) as [m|]; [|done].
  destruct (decide _) as [[Hk _]|]; [|done]. by intros [= <-].
Qed.

Section JsObjectFacts.
Context {V : Type}.
Implicit Types (m : list (string * V)).

Lemma indexed_snd m :
  snd <$> indexed m = filter (λ e, is_Some (array_index e.1)) m.
Proof.
  unfold indexed. induction m as [|[k v] m IH]; [done|].
  cbn [omap list_omap]. cbn [fst].
  destruct (array_index k) as [n|] eqn:Hk; simpl.
  - rewrite filter_cons_True by (simpl; rewrite Hk; by eexists).
    by rewrite <-IH.
  - rewrite filter_cons_False; [done|]. simpl. rewrite Hk. by intros [? ?].
Qed.

Lemma indexed_index m :
  Forall (λ x, array_index x.2.1 = Some x.1) (indexed m).
Proof.
  apply Forall_forall. intros [n e]. unfold indexed.
  rewrite list_elem_of_omap. intros (e' & _ & He). simpl.
  destruct (array_index e'.1) eqn:Hk; simplify_eq/=. done.
Qed.

Lemma own_properties_perm m : own_properties m ≡ₚ m.
Proof.
  unfold own_properties. rewrite merge_sort_Permutation, indexed_snd.
  induction m as [|[k v] m IH]; [done|].
  destruct (array_index k) as [n|] eqn:Hk.
  - rewrite filter_cons_True by (simpl; rewrite Hk; by eexists).
    rewrite (filter_cons_False (λ e, array_index e.1 = None))
      by (simpl; by rewrite Hk).
    simpl. by rewrite IH.
  - rewrite filter_cons_False by (simpl; rewrite Hk; by intros [? ?]).
    rewrite (filter_cons_True (λ e, array_index e.1 = None)) by done.
    rewrite <-Permutation_middle. by rewrite IH.
Qed.

Lemma Map_get_perm m m' k :
  NoDup m.*1 → m' ≡ₚ m → Map_get m' k = Map_get m k.
Proof.
  intros Hnd Hperm.
  assert (NoDup m'.*1) as Hnd' by (by rewrite Hperm).
  destruct (Map_get m k) as [v|] eqn:Hg.
  - apply Map_elem_get; [done|]. rewrite Hperm. by apply Map_get_Some_elem.
  - destruct (Map_get m' k) as [v'|] eqn:Hg'; [|done].
    apply Map_get_Some_elem in Hg'. rewrite Hperm in Hg'.
    apply Map_elem_get in Hg'; [|done]. congruence.
Qed.

Lemma fromEntries_fold acc m :
  NoDup (acc ++ m).*1 →
  foldl (λ obj e, Map_set obj e.1 e.2) acc m = acc ++ m.
Proof.
  revert acc. induction m as [|[k v] m IH]; intros acc Hnd; simpl.
  - by rewrite app_nil_r.
  - rewrite Map_set_absent.
    + rewrite IH; rewrite <-app_assoc; done.
    + destruct (Map_get acc k) as [v0|] eqn:Hg; [|done].
      apply Map_get_Some_elem in Hg. rewrite fmap_app in Hnd.
      apply NoDup_app in Hnd as (_ & Hdis & _).
      exfalso. apply (Hdis k).
      * apply list_elem_of_fmap. by exists (k, v0).
      * simpl. by left.
Qed.

Lemma filter_keys (P : string → Prop) `{∀ k, Decision (P k)} m :
  (filter (λ e, P e.1) m).*1 = filter P m.*1.
Proof.
  induction m as [|[k v] m IH]; [done|]. rewrite fmap_cons. cbn [fst].
  destruct (decide (P k)).
  - rewrite !filter_cons_True by done. rewrite fmap_cons. by rewrite IH.
  - by rewrite !filter_cons_False by done.
Qed.

(** The keys of an object: the array indices in ascending order, then the
    other keys in the order of their creation. *)
Lemma own_properties_keys m :
  NoDup m.*1 →
  ∃ idx,
    (own_properties m).*1 = idx ++ filter (λ k, array_index k = None) m.*1 ∧
    Forall (λ k, is_Some (array_index k)) idx ∧
    StronglySorted (λ a b, (index_of a < index_of b)%N) idx.
Proof.
  intros Hnd. unfold own_properties.
  set (sorted := merge_sort index_le (indexed m)).
  exists (sorted.*2.*1). split_and!.
  - rewrite fmap_app. f_equal.
    apply (filter_keys (λ k, array_index k = None)
             (H := λ k, option_eq_None_dec (array_index k))).
  - assert (Forall (λ x, array_index x.2.1 = Some x.1) sorted) as Hidx.
    { unfold sorted. rewrite merge_sort_Permutation. apply indexed_index. }
    rewrite <-list_fmap_compose. apply Forall_fmap.
    eapply Forall_impl; [done|]. intros [n [k v]] Hk. simpl in *. by eexists.
  - assert (Forall (λ x, array_index x.2.1 = Some x.1) sorted) as Hidx.
    { unfold sorted. rewrite merge_sort_Permutation. apply indexed_index. }
    assert (NoDup sorted.*2.*1) as Hnd'.
    { unfold sorted. rewrite merge_sort_Permutation, indexed_snd.
      rewrite (filter_keys (λ k, is_Some (array_index k))
                 (H := λ k, is_Some_dec (array_index k))).
      by apply NoDup_filter. }
    assert (StronglySorted index_le sorted) as Hsorted.
    { unfold sorted. apply StronglySorted_merge_sort.
      - intros a b c. unfold index_le. lia.
      - intros a b. unfold index_le. lia. }
    clearbody sorted. clear Hnd.
    induction Hsorted as [|x l Hl IH Hx]; [constructor|].
    rewrite !fmap_cons in *.
    apply Forall_cons in Hidx as [Hx0 Hidx].
    apply NoDup_cons in Hnd' as [Hnotin Hnd'].
    constructor; [by apply IH|].
    rewrite <-list_fmap_compose. apply Forall_fmap.
    rewrite Forall_forall in Hx, Hidx. apply Forall_forall.
    intros y Hy. simpl. unfold index_of. rewrite Hx0, (Hidx y Hy). simpl.
    specialize (Hx y Hy). unfold index_le in Hx.
    destruct (decide (x.1 = y.1)) as [Heq|]; [|lia].
    exfalso. apply Hnotin.
    apply array_index_key in Hx0. specialize (Hidx y Hy).
    apply array_index_key in Hidx. rewrite Heq in Hx0.
    rewrite <-Hx0, Hidx, <-list_fmap_compose.
    apply list_elem_of_fmap. by exists y.
Qed.

End JsObjectFacts.

(** The numbers of rows per level depend on the levels of the rows only. *)
Lemma level_counts_levels levelCounts data data' :
  level <$> data = level <$> data' →
  foldl count_step levelCounts data = foldl count_step levelCounts data'.
Proof.
  revert levelCounts data'.
  induction data as [|s data IH]; intros m [|s' data'] Hl; try done.
  injection Hl as Hs Hl. simpl. unfold count_step at 2 4. rewrite Hs.
  by apply IH.
Qed.

Lemma row_objects_levels rows : level <$> row_objects rows = level <$> rows.
Proof.
  unfold row_objects. apply list_eq. intros i.
  rewrite !list_lookup_fmap, list_lookup_imap. by destruct (rows !! i).
Qed.

Lemma next_fault_console w : console (next_fault w).2 = console w.
Proof. unfold next_fault. by destruct (faults w). Qed.

Section LoggedLevels.
Context {E : JsEngine}.

(** X9: what [getRandomCandidates] logs when its request succeeds and
    there is a row to draw from: an object with one property per level of
    the rows, whose value is the number of rows of the level, and then
    the labels of the first ten entries of the shuffled rows.  The object lists the levels that are
    array indices first, in ascending numeric order, and then the other
    levels in order of first occurrence. *)
Theorem level_counts_spec count w r :
  head (faults w) ≠ Some true → non_winners w ≠ [] →
  ∃ out w' r' logged picks idx,
    getRandomCandidates count w r = Normal (out, w', r') ∧
    console w' = console w ++ [LogLevels logged; LogPicks picks] ∧
    (∃ shuffled,
       fairDistributionShuffle (row_objects (non_winners w)) r
       = Normal shuffled ∧
       picks = pick_label <$> Array_slice shuffled 0 10) ∧
    (∀ lvl, Map_get logged lvl =
            match filter (λ s, level s = lvl) (non_winners w) with
            | [] => None
            | of_level => Some (Z.of_nat (length of_level))
            end) ∧
    NoDup logged.*1 ∧
    logged.*1 = idx ++ filter (λ lvl, array_index lvl = None)
                         (distinct_levels (non_winners w)) ∧
    Forall (λ lvl, is_Some (array_index lvl)) idx ∧
    StronglySorted (λ a b, (index_of a < index_of b)%N) idx.
Proof.
  intros Hok Hrows.
  unfold getRandomCandidates, getRandomCandidates_resume, select_students.
  pose proof (next_fault_database w) as Hdb.
  pose proof (next_fault_console w) as Hcon.
  pose proof (next_fault_none w Hok) as Hnone.
  destruct (next_fault w) as [failed w1]; simpl in *. subst failed.
  cbn [error data]. rewrite Hdb. fold (non_winners w).
  set (rows := non_winners w) in *.
  rewrite decide_False
    by (rewrite row_objects_length; by destruct rows).
  destruct (shuffle_run_total (row_objects rows) r) as (run & Hrun & _).
  rewrite Hrun.
  assert (level_counts (row_objects rows) = level_counts rows) as ->
    by apply level_counts_levels, row_objects_levels.
  assert (NoDup (level_counts rows).*1) as Hnd.
  { unfold level_counts. rewrite level_counts_keys_from.
    by apply foldl_Set_add_spec, NoDup_nil. }
  assert (Object_fromEntries (level_counts rows)
          = own_properties (level_counts rows)) as Hobj.
  { unfold Object_fromEntries. by rewrite fromEntries_fold. }
  destruct (own_properties_keys (level_counts rows) Hnd)
    as (idx & Hkeys & Hidx & Hsorted).
  eexists _, _, _, (Object_fromEntries (level_counts rows)), _, idx.
  split; [done|]. rewrite Hobj. split_and!; try done.
  - unfold console_log. simpl. rewrite Hcon, <-app_assoc. done.
  - exists (run_result run). unfold fairDistributionShuffle.
    by rewrite Hrun.
  - intros lvl.
    rewrite (Map_get_perm (level_counts rows));
      [|done|apply own_properties_perm].
    unfold level_counts. rewrite level_counts_from.
    by destruct (filter _ rows).
  - by rewrite own_properties_perm.
  - rewrite Hkeys. do 2 f_equal. apply level_counts_keys_from.
Qed.

End LoggedLevels.

Section PlainFacts.
Context {E : JsEngine}.

(** X10: the earlier [getRandomCandidates] returns, whatever the levels
    of the rows, rows that are not winners, none more than once; when the
    request succeeds, [count] of them or all. *)
Theorem getRandomCandidates_plain_spec count w r :
  ∃ out w' r',
    getRandomCandidates_plain count w r = (out, w', r') ∧
    database w' = database w ∧
    out ⊆+ row_objects (non_winners w) ∧
    (head (faults w) ≠ Some true → 0 ≤ count →
     Z.of_nat (length out) = Z.min count (Z.of_nat (length (non_winners w)))).
Proof.
  unfold getRandomCandidates_plain, select_students.
  pose proof (next_fault_database w) as Hdb.
  pose proof (next_fault_none w) as Hnone.
  destruct (next_fault w) as [[] w1]; simpl in *.
  { eexists _, _, _. split_and!; [done..|apply submseteq_nil_l|].
    intros Hok. by specialize (Hnone Hok). }
  rewrite Hdb. fold (non_winners w).
  destruct (decide (length (row_objects (non_winners w)) = 0%nat)) as [Hz|Hnz].
  { eexists _, _, _. split_and!; [done..|apply submseteq_nil_l|].
    rewrite row_objects_length in Hz. simpl. lia. }
  pose proof (sort_random_perm _ (row_objects (non_winners w)) r) as Hperm.
  destruct (sort_random (row_objects (non_winners w)) r) as [shuffled r'].
  simpl in Hperm.
  eexists _, _, _. split_and!; [done..| |].
  - rewrite <-Hperm. apply Array_slice_prefix_submseteq.
  - intros _ Hc. rewrite draw_slice_length. unfold draw_size.
    rewrite decide_False by lia.
    by rewrite (Permutation_length Hperm), row_objects_length.
Qed.

End PlainFacts.

(** ** The table under the requests *)

Lemma filter_all {A : Type} (P : A → Prop) `{∀ x, Decision (P x)} l :
  Forall P l → filter P l = l.
Proof.
  induction 1 as [|x l Hx Hl IH]; [done|].
  rewrite filter_cons_True by done. by rewrite IH.
Qed.

Lemma filter_none {A : Type} (P : A → Prop) `{∀ x, Decision (P x)} l :
  Forall (λ x, ¬ P x) l → filter P l = [].
Proof.
  induction 1 as [|x l Hx Hl IH]; [done|].
  by rewrite filter_cons_False by done.
Qed.

Section StoreFacts.
Context {P : Postgrest}.

(** One row stored. *)
Lemma store_rows_cons explicit taken seq row winner rest stored seq' :
  store_rows explicit taken seq ((row, winner) :: rest) = (Some stored, seq') →
  ∃ k lvl rm num nm stored',
    (if explicit then Map_get row "id" ≫= bigint_in = Some k
     else k = seq) ∧
    Map_get row "level" = Some lvl ∧ Map_get row "room" = Some rm ∧
    Map_get row "number" = Some num ∧ Map_get row "name" = Some nm ∧
    (k ∉ taken) ∧
    store_rows explicit (k :: taken) (if explicit then seq else seq + 1) rest
    = (Some stored', seq') ∧
    stored = {| obj_ref := 0; id := k; level := lvl; room := rm;
                number := num; name := nm; is_winner := winner |} :: stored'.
Proof.
  cbn [store_rows]. intros Hs.
  destruct explicit; repeat case_match; simplify_eq/=;
    match goal with
    | H : _ <$> ?o = Some _ |- _ => destruct o; simplify_eq/=
    end;
    by eexists _, _, _, _, _, _.
Qed.

(** The sequence does not go back. *)
Lemma store_rows_seq explicit taken seq rows :
  seq ≤ (store_rows explicit taken seq rows).2.
Proof.
  revert taken seq. induction rows as [|[row winner] rows IH];
    intros taken seq; cbn [store_rows]; [done|].
  destruct explicit.
  - repeat case_match; simplify_eq/=; try lia.
    match goal with
    | H : store_rows true ?t ?s rows = _ |- _ =>
        pose proof (IH t s) as Hle; rewrite H in Hle
    end. done.
  - repeat case_match; simplify_eq/=; try lia.
    match goal with
    | H : store_rows false ?t ?s rows = _ |- _ =>
        pose proof (IH t s) as Hle; rewrite H in Hle
    end. simpl in Hle. lia.
Qed.

(** The keys of the rows stored are new and differ from each other. *)
Lemma store_rows_fresh explicit taken seq rows stored seq' :
  store_rows explicit taken seq rows = (Some stored, seq') →
  NoDup (id <$> stored) ∧ ∀ k, k ∈ taken → k ∉ (id <$> stored).
Proof.
  revert taken seq stored.
  induction rows as [|[row winner] rows IH]; intros taken seq stored.
  - intros [= <- <-]. split; [constructor|]. intros k _. apply not_elem_of_nil.
  - intros (k & lvl & rm & num & nm & stored' & _ & _ & _ & _ & _ & Hnew
            & Hrest & ->)%store_rows_cons.
    destruct (IH _ _ _ Hrest) as [Hnd Hfresh]. rewrite fmap_cons. simpl.
    split.
    + constructor; [|done]. apply Hfresh. by left.
    + intros k' Hk' [->|Hin]%elem_of_cons; [done|].
      by apply (Hfresh k'); [right|].
Qed.

Lemma store_rows_NoDup explicit taken seq rows stored seq' :
  store_rows explicit taken seq rows = (Some stored, seq') →
  NoDup taken → NoDup (taken ++ (id <$> stored)).
Proof.
  intros [Hnd Hfresh]%store_rows_fresh Htaken.
  apply NoDup_app. split_and!; done.
Qed.

(** Keys taken from the sequence. *)
Lemma store_rows_issued taken seq rows stored seq' :
  store_rows false taken seq rows = (Some stored, seq') →
  seq' = seq + Z.of_nat (length rows) ∧
  Forall (λ s, seq ≤ id s < seq') stored.
Proof.
  revert taken seq stored.
  induction rows as [|[row winner] rows IH]; intros taken seq stored.
  - intros [= <- <-]. split; [simpl; lia|constructor].
  - intros (k & lvl & rm & num & nm & stored' & -> & _ & _ & _ & _ & Hnew
            & Hrest & ->)%store_rows_cons.
    destruct (IH _ _ _ Hrest) as [-> Hall]. split; [simpl; lia|].
    constructor; [simpl; lia|].
    eapply Forall_impl; [done|]. intros s. simpl. lia.
Qed.

(** The rows of a file that the filter of the page lets pass are stored
    with keys from the sequence when these are free. *)
Lemma store_rows_sequence taken seq valid :
  Forall Admin.valid_row valid →
  Forall (λ k, k < seq) taken →
  store_rows false taken seq ((λ s, (s, false)) <$> valid)
  = (Some (imap (λ i, stored_row (seq + Z.of_nat i)) valid),
     seq + Z.of_nat (length valid)).
Proof.
  intros Hvalid. revert taken seq.
  induction Hvalid as [|row valid Hrow Hvalid IH]; intros taken seq Htaken.
  - simpl. by rewrite Z.add_0_r.
  - rewrite fmap_cons. cbn [store_rows].
    destruct Hrow as (Hl & Hr & Hn & Hm). unfold Admin.truthy_cell in *.
    destruct (Map_get row "level") as [lvl|] eqn:Hgl; [|done].
    destruct (Map_get row "room") as [rm|] eqn:Hgr; [|done].
    destruct (Map_get row "number") as [num|] eqn:Hgn; [|done].
    destruct (Map_get row "name") as [nm|] eqn:Hgm; [|done].
    rewrite decide_False.
    2:{ intros Hin. rewrite Forall_forall in Htaken.
        specialize (Htaken _ Hin). lia. }
    rewrite IH.
    2:{ constructor; [lia|]. eapply Forall_impl; [done|]. intros k. simpl.
        lia. }
    simpl. f_equal.
    + f_equal. f_equal.
      * unfold stored_row. rewrite Hgl, Hgr, Hgn, Hgm. simpl.
        by rewrite Z.add_0_r.
      * apply imap_ext. intros i s _. simpl. f_equal. lia.
    + lia.
Qed.

(** ... and with the keys of the file when it has an [id] column. *)
Lemma store_rows_explicit taken seq valid keys :
  Forall Admin.valid_row valid →
  file_keys valid keys → NoDup keys → Forall (λ k, k ∉ taken) keys →
  store_rows true taken seq ((λ s, (s, false)) <$> valid)
  = (Some (uploaded_with keys valid), seq).
Proof.
  intros Hvalid Hkeys. revert taken.
  induction Hkeys as [|row key valid keys Hkey Hkeys IH];
    intros taken Hnd Hfree; [done|].
  apply Forall_cons in Hvalid as [Hrow Hvalid].
  apply NoDup_cons in Hnd as [Hnotin Hnd].
  apply Forall_cons in Hfree as [Hkfree Hfree].
  rewrite fmap_cons. cbn [store_rows]. rewrite Hkey.
  destruct Hrow as (Hl & Hr & Hn & Hm). unfold Admin.truthy_cell in *.
  destruct (Map_get row "level") as [lvl|] eqn:Hgl; [|done].
  destruct (Map_get row "room") as [rm|] eqn:Hgr; [|done].
  destruct (Map_get row "number") as [num|] eqn:Hgn; [|done].
  destruct (Map_get row "name") as [nm|] eqn:Hgm; [|done].
  rewrite decide_False by done.
  rewrite IH; [|done|done|].
  2:{ rewrite Forall_forall in Hfree. apply Forall_forall.
      intros k Hk [->|Hin]%elem_of_cons; [done|]. by apply (Hfree k). }
  simpl. do 2 f_equal.
  unfold stored_row. by rewrite Hgl, Hgr, Hgn, Hgm.
Qed.

(** The key of a stored row is that of its row in the file. *)
Lemma store_rows_keys taken seq rows stored seq' n r :
  store_rows true taken seq rows = (Some stored, seq') →
  rows !! n = Some r →
  ∃ s, stored !! n = Some s ∧ Map_get r.1 "id" ≫= bigint_in = Some (id s).
Proof.
  revert taken stored n.
  induction rows as [|[row winner] rows IH]; intros taken stored n; [done|].
  intros (k & lvl & rm & num & nm & stored' & Hk & _ & _ & _ & _ & _
          & Hrest & ->)%store_rows_cons Hn.
  destruct n as [|n]; simpl in Hn, Hrest.
  - injection Hn as <-. eexists. split; [done|]. done.
  - simpl. by eapply IH.
Qed.

(** A key that the file has twice makes the insertion fail. *)
Lemma store_rows_repeated taken seq rows i j ri rj key :
  i ≠ j → rows !! i = Some ri → rows !! j = Some rj →
  Map_get ri.1 "id" ≫= bigint_in = Some key →
  Map_get rj.1 "id" ≫= bigint_in = Some key →
  (store_rows true taken seq rows).1 = None.
Proof.
  intros Hij Hi Hj Hki Hkj.
  destruct (store_rows true taken seq rows) as [[stored|] seq'] eqn:Hs;
    [|done].
  exfalso.
  destruct (store_rows_keys _ _ _ _ _ _ _ Hs Hi) as (si & Hsi & Hidi).
  destruct (store_rows_keys _ _ _ _ _ _ _ Hs Hj) as (sj & Hsj & Hidj).
  destruct (store_rows_fresh _ _ _ _ _ _ Hs) as [Hnd _].
  apply Hij. apply (NoDup_lookup _ i j (id si) Hnd).
  - by rewrite list_lookup_fmap, Hsi.
  - rewrite list_lookup_fmap, Hsj. simpl. congruence.
Qed.

(** So does a key of the file that a row of the table has. *)
Lemma store_rows_taken taken seq rows i ri key :
  rows !! i = Some ri →
  Map_get ri.1 "id" ≫= bigint_in = Some key →
  key ∈ taken →
  (store_rows true taken seq rows).1 = None.
Proof.
  intros Hi Hki Hin.
  destruct (store_rows true taken seq rows) as [[stored|] seq'] eqn:Hs;
    [|done].
  exfalso.
  destruct (store_rows_keys _ _ _ _ _ _ _ Hs Hi) as (si & Hsi & Hidi).
  destruct (store_rows_fresh _ _ _ _ _ _ Hs) as [_ Hfresh].
  apply (Hfresh key Hin). apply list_elem_of_fmap. exists si.
  split; [congruence|]. by eapply list_elem_of_lookup_2.
Qed.

End StoreFacts.

Lemma NoDup_filter_key {A : Type} (f : A → Z) (k : Z) (l : list A) :
  NoDup (f <$> l) → (length (filter (λ x, f x = k) l) ≤ 1)%nat.
Proof.
  induction l as [|x l IH]; [simpl; lia|].
  rewrite fmap_cons. intros [Hx Hnd]%NoDup_cons. specialize (IH Hnd).
  destruct (decide (f x = k)) as [Hk|Hk].
  - rewrite filter_cons_True by done.
    rewrite filter_none; [simpl; lia|].
    apply Forall_forall. intros y Hy Hyk. apply Hx.
    apply list_elem_of_fmap. exists y. split; [congruence|done].
  - by rewrite filter_cons_False.
Qed.

Lemma ids_issued_update db (f : Student → Student) :
  (∀ s, id (f s) = id s) →
  ids_issued db →
  ids_issued {| students_rows := f <$> students_rows db;
                students_id_seq := students_id_seq db |}.
Proof.
  intros Hf (Hseq & Hall & Hnd). split_and!; simpl; [done| |].
  - apply Forall_fmap. eapply Forall_impl; [done|]. intros s. simpl.
    by rewrite Hf.
  - rewrite <-list_fmap_compose.
    rewrite (list_fmap_ext (id ∘ f) id (students_rows db)); [done|].
    intros i s _. simpl. apply Hf.
Qed.

Lemma ids_issued_delete db (Q : Student → Prop) `{∀ s, Decision (Q s)} :
  ids_issued db →
  ids_issued {| students_rows := filter Q (students_rows db);
                students_id_seq := students_id_seq db |}.
Proof.
  intros (Hseq & Hall & Hnd). split_and!; simpl; [done| |].
  - rewrite Forall_forall in Hall. apply Forall_forall.
    intros s [_ Hs]%list_elem_of_filter. by apply Hall.
  - eapply sublist_NoDup; [done|]. apply fmap_sublist, sublist_filter.
Qed.

Lemma ids_issued_nonzero db s :
  ids_issued db → s ∈ students_rows db → id s ≠ 0.
Proof.
  intros (_ & Hall & _) Hs. rewrite Forall_forall in Hall.
  specialize (Hall _ Hs). simpl in Hall. lia.
Qed.

Lemma ids_issued_key_zero db : ids_issued db → key_zero db = [].
Proof.
  intros Hinv. apply filter_none, Forall_forall. intros s Hs.
  by eapply ids_issued_nonzero.
Qed.

Section TableFacts.
Context {P : Postgrest}.

(** What an insertion leaves: the rows of before and, when it succeeds,
    those that the service stored. *)
Lemma insertStudents_rows students w :
  let db := database w in
  let explicit :=
    bool_decide (Exists (λ r : CsvRow * bool, is_Some (Map_get r.1 "id"))
                   ((λ s, (s, false)) <$> students)) in
  ((insertStudents students w).1 = false ∧
   students_rows (database (insertStudents students w).2) = students_rows db ∧
   students_id_seq db ≤ students_id_seq (database (insertStudents students w).2))
  ∨
  (∃ stored seq',
     (insertStudents students w).1 = true ∧
     head (faults w) ≠ Some true ∧
     store_rows explicit (id <$> students_rows db) (students_id_seq db)
       ((λ s, (s, false)) <$> students) = (Some stored, seq') ∧
     database (insertStudents students w).2
     = {| students_rows := students_rows db ++ stored;
          students_id_seq := seq' |}).
Proof.
  intros db explicit. subst db. unfold insertStudents, insert_students.
  pose proof (next_fault_database w) as Hdb.
  pose proof (next_fault_failed w) as Hfail.
  destruct (next_fault w) as [[] w1]; simpl in *.
  { left. rewrite Hdb. split_and!; [done..|lia]. }
  destruct (accepts_others _); simpl.
  2:{ left. rewrite Hdb. split_and!; [done..|lia]. }
  rewrite Hdb. subst explicit.
  match goal with
  | |- context [store_rows ?e ?t ?s ?r] =>
      pose proof (store_rows_seq e t s r) as Hseq;
      destruct (store_rows e t s r) as [[stored|] seq'] eqn:Hs
  end; simpl in *.
  - right. exists stored, seq'. split_and!; try done.
    intros Hf. by specialize (Hfail Hf).
  - left. done.
Qed.

Lemma no_id_not_explicit (students : list CsvRow) :
  Forall no_id_column students →
  bool_decide (Exists (λ r : CsvRow * bool, is_Some (Map_get r.1 "id"))
                 ((λ s, (s, false)) <$> students)) = false.
Proof.
  intros Hno. apply bool_decide_eq_false. rewrite Exists_exists.
  intros ([row b] & Hin & Hid). simpl in Hid.
  apply list_elem_of_fmap in Hin as (s & [= -> ->] & Hs).
  rewrite Forall_forall in Hno. specialize (Hno _ Hs).
  unfold no_id_column in Hno. rewrite Hno in Hid. by destruct Hid.
Qed.

(** Every call that writes keeps the keys of the table distinct. *)
Lemma write_keeps_keys c w :
  NoDup (id <$> students_rows (database w)) →
  NoDup (id <$> students_rows (database (write c w).2)).
Proof.
  intros Hnd. destruct c as [studentId| | |students]; simpl.
  - unfold markAsWinner, markAsWinner_resume, update_is_winner.
    pose proof (next_fault_database w) as Hdb.
    destruct (next_fault w) as [[] w1]; simpl in *; rewrite Hdb; [done|].
    rewrite <-list_fmap_compose.
    rewrite (list_fmap_ext _ id (students_rows (database w))); [done|].
    intros i s _. simpl. by destruct (decide _).
  - unfold resetAllWinners, update_is_winner.
    pose proof (next_fault_database w) as Hdb.
    destruct (next_fault w) as [[] w1]; simpl in *; rewrite Hdb; [done|].
    rewrite <-list_fmap_compose.
    rewrite (list_fmap_ext _ id (students_rows (database w))); [done|].
    intros i s _. simpl. by destruct (decide _).
  - unfold deleteAllStudents, delete_students.
    pose proof (next_fault_database w) as Hdb.
    destruct (next_fault w) as [[] w1]; simpl in *; rewrite Hdb; [done|].
    eapply sublist_NoDup; [done|]. apply fmap_sublist, sublist_filter.
  - destruct (insertStudents_rows students w)
      as [(_ & -> & _)|(stored & seq' & _ & _ & Hs & ->)]; [done|].
    simpl. rewrite fmap_app. by eapply store_rows_NoDup.
Qed.

(** ... and, when it inserts no row with an [id] column, issued by the
    sequence. *)
Lemma write_keeps_issued c w :
  (∀ students, c = WriteInsert students → Forall no_id_column students) →
  ids_issued (database w) → ids_issued (database (write c w).2).
Proof.
  intros Hno Hinv. destruct c as [studentId| | |students]; simpl.
  - unfold markAsWinner, markAsWinner_resume, update_is_winner.
    pose proof (next_fault_database w) as Hdb.
    destruct (next_fault w) as [[] w1]; simpl in *; rewrite Hdb; [done|].
    apply ids_issued_update; [|done]. intros s. by destruct (decide _).
  - unfold resetAllWinners, update_is_winner.
    pose proof (next_fault_database w) as Hdb.
    destruct (next_fault w) as [[] w1]; simpl in *; rewrite Hdb; [done|].
    apply ids_issued_update; [|done]. intros s. by destruct (decide _).
  - unfold deleteAllStudents, delete_students.
    pose proof (next_fault_database w) as Hdb.
    destruct (next_fault w) as [[] w1]; simpl in *; rewrite Hdb; [done|].
    by apply ids_issued_delete.
  - destruct Hinv as (Hseq & Hall & Hnd).
    destruct (insertStudents_rows students w)
      as [(_ & Hrows & Hle)|(stored & seq' & _ & _ & Hs & ->)].
    + split_and!; rewrite ?Hrows; [lia| |done].
      eapply Forall_impl; [done|]. intros s. simpl. lia.
    + rewrite (no_id_not_explicit students (Hno _ eq_refl)) in Hs.
      pose proof (store_rows_NoDup _ _ _ _ _ _ Hs Hnd) as Hnd'.
      apply store_rows_issued in Hs as [-> Hnew].
      split_and!; simpl; [lia| |by rewrite fmap_app].
      apply Forall_app. split.
      * eapply Forall_impl; [done|]. intros s. simpl. lia.
      * eapply Forall_impl; [done|]. intros s. simpl. lia.
Qed.

Lemma built_keys (calls : list Write) (fs : list bool) :
  NoDup (id <$> students_rows (database (built calls fs))).
Proof.
  unfold built.
  assert (∀ w, NoDup (id <$> students_rows (database w)) →
               NoDup (id <$> students_rows
                        (database (foldl (λ w c, (write c w).2) w calls))))
    as Hall.
  { induction calls as [|c calls IH]; intros w Hinv; simpl; [done|].
    apply IH. by apply write_keeps_keys. }
  apply Hall. simpl. constructor.
Qed.

Lemma built_issued (calls : list Write) (fs : list bool) :
  files_without_id calls → ids_issued (database (built calls fs)).
Proof.
  unfold built, files_without_id. intros Hno.
  assert (∀ w, (∀ students row, WriteInsert students ∈ calls →
                                row ∈ students → no_id_column row) →
               ids_issued (database w) →
               ids_issued (database (foldl (λ w c, (write c w).2) w calls)))
    as Hall.
  { clear Hno. induction calls as [|c calls IH]; intros w Hno Hinv; simpl;
      [done|].
    apply IH.
    - intros students row Hin. apply Hno. by right.
    - apply write_keeps_issued; [|done]. intros students ->.
      apply Forall_forall. intros row. apply Hno. by left. }
  apply Hall; [done|]. split_and!; simpl; [done|constructor..].
Qed.

(** X12: in every table that the calls of the client build from the empty
    one the keys differ from each other, so at most one row has the key 0,
    and none has it when no file inserted had an [id] column.  The filter
    [neq('id', 0)] selects every other row: a [deleteAllStudents] that
    succeeds leaves the row with the key 0 and nothing else, a
    [resetAllWinners] that succeeds leaves that row as it is and makes
    every other row a non-winner. *)
Theorem delete_and_reset_scope (calls : list Write) (fs : list bool) :
  let w := built calls fs in
  let rows := students_rows (database w) in
  NoDup (id <$> rows) ∧
  (length (key_zero (database w)) ≤ 1)%nat ∧
  (files_without_id calls → key_zero (database w) = []) ∧
  (∀ w', deleteAllStudents w = (true, w') →
         students_rows (database w') = key_zero (database w)) ∧
  (∀ w', resetAllWinners w = (true, w') →
         length (students_rows (database w')) = length rows ∧
         (∀ i s, rows !! i = Some s →
            students_rows (database w') !! i
            = Some (if decide (id s = 0) then s else set_is_winner false s)) ∧
         (key_zero (database w) = [] →
          non_winners w' = students_rows (database w'))).
Proof.
  intros w rows. pose proof (built_keys calls fs) as Hnd.
  fold w in Hnd. fold rows in Hnd. split_and!.
  - done.
  - by apply NoDup_filter_key.
  - intros Hno. by apply ids_issued_key_zero, built_issued.
  - intros w'. unfold deleteAllStudents, delete_students.
    pose proof (next_fault_database w) as Hdb.
    destruct (next_fault w) as [[] w1]; simpl in *; [done|].
    intros [= <-]. simpl. rewrite Hdb. unfold key_zero. fold rows.
    apply list_filter_iff. intros s. simpl.
    destruct (decide (id s = 0)); tauto.
  - intros w'. unfold resetAllWinners, update_is_winner.
    pose proof (next_fault_database w) as Hdb.
    destruct (next_fault w) as [[] w1]; simpl in *; [done|].
    intros [= <-]. unfold non_winners. simpl. rewrite Hdb. fold rows.
    split_and!.
    + by rewrite length_fmap.
    + intros i s Hi. rewrite list_lookup_fmap, Hi. simpl.
      by destruct (decide (id s ≠ 0)), (decide (id s = 0)).
    + intros Hzero. apply filter_all, Forall_fmap, Forall_forall.
      intros s Hs. simpl. destruct (decide (id s ≠ 0)) as [|Hz]; [done|].
      exfalso. assert (s ∈ key_zero (database w)) as Hin.
      { apply list_elem_of_filter. split; [|done].
        destruct (decide (id s = 0)); [done|]. by destruct Hz. }
      rewrite Hzero in Hin. by apply elem_of_nil in Hin.
Qed.

End TableFacts.


Section Winners.
Context {E : JsEngine}.


End Winners.

(** ** The administration page *)

Lemma next_fault_cons f fs db c :
  next_fault {| database := db; faults := f :: fs; console := c |}
  = (f, {| database := db; faults := fs; console := c |}).
Proof. done. Qed.

Lemma next_fault_nil db c :
  next_fault {| database := db; faults := []; console := c |}
  = (false, {| database := db; faults := []; console := c |}).
Proof. done. Qed.

(** A request that does not fail takes the next fault. *)
Lemma next_fault_ok w :
  head (faults w) ≠ Some true →
  next_fault w
  = (false, {| database := database w; faults := tail (faults w);
               console := console w |}).
Proof.
  destruct w as [db [|[] fs] c]; simpl; intros Hok; try done.
Qed.

Lemma next_fault_fails w :
  head (faults w) = Some true →
  next_fault w
  = (true, {| database := database w; faults := tail (faults w);
              console := console w |}).
Proof.
  destruct w as [db [|[] fs] c]; simpl; intros Hok; try done.
Qed.

Lemma deleteAllStudents_ok w :
  head (faults w) ≠ Some true →
  deleteAllStudents w
  = (true, {| database := {| students_rows := key_zero (database w);
                             students_id_seq := students_id_seq (database w) |};
              faults := tail (faults w); console := console w |}).
Proof.
  intros Hok. unfold deleteAllStudents, delete_students.
  rewrite (next_fault_ok w Hok). simpl. do 3 f_equal.
  unfold key_zero. apply list_filter_iff. intros s.
  destruct (decide (id s = 0)); tauto.
Qed.

Lemma deleteAllStudents_fails w :
  head (faults w) = Some true →
  ∃ w', deleteAllStudents w = (false, w') ∧ database w' = database w.
Proof.
  intros Hf. unfold deleteAllStudents, delete_students.
  rewrite (next_fault_fails w Hf). simpl. by eexists.
Qed.

Lemma count_students_ok (matching : Student → Prop)
    `{∀ s, Decision (matching s)} w :
  head (faults w) ≠ Some true →
  count_students matching w
  = ({| data := None;
        count := Some (Z.of_nat (length (filter matching
                                           (students_rows (database w)))));
        error := false |},
     {| database := database w; faults := tail (faults w);
        console := console w |}).
Proof.
  intros Hok. unfold count_students. by rewrite (next_fault_ok w Hok).
Qed.

Lemma count_or_zero_length n : count_or_zero (Some (Z.of_nat n)) = Z.of_nat n.
Proof. unfold count_or_zero. destruct (decide _); lia. Qed.

Lemma fetchCounts_ok p w :
  Forall (λ failed, failed = false) (take 2 (faults w)) →
  Admin.fetchCounts p w
  = ({| Admin.totalCount := Z.of_nat (length (students_rows (database w)));
        Admin.winnerCount :=
          Z.of_nat (length (filter (λ s, is_winner s = true)
                              (students_rows (database w))));
        Admin.isLoading := Admin.isLoading p;
        Admin.message := Admin.message p |},
     {| database := database w; faults := drop 2 (faults w);
        console := console w |}).
Proof.
  intros Hok. unfold Admin.fetchCounts, getTotalStudentCount, getWinnerCount.
  assert (head (faults w) ≠ Some true) as H1.
  { destruct (faults w) as [|[] ?]; try done.
    by apply Forall_cons in Hok as [? _]. }
  assert (head (tail (faults w)) ≠ Some true) as H2.
  { destruct (faults w) as [|? [|[] ?]]; try done.
    apply Forall_cons in Hok as [_ Hok].
    by apply Forall_cons in Hok as [? _]. }
  rewrite (count_students_ok _ w H1). simpl.
  rewrite count_students_ok by done. simpl.
  rewrite (filter_all (λ _, True)) by (by apply Forall_true).
  repeat (destruct (decide _) as [->|]; [|]); simpl;
    do 3 f_equal; by destruct (faults w) as [|? [|? ?]].
Qed.

Section UploadFacts.
Context {P : Postgrest}.

Lemma payload_others (students : list CsvRow) :
  (other_columns ∘ fst) <$> ((λ s : CsvRow, (s, false)) <$> students)
  = other_columns <$> students.
Proof. rewrite <-list_fmap_compose. by apply list_fmap_ext. Qed.

Lemma payload_lookup (students : list CsvRow) i row :
  students !! i = Some row →
  ((λ s : CsvRow, (s, false)) <$> students) !! i = Some (row, false).
Proof. intros Hi. by rewrite list_lookup_fmap, Hi. Qed.

Lemma insertStudents_stores students w explicit stored seq' :
  head (faults w) ≠ Some true →
  accepts_others (other_columns <$> students) = true →
  explicit = bool_decide (Exists (λ r : CsvRow * bool,
                                    is_Some (Map_get r.1 "id"))
                            ((λ s, (s, false)) <$> students)) →
  store_rows explicit (id <$> students_rows (database w))
    (students_id_seq (database w)) ((λ s, (s, false)) <$> students)
  = (Some stored, seq') →
  insertStudents students w
  = (true, {| database := {| students_rows :=
                               students_rows (database w) ++ stored;
                             students_id_seq := seq' |};
              faults := tail (faults w); console := console w |}).
Proof.
  intros Hok Hacc -> Hs. unfold insertStudents, insert_students.
  rewrite (next_fault_ok w Hok). rewrite payload_others, Hacc. simpl.
  match goal with
  | |- context [store_rows ?e ?t ?s ?r] =>
      replace (store_rows e t s r) with (Some stored, seq')
        by (symmetry; exact Hs)
  end. done.
Qed.

(** An insertion that fails leaves the rows. *)
Lemma insertStudents_failed students w w' :
  insertStudents students w = (false, w') →
  students_rows (database w') = students_rows (database w).
Proof.
  intros Hins.
  destruct (insertStudents_rows students w)
    as [(_ & Hrows & _)|(stored & seq' & Htrue & _)].
  - by rewrite Hins in Hrows.
  - by rewrite Hins in Htrue.
Qed.

Lemma insertStudents_refused students w :
  accepts_others (other_columns <$> students) = false →
  (insertStudents students w).1 = false.
Proof.
  intros Hacc. unfold insertStudents, insert_students.
  destruct (next_fault w) as [[] w1]; [done|].
  by rewrite payload_others, Hacc.
Qed.

Lemma insertStudents_fault students w :
  head (faults w) = Some true → (insertStudents students w).1 = false.
Proof.
  intros Hf. unfold insertStudents, insert_students.
  by rewrite (next_fault_fails w Hf).
Qed.

Lemma insertStudents_violation students w explicit :
  explicit = bool_decide (Exists (λ r : CsvRow * bool,
                                    is_Some (Map_get r.1 "id"))
                            ((λ s, (s, false)) <$> students)) →
  (store_rows explicit (id <$> students_rows (database w))
     (students_id_seq (database w)) ((λ s, (s, false)) <$> students)).1
  = None →
  (insertStudents students w).1 = false.
Proof.
  intros -> Hs. unfold insertStudents, insert_students.
  pose proof (next_fault_database w) as Hdb.
  destruct (next_fault w) as [[] w1]; [done|]. simpl in Hdb.
  destruct (accepts_others _); [|done]. simpl. rewrite Hdb.
  match goal with
  | |- context [store_rows ?e ?t ?s ?r] =>
      assert ((store_rows e t s r).1 = None) as Hs' by exact Hs;
      destruct (store_rows e t s r) as [[stored|] seq']
  end; done.
Qed.

Lemma id_column_explicit (students : list CsvRow) i row key :
  students !! i = Some row →
  Map_get row "id" ≫= bigint_in = Some key →
  bool_decide (Exists (λ r : CsvRow * bool, is_Some (Map_get r.1 "id"))
                 ((λ s, (s, false)) <$> students)) = true.
Proof.
  intros Hi Hk. apply bool_decide_eq_true, Exists_exists.
  exists (row, false). split.
  - apply list_elem_of_fmap. exists row. split; [done|].
    by eapply list_elem_of_lookup_2.
  - simpl. destruct (Map_get row "id"); [by eexists|done].
Qed.

Lemma uploaded_rows_non_winners db valid :
  Forall (λ s, is_winner s = false) (uploaded_rows db valid).
Proof.
  apply Forall_forall. intros s [i Hi]%list_elem_of_lookup.
  unfold uploaded_rows in Hi. rewrite list_lookup_imap in Hi.
  destruct (valid !! i); [|done]. by injection Hi as <-.
Qed.

Lemma uploaded_with_non_winners keys valid :
  Forall (λ s, is_winner s = false) (uploaded_with keys valid).
Proof.
  apply Forall_forall. intros s [i Hi]%list_elem_of_lookup.
  unfold uploaded_with in Hi. apply lookup_zip_with_Some in Hi
    as (k & row & -> & _ & _). done.
Qed.

Lemma key_zero_ids db : Forall (λ k, k = 0) (id <$> key_zero db).
Proof.
  apply Forall_fmap, Forall_forall. by intros s [? _]%list_elem_of_filter.
Qed.

(** The upload once the deletion went through and the service stored
    [stored]. *)
Lemma upload_stores rows p w explicit stored seq' :
  let valid := filter Admin.valid_row rows in
  valid ≠ [] →
  Forall (λ failed, failed = false) (take 4 (faults w)) →
  accepts_others (other_columns <$> valid) = true →
  explicit = bool_decide (Exists (λ r : CsvRow * bool,
                                    is_Some (Map_get r.1 "id"))
                            ((λ s, (s, false)) <$> valid)) →
  store_rows explicit (id <$> key_zero (database w))
    (students_id_seq (database w)) ((λ s, (s, false)) <$> valid)
  = (Some stored, seq') →
  Forall (λ s, is_winner s = false) stored →
  length stored = length valid →
  ∃ p' w',
    Admin.handleFileUpload (Some (Admin.Complete rows)) p w = (p', w') ∧
    upload_shown (key_zero (database w)) stored p' w'.
Proof.
  intros valid Hvalid Hok Hacc Hex Hs Hnw Hlen.
  unfold Admin.handleFileUpload. fold valid.
  rewrite decide_False by (by destruct valid).
  assert (head (faults w) ≠ Some true) as H1.
  { destruct (faults w) as [|[] ?]; try done.
    by apply Forall_cons in Hok as [? _]. }
  assert (head (tail (faults w)) ≠ Some true) as H2.
  { destruct (faults w) as [|? [|[] ?]]; try done.
    apply Forall_cons in Hok as [_ Hok].
    by apply Forall_cons in Hok as [? _]. }
  assert (Forall (λ failed, failed = false)
            (take 2 (tail (tail (faults w))))) as H34.
  { destruct (faults w) as [|? [|? ?]]; try done.
    apply Forall_cons in Hok as [_ Hok].
    by apply Forall_cons in Hok as [_ Hok]. }
  rewrite (deleteAllStudents_ok w H1). simpl.
  erewrite insertStudents_stores; [|done|done|done|done]. simpl.
  rewrite fetchCounts_ok by done. simpl.
  eexists _, _. split; [done|]. unfold upload_shown. simpl.
  rewrite length_app, filter_app, length_app.
  rewrite (filter_none _ stored).
  2:{ eapply Forall_impl; [done|]. simpl. intros s ->. done. }
  rewrite Hlen. simpl. split_and!; try done; lia.
Qed.

(** X14: the upload of a file with a valid row, when none of the four
    requests fails and the service accepts the columns that the file has
    besides those of the table.  The deletion leaves the rows with the
    key 0.  A file without an [id] column is stored under the next keys
    of the sequence, provided that the table has no row with the key 0 or
    the sequence is at 1 or beyond; a file with an [id] column in every
    valid row is stored under the keys of that column, provided that they
    differ from each other and from the key 0 when the table has such a
    row.  The table is then the rows kept and behind them the valid rows
    of the file, in the order of the file, none a winner; the page says
    how many were uploaded and shows all rows as total, the winners among
    the rows kept as winners. *)
Theorem upload_replaces_table rows p w :
  let valid := filter Admin.valid_row rows in
  let kept := key_zero (database w) in
  valid ≠ [] →
  Forall (λ failed, failed = false) (take 4 (faults w)) →
  accepts_others (other_columns <$> valid) = true →
  ∃ p' w',
    Admin.handleFileUpload (Some (Admin.Complete rows)) p w = (p', w') ∧
    (Forall no_id_column valid →
     kept = [] ∨ 1 ≤ students_id_seq (database w) →
     upload_shown kept (uploaded_rows (database w) valid) p' w') ∧
    (∀ keys, file_keys valid keys → NoDup keys →
             kept = [] ∨ 0 ∉ keys →
             upload_shown kept (uploaded_with keys valid) p' w').
Proof.
  intros valid kept Hvalid Hok Hacc.
  assert (Forall Admin.valid_row valid) as Hrows.
  { apply Forall_forall. by intros row [? _]%list_elem_of_filter. }
  destruct (Admin.handleFileUpload (Some (Admin.Complete rows)) p w)
    as [p' w'] eqn:Hup.
  exists p', w'. split; [done|]. split.
  - intros Hno Hfree.
    assert (Forall (λ k, k < students_id_seq (database w))
              (id <$> key_zero (database w))) as Htaken.
    { destruct Hfree as [Hnil|Hseq].
      - unfold kept in Hnil. rewrite Hnil. constructor.
      - eapply Forall_impl; [apply key_zero_ids|]. simpl. intros k ->. lia. }
    destruct (upload_stores rows p w false
                (uploaded_rows (database w) valid)
                (students_id_seq (database w) + Z.of_nat (length valid)))
      as (p1 & w1 & Hup1 & Hshown); try done.
    + symmetry. by apply no_id_not_explicit.
    + by apply store_rows_sequence.
    + apply uploaded_rows_non_winners.
    + unfold uploaded_rows. by rewrite length_imap.
    + fold valid in Hup1. rewrite Hup in Hup1. by injection Hup1 as <- <-.
  - intros keys Hkeys Hnd Hfree.
    assert (Forall (λ k, k ∉ (id <$> key_zero (database w))) keys) as Hall.
    { destruct Hfree as [Hnil|Hzero].
      - unfold kept in Hnil. rewrite Hnil. simpl. apply Forall_forall.
        intros k _. apply not_elem_of_nil.
      - apply Forall_forall. intros k Hk Hin.
        pose proof (key_zero_ids (database w)) as Hz.
        rewrite Forall_forall in Hz. rewrite (Hz _ Hin) in Hk. done. }
    assert (∃ row key, valid !! 0%nat = Some row ∧
                       Map_get row "id" ≫= bigint_in = Some key)
      as (row & key & Hrow & Hkey).
    { destruct Hkeys as [|row key ? ? Hkey _]; [done|]. by exists row, key. }
    destruct (upload_stores rows p w true (uploaded_with keys valid)
                (students_id_seq (database w)))
      as (p1 & w1 & Hup1 & Hshown); try done.
    + symmetry. by eapply id_column_explicit.
    + by apply store_rows_explicit.
    + apply uploaded_with_non_winners.
    + unfold uploaded_with. rewrite length_zip_with.
      apply Forall2_length in Hkeys.
      apply Nat.min_r, Nat.eq_le_incl. exact Hkeys.
    + fold valid in Hup1. rewrite Hup in Hup1. by injection Hup1 as <- <-.
Qed.

(** X15: an upload that does not go through.  A file without a valid row
    leaves everything as it was.  When the deletion fails the table is as
    it was.  Whenever the page reports that the insertion failed, the
    deletion was done and nothing was stored: the table has no row left
    but those with the key 0.  The insertion fails when the request
    fails, when the service refuses a column of the file, when two valid
    rows have the same key and when a valid row has the key 0 that a row
    of the table has. *)
Theorem upload_failure_outcomes rows p w :
  let valid := filter Admin.valid_row rows in
  ∃ p' w',
    Admin.handleFileUpload (Some (Admin.Complete rows)) p w = (p', w') ∧
    Admin.isLoading p' = false ∧
    (valid = [] →
     Admin.message p' = Some Admin.NoValidRows ∧ w' = w) ∧
    (valid ≠ [] → head (faults w) = Some true →
     Admin.message p' = Some Admin.DeleteFailed ∧
     database w' = database w) ∧
    (Admin.message p' = Some Admin.InsertFailed →
     students_rows (database w') = key_zero (database w)) ∧
    (valid ≠ [] → head (faults w) ≠ Some true →
     head (tail (faults w)) = Some true
     ∨ accepts_others (other_columns <$> valid) = false
     ∨ (∃ i j ri rj key,
          i ≠ j ∧ valid !! i = Some ri ∧ valid !! j = Some rj ∧
          Map_get ri "id" ≫= bigint_in = Some key ∧
          Map_get rj "id" ≫= bigint_in = Some key)
     ∨ (∃ i ri, valid !! i = Some ri ∧
                Map_get ri "id" ≫= bigint_in = Some 0 ∧
                key_zero (database w) ≠ []) →
     Admin.message p' = Some Admin.InsertFailed).
Proof.
  intros valid. unfold Admin.handleFileUpload. fold valid.
  destruct (decide (length valid = 0%nat)) as [Hz|Hnz].
  { eexists _, _. split; [done|]. simpl. split_and!; try done.
    - intros Hne. by destruct valid.
    - intros Hne. by destruct valid. }
  assert (valid ≠ []) as Hne by (by intros ->).
  destruct (decide (head (faults w) = Some true)) as [Hf|Hok].
  { destruct (deleteAllStudents_fails w Hf) as (w1 & -> & Hdb). simpl.
    eexists _, _. split; [done|]. simpl. split_and!; done. }
  rewrite (deleteAllStudents_ok w Hok). simpl.
  set (w1 := {| database := _; faults := tail (faults w);
                console := console w |}).
  destruct (insertStudents valid w1) as [[] w2] eqn:Hins; simpl.
  - destruct (Admin.fetchCounts _ w2) as [p3 w3] eqn:Hfetch.
    eexists _, _. split; [done|]. simpl.
    assert (Admin.message p3 = Some (Admin.Uploaded (length valid))) as Hm.
    { unfold Admin.fetchCounts in Hfetch.
      destruct (getTotalStudentCount w2) as [total w4].
      destruct (getWinnerCount w4) as [winners w5].
      by injection Hfetch as <- _. }
    rewrite Hm. split_and!; try done.
    intros _ _ Hcases. exfalso.
    assert ((insertStudents valid w1).1 = false) as Hfalse;
      [|by rewrite Hins in Hfalse].
    destruct Hcases as [Hf|[Hacc|[Hrep|Hzero]]].
    + by apply insertStudents_fault.
    + by apply insertStudents_refused.
    + destruct Hrep as (i & j & ri & rj & key & Hij & Hi & Hj & Hki & Hkj).
      eapply insertStudents_violation.
      { symmetry. by eapply id_column_explicit. }
      eapply (store_rows_repeated _ _ _ i j (ri, false) (rj, false) key);
        try done.
      * exact (payload_lookup _ _ _ Hi).
      * exact (payload_lookup _ _ _ Hj).
    + destruct Hzero as (i & ri & Hi & Hki & Hkz).
      eapply insertStudents_violation.
      { symmetry. by eapply id_column_explicit. }
      eapply (store_rows_taken _ _ _ i (ri, false) 0); try done.
      * exact (payload_lookup _ _ _ Hi).
      * simpl. destruct (key_zero (database w)) as [|s l] eqn:Hkz'; [done|].
        assert (s ∈ key_zero (database w)) as Hs by (rewrite Hkz'; by left).
        apply list_elem_of_filter in Hs as [Hid _].
        rewrite fmap_cons, Hid. by left.
  - eexists _, _. split; [done|]. simpl. split_and!; try done.
    intros _. by rewrite (insertStudents_failed _ _ _ Hins).
Qed.

End UploadFacts.
(** X13: without a failing request the numbers that the counting
    functions return are those of the rows that the draws take from. *)
Theorem counts_agree_with_pool lvl w :
  head (faults w) ≠ Some true →
  (getTotalStudentCount w).1 = Z.of_nat (length (students_rows (database w))) ∧
  (getTotalStudentCount w).1 - (getWinnerCount w).1
  = Z.of_nat (length (non_winners w)) ∧
  (getRemainingCountByLevel lvl w).1
  = Z.of_nat (length (non_winners_of_level lvl w)).
Proof.
  intros Hok. unfold getTotalStudentCount, getWinnerCount,
    getRemainingCountByLevel, count_students.
  pose proof (next_fault_database w) as Hdb.
  pose proof (next_fault_none w Hok) as Hnone.
  assert (∀ n : nat, count_or_zero (Some (Z.of_nat n)) = Z.of_nat n) as Hcz.
  { intros n. unfold count_or_zero. destruct (decide _); lia. }
  destruct (next_fault w) as [failed w1]. simpl in Hdb, Hnone. subst failed.
  cbn [fst snd error count]. rewrite !Hcz, Hdb.
  fold (non_winners_of_level lvl w).
  assert (filter (λ _ : Student, True) (students_rows (database w))
          = students_rows (database w)) as ->.
  { apply filter_all, Forall_true. done. }
  split_and!; [done| |done].
  unfold non_winners.
  induction (students_rows (database w)) as [|s rows IH]; [done|].
  destruct (is_winner s) eqn:Hw.
  - rewrite filter_cons_True by done.
    rewrite (filter_cons_False (λ s, is_winner s = false)) by (by rewrite Hw).
    simpl in *. lia.
  - rewrite filter_cons_False by (by rewrite Hw).
    rewrite (filter_cons_True (λ s, is_winner s = false)) by done.
    simpl in *. lia.
Qed.

(** ** Text of the draw page *)

Lemma characters_continued a b rest :
  is_continuation b = true →
  characters (String a (String b rest)) =
  match characters (String b rest) with
  | c :: cs => String a c :: cs
  | [] => [String a EmptyString]
  end.
Proof.
  intros Hb.
  change (characters (String a (String b rest)))
    with (if is_continuation b
          then match characters (String b rest) with
               | c :: cs => String a c :: cs
               | [] => [String a EmptyString]
               end
          else String a EmptyString :: characters (String b rest)).
  by rewrite Hb.
Qed.

Lemma characters_fresh a b rest :
  is_continuation b = false →
  characters (String a (String b rest)) =
  String a EmptyString :: characters (String b rest).
Proof.
  intros Hb.
  change (characters (String a (String b rest)))
    with (if is_continuation b
          then match characters (String b rest) with
               | c :: cs => String a c :: cs
               | [] => [String a EmptyString]
               end
          else String a EmptyString :: characters (String b rest)).
  by rewrite Hb.
Qed.

Lemma characters_tail rest s :
  all_continuation rest = true →
  starts_character s = true →
  ∀ b, is_continuation b = true →
       characters (String b (rest +:+ s)) = String b rest :: characters s.
Proof.
  revert s. induction rest as [|b' rest IH]; intros s Hrest Hs b Hb.
  - change (EmptyString +:+ s) with s.
    destruct s as [|a s']; [done|].
    cbn [starts_character] in Hs. apply negb_true_iff in Hs.
    by rewrite characters_fresh.
  - cbn [all_continuation] in Hrest. apply andb_prop in Hrest as [Hb' Hrest].
    change (String b' rest +:+ s) with (String b' (rest +:+ s)).
    rewrite (characters_continued b b' _ Hb').
    by rewrite (IH s Hrest Hs b' Hb').
Qed.

Lemma characters_app c s :
  is_character c = true → starts_character s = true →
  characters (c +:+ s) = c :: characters s.
Proof.
  destruct c as [|a rest]; [done|].
  intros Hc Hs. cbn [is_character] in Hc.
  apply andb_prop in Hc as [Ha Hrest].
  destruct rest as [|b rest].
  - change (String a EmptyString +:+ s) with (String a s).
    destruct s as [|a' s']; [done|]. cbn [starts_character] in Hs.
    apply negb_true_iff in Hs. by rewrite characters_fresh.
  - cbn [all_continuation] in Hrest. apply andb_prop in Hrest as [Hb Hrest].
    change (String a (String b rest) +:+ s)
      with (String a (String b (rest +:+ s))).
    rewrite (characters_continued a b _ Hb).
    by rewrite (characters_tail rest s Hrest Hs b Hb).
Qed.

Lemma join_starts_character parts :
  Forall (λ c, is_character c = true) parts →
  starts_character (Array_join parts) = true.
Proof.
  destruct 1 as [|c rest Hc _]; [done|].
  destruct c as [|a tail]; [done|].
  cbn [is_character] in Hc. by apply andb_prop in Hc as [? _].
Qed.

(** Splitting what [Array_join] made of characters gives the characters
    back. *)
Lemma characters_join parts :
  Forall (λ c, is_character c = true) parts →
  characters (Array_join parts) = parts.
Proof.
  induction 1 as [|c parts Hc Hparts IH]; [done|]. simpl.
  rewrite characters_app; [by rewrite IH|done|].
  by apply join_starts_character.
Qed.

Lemma SCRAMBLE_CHARS_characters :
  Forall (λ c, is_character c = true ∧ code_units c = 1%nat) SCRAMBLE_CHARS.
Proof. apply (bool_decide_unpack _). by vm_compute. Qed.

Lemma THAI_SCRAMBLE_characters :
  Forall (λ c, is_character c = true ∧ code_units c = 1%nat) THAI_SCRAMBLE.
Proof. apply (bool_decide_unpack _). by vm_compute. Qed.

Lemma SCRAMBLE_CHARS_length : length SCRAMBLE_CHARS = 50%nat.
Proof. by vm_compute. Qed.

Lemma THAI_SCRAMBLE_length : length THAI_SCRAMBLE = 41%nat.
Proof. by vm_compute. Qed.

Section ScrambleFacts.
Context {E : JsEngine}.

Lemma random_chars_spec n chars r :
  (0 < length chars)%nat →
  length (random_chars n chars r).1 = n ∧
  Forall (λ c, c ∈ chars) (random_chars n chars r).1.
Proof.
  intros Hchars. revert r. induction n as [|n IH]; intros r; simpl.
  { split; [done|constructor]. }
  pose proof (random_index_lt (length chars) r Hchars) as Hi.
  destruct (random_index (length chars) r) as [i r1]. simpl in Hi.
  specialize (IH r1). destruct (random_chars n chars r1) as [rest r2].
  simpl in *. destruct IH as [Hlen Hall]. split; [by rewrite Hlen|].
  constructor; [|done].
  destruct (lookup_lt_is_Some_2 chars i Hi) as [c Hc]. rewrite Hc. simpl.
  by eapply list_elem_of_lookup_2.
Qed.

Lemma generateScramble_picks length useThai r :
  ∃ picked,
    (generateScramble length useThai r).1 = Array_join picked ∧
    characters (Array_join picked) = picked ∧
    Forall (λ c, c ∈ (if useThai then THAI_SCRAMBLE else SCRAMBLE_CHARS))
      picked ∧
    Z.of_nat (List.length picked) = Z.max length 5 ∧
    js_length (generateScramble length useThai r).1 = Z.max length 5.
Proof.
  unfold generateScramble.
  set (chars := if useThai then THAI_SCRAMBLE else SCRAMBLE_CHARS).
  assert (0 < List.length chars)%nat as Hpos.
  { unfold chars. destruct useThai;
      rewrite ?THAI_SCRAMBLE_length, ?SCRAMBLE_CHARS_length; lia. }
  assert (Forall (λ c, is_character c = true ∧ code_units c = 1%nat) chars)
    as Hchars.
  { unfold chars. destruct useThai;
      [apply THAI_SCRAMBLE_characters|apply SCRAMBLE_CHARS_characters]. }
  destruct (random_chars_spec (Z.to_nat (Z.max length 5)) chars r Hpos)
    as [Hlen Hall].
  destruct (random_chars _ chars r) as [picked r']. simpl in *.
  assert (Forall (λ c, is_character c = true ∧ code_units c = 1%nat) picked)
    as Hpicked.
  { rewrite Forall_forall in Hall, Hchars. apply Forall_forall.
    intros c Hc. by apply Hchars, Hall. }
  assert (characters (Array_join picked) = picked) as Hsplit.
  { apply characters_join. eapply Forall_impl; [done|]. by intros c [? _]. }
  assert (js_length (Array_join picked) = Z.of_nat (List.length picked))
    as Hjs.
  { unfold js_length. rewrite Hsplit. f_equal.
    clear -Hpicked. induction Hpicked as [|c picked [_ Hc] _ IH]; [done|].
    rewrite fmap_cons. simpl. by rewrite Hc, IH. }
  exists picked. split_and!; [done..|lia|]. rewrite Hjs. lia.
Qed.

(** X16: the scrambled text is made of max(length, 5) characters of the
    alphabet chosen, and that is its length. *)
Theorem generateScramble_spec length useThai r :
  ∃ picked,
    (generateScramble length useThai r).1 = Array_join picked ∧
    characters (Array_join picked) = picked ∧
    Forall (λ c, c ∈ (if useThai then THAI_SCRAMBLE else SCRAMBLE_CHARS))
      picked ∧
    Z.of_nat (List.length picked) = Z.max length 5 ∧
    js_length (generateScramble length useThai r).1 = Z.max length 5.
Proof. apply generateScramble_picks. Qed.

Lemma generateScramble_nonempty length useThai r :
  (generateScramble length useThai r).1 ≠ "".
Proof.
  destruct (generateScramble_picks length useThai r)
    as (picked & _ & _ & _ & _ & Hjs).
  intros Heq. rewrite Heq in Hjs. unfold js_length in Hjs. simpl in Hjs. lia.
Qed.

(** X17: after [updateScrambledTexts], what [getDisplayText] shows for a
    field that is not revealed yet is the scrambled text, not the fallback
    and not the field: max(length of the field, 5) characters of the
    alphabet (the Thai one for the name).  It is the same for every
    student whose fields have the same lengths. *)
Theorem hidden_field_display s texts r field required stage :
  (stage < required)%nat →
  let texts' := (updateScrambledTexts (Some s) texts r).1 in
  (∀ r2, ∃ picked,
     getDisplayText (Some s) stage texts' field required r2
     = (Array_join picked, r2) ∧
     Forall (λ c, c ∈ (if bool_decide (field = field_name)
                       then THAI_SCRAMBLE else SCRAMBLE_CHARS)) picked ∧
     Z.of_nat (List.length picked)
     = Z.max (js_length (student_field field s)) 5) ∧
  (∀ s' r2,
     (∀ f, js_length (student_field f s') = js_length (student_field f s)) →
     updateScrambledTexts (Some s') texts r
     = updateScrambledTexts (Some s) texts r ∧
     getDisplayText (Some s') stage texts' field required r2
     = getDisplayText (Some s) stage texts' field required r2).
Proof.
  intros Hstage texts'. split.
  - intros r2. unfold getDisplayText. rewrite decide_False by lia.
    unfold texts', updateScrambledTexts.
    pose proof (generateScramble_picks (js_length (level s)) false r) as H1.
    pose proof (generateScramble_nonempty (js_length (level s)) false r) as N1.
    destruct (generateScramble (js_length (level s)) false r) as [lvl r1].
    pose proof (generateScramble_picks (js_length (room s)) false r1) as H2.
    pose proof (generateScramble_nonempty (js_length (room s)) false r1) as N2.
    destruct (generateScramble (js_length (room s)) false r1) as [rm r3].
    pose proof (generateScramble_picks (js_length (number s)) false r3) as H3.
    pose proof (generateScramble_nonempty (js_length (number s)) false r3)
      as N3.
    destruct (generateScramble (js_length (number s)) false r3) as [num r4].
    pose proof (generateScramble_picks (js_length (name s)) true r4) as H4.
    pose proof (generateScramble_nonempty (js_length (name s)) true r4) as N4.
    destruct (generateScramble (js_length (name s)) true r4) as [nm r5].
    simpl in *.
    destruct field; simpl;
      [destruct H1 as (picked & -> & _ & Hall & Hlen & _)
      |destruct H2 as (picked & -> & _ & Hall & Hlen & _)
      |destruct H3 as (picked & -> & _ & Hall & Hlen & _)
      |destruct H4 as (picked & -> & _ & Hall & Hlen & _)];
      (rewrite decide_True by done); exists picked;
      (split_and!; [reflexivity|exact Hall|exact Hlen]).
  - intros s' r2 Hsame. split.
    + unfold updateScrambledTexts.
      pose proof (Hsame field_level) as Hl. pose proof (Hsame field_room) as Hr.
      pose proof (Hsame field_number) as Hn. pose proof (Hsame field_name) as Hm.
      simpl in Hl, Hr, Hn, Hm. by rewrite Hl, Hr, Hn, Hm.
    + unfold getDisplayText.
      destruct (decide (required ≤ stage)%nat); [lia|reflexivity].
Qed.

End ScrambleFacts.

(** ** The states of the draw page *)

Lemma table_later_refl db : table_later db db.
Proof.
  split; [done|]. apply Forall_Forall2_diag, Forall_true. intros s.
  by repeat split.
Qed.

Lemma table_later_trans db1 db2 db3 :
  table_later db1 db2 → table_later db2 db3 → table_later db1 db3.
Proof.
  intros [Hs1 H1] [Hs2 H2]. split; [congruence|].
  eapply Forall2_trans; [|done..].
  intros s1 s2 s3 (?&?&?&?&?&?&?) (?&?&?&?&?&?&?).
  repeat split; try congruence. auto.
Qed.

Lemma table_later_marked db studentId :
  table_later db {| students_rows := marked studentId (students_rows db);
                    students_id_seq := students_id_seq db |}.
Proof.
  split; [done|]. simpl. unfold marked. apply Forall2_fmap_r.
  apply Forall_Forall2_diag, Forall_true. intros s. simpl.
  destruct (decide (id s = studentId)); by repeat split.
Qed.

Lemma markAsWinner_rows studentId w :
  (markAsWinner studentId w).1 = false ∧
  database (markAsWinner studentId w).2 = database w ∨
  (markAsWinner studentId w).1 = true ∧
  database (markAsWinner studentId w).2
  = {| students_rows := marked studentId (students_rows (database w));
       students_id_seq := students_id_seq (database w) |}.
Proof.
  unfold markAsWinner, markAsWinner_resume, update_is_winner.
  pose proof (next_fault_database w) as Hdb.
  destruct (next_fault w) as [[] w1]; simpl in *; [by left|].
  right. by rewrite Hdb.
Qed.

Section PageFacts.
Context {E : JsEngine}.

Lemma loadCandidates_ok g w r :
  ∃ g' w' r',
    loadCandidates g w r = Normal (g', w', r') ∧
    database w' = database w ∧
    currentIndex g' = 0%nat ∧ revealStage g' = 0%nat ∧
    isLoading g' = false ∧ (length (candidates g') ≤ 10)%nat ∧
    drawMode g' = drawMode g ∧ selectedLevel g' = selectedLevel g.
Proof.
  unfold loadCandidates.
  destruct (draws_within_pool 10 (selectedLevel g) w r)
    as [(out & w' & r' & Hrun & Hdb & _ & Hlen)
        (out2 & w2 & r2 & Hrun2 & Hdb2 & _ & Hlen2)].
  destruct (drawMode g).
  - rewrite Hrun. eexists _, _, _. split; [done|]. simpl.
    split_and!; try done. lia.
  - rewrite Hrun2. eexists _, _, _. split; [done|]. simpl.
    split_and!; try done. lia.
Qed.

Lemma loadCandidates_game_ok g w r g' w' r' :
  loadCandidates g w r = Normal (g', w', r') →
  game_ok g' ∧ database w' = database w.
Proof.
  intros Hload.
  destruct (loadCandidates_ok g w r)
    as (g1 & w1 & r1 & Hload' & Hdb & Hi & Hst & Hl & Hlen & _).
  rewrite Hload in Hload'. injection Hload' as <- <- <-.
  split; [|done]. unfold game_ok. rewrite Hi, Hst, Hl.
  split_and!; [lia|done|done|by right].
Qed.

Lemma next_candidate_ok g :
  game_ok g → more_candidates g → game_ok (next_candidate false g).
Proof.
  intros (Hst & Hl & Hlen & Hidx) Hmore. unfold more_candidates in Hmore.
  unfold game_ok. simpl. split_and!; [lia|done|done|left; lia].
Qed.

(** One event: the page stays in a good state and the table changes at
    most by the marking of one student. *)
Lemma react_ok ev g w r :
  game_ok g →
  ∃ g' w' r' effects,
    react ev g w r = Normal (g', w', r', effects) ∧
    game_ok g' ∧ table_later (database w) (database w').
Proof.
  intros Hok.
  assert (Hreload : ∀ g0,
            ∃ g' w' r' effects,
              reload g0 w r = Normal (g', w', r', effects) ∧
              game_ok g' ∧ table_later (database w) (database w')).
  { intros g0. unfold reload.
    destruct (loadCandidates_ok g0 w r) as (g1 & w1 & r1 & Hload & _).
    rewrite Hload.
    destruct (loadCandidates_game_ok _ _ _ _ _ _ Hload) as [Hok1 Hdb1].
    eexists _, _, _, _. split; [done|]. split; [done|].
    rewrite Hdb1. apply table_later_refl. }
  assert (Hskip : ∃ g' w' r' effects,
            handleSkip g w r = Normal (g', w', r', effects) ∧
            game_ok g' ∧ table_later (database w) (database w')).
  { unfold handleSkip. destruct (decide (more_candidates g)) as [Hmore|Hlast].
    - eexists _, _, _, _. split; [done|]. split; [|apply table_later_refl].
      destruct Hok as (? & Hl & ? & ?). rewrite Hl.
      by apply next_candidate_ok.
    - destruct (loadCandidates_ok g w r) as (g1 & w1 & r1 & Hload & _).
      rewrite Hload.
      destruct (loadCandidates_game_ok _ _ _ _ _ _ Hload) as [Hok1 Hdb1].
      eexists _, _, _, _. split; [done|]. split; [done|].
      rewrite Hdb1. apply table_later_refl. }
  assert (Hconfirm : ∃ g' w' r' effects,
            handleConfirm g w r = Normal (g', w', r', effects) ∧
            game_ok g' ∧ table_later (database w) (database w')).
  { unfold handleConfirm. destruct (currentStudent g) as [s|].
    2:{ eexists _, _, _, _. split; [done|]. split; [done|].
        apply table_later_refl. }
    pose proof (markAsWinner_rows (id s) w) as Hmark.
    destruct (markAsWinner (id s) w) as [ok w1]. simpl in Hmark.
    assert (table_later (database w) (database w1)) as Hlater.
    { destruct Hmark as [[_ ->]|[_ ->]];
        [apply table_later_refl|apply table_later_marked]. }
    destruct (decide (more_candidates g)) as [Hmore|Hlast].
    - eexists _, _, _, _. split; [done|]. split; [|done].
      by apply next_candidate_ok.
    - destruct (loadCandidates_ok g w1 r) as (g1 & w2 & r1 & Hload & _).
      rewrite Hload.
      destruct (loadCandidates_game_ok _ _ _ _ _ _ Hload) as [Hok1 Hdb1].
      eexists _, _, _, _. split; [done|]. split; [done|].
      by rewrite Hdb1. }
  assert (Hreveal : game_ok (handleReveal g).1).
  { unfold handleReveal. destruct (currentStudent g); [|done].
    destruct (decide (3 ≤ revealStage g)%nat); [done|]. simpl.
    destruct Hok as (? & ? & ? & ?). unfold game_ok. simpl.
    split_and!; try done. lia. }
  destruct ev as [|e| | | |mode|lvl]; simpl.
  - apply Hreload.
  - unfold handleKeyDown.
    assert (game_ok
              (if decide (code e = "Space") then handleReveal g else (g, [])).1)
      as Hrev by (by destruct (decide (code e = "Space"))).
    destruct (decide (revealStage g = 3%nat ∧ isLoading g = false)).
    + destruct (confirm_key e); [done|]. destruct (skip_key e); [done|].
      eexists _, _, _, _. split; [done|]. split; [done|].
      apply table_later_refl.
    + eexists _, _, _, _. split; [done|]. split; [done|].
      apply table_later_refl.
  - destruct (decide _); [done|].
    eexists _, _, _, _. split; [done|]. split; [done|apply table_later_refl].
  - destruct (decide _); [done|].
    eexists _, _, _, _. split; [done|]. split; [done|apply table_later_refl].
  - destruct (decide _); [apply Hreload|].
    eexists _, _, _, _. split; [done|]. split; [done|apply table_later_refl].
  - destruct (decide _); [|apply Hreload].
    eexists _, _, _, _. split; [done|]. split; [done|apply table_later_refl].
  - destruct (decide _); [apply Hreload|].
    eexists _, _, _, _. split; [done|]. split; [done|apply table_later_refl].
Qed.

Lemma resume_within (mode : DrawMode) resp w r :
  ∃ out w' r',
    match mode with
    | draw_by_level => getRandomCandidatesByLevel_resume 10 resp w r
    | draw_all => getRandomCandidates_resume 10 resp w r
    end = Normal (out, w', r') ∧
    database w' = database w ∧ (length out ≤ 10)%nat.
Proof.
  unfold getRandomCandidatesByLevel_resume, getRandomCandidates_resume.
  destruct mode, (error resp); try (by eexists _, _, _; split_and!;
                                       [done..|simpl; lia]);
    (destruct (data resp) as [data|];
     [|by eexists _, _, _; split_and!; [done..|simpl; lia]]);
    (destruct (decide (length data = 0%nat));
     [by eexists _, _, _; split_and!; [done..|simpl; lia]|]);
    destruct (shuffle_run_total data r) as (run & -> & _);
    (eexists _, _, _; split_and!; [done..|]);
    pose proof (draw_slice_length (run_result run) 10) as Hlen;
    unfold draw_size in Hlen; rewrite decide_False in Hlen by lia; lia.
Qed.

Lemma select_students_database (matching : Student → Prop)
    `{∀ s, Decision (matching s)} w :
  database (select_students matching w).2 = database w.
Proof.
  unfold select_students. pose proof (next_fault_database w) as Hdb.
  by destruct (next_fault w) as [[] w1].
Qed.

Lemma update_is_winner_later studentId w :
  table_later (database w)
    (database (update_is_winner true (λ s, id s = studentId) w).2).
Proof.
  unfold update_is_winner. pose proof (next_fault_database w) as Hdb.
  destruct (next_fault w) as [[] w1]; simpl in *; rewrite Hdb.
  - apply table_later_refl.
  - apply table_later_marked.
Qed.

Lemma loadCandidates_start_ok mode lvl d :
  (length (candidates (game d)) ≤ 10)%nat →
  display_ok (loadCandidates_start mode lvl d).
Proof.
  intros Hlen. unfold display_ok. simpl.
  split_and!; [lia|done|]. intros Hnil. by apply app_nil in Hnil as [_ ?].
Qed.

Lemma handleReveal_stage g :
  (revealStage g ≤ 3)%nat →
  (revealStage (handleReveal g).1 ≤ 3)%nat ∧
  candidates (handleReveal g).1 = candidates g ∧
  isLoading (handleReveal g).1 = isLoading g.
Proof.
  intros Hst. unfold handleReveal. destruct (currentStudent g); [|done].
  destruct (decide (3 ≤ revealStage g)%nat); [done|]. simpl.
  split_and!; [lia|done..].
Qed.

Lemma handleConfirm_start_ok d :
  display_ok d → display_ok (handleConfirm_start d).1.
Proof.
  intros Hok. unfold handleConfirm_start.
  destruct (currentStudent (game d)); [|done].
  destruct Hok as (Hst & Hlen & _). unfold display_ok. simpl.
  split_and!; [done..|]. intros Hnil. by apply app_nil in Hnil as [_ ?].
Qed.

Lemma handleSkip_start_ok d :
  display_ok d → display_ok (handleSkip_start d).1.
Proof.
  intros Hok. unfold handleSkip_start.
  destruct (decide (more_candidates (game d))); simpl.
  - destruct Hok as (Hst & Hlen & Hl). unfold display_ok. simpl.
    split_and!; [lia|done..].
  - apply loadCandidates_start_ok, Hok.
Qed.

(** What the page does at once on an event. *)
Lemma handle_ok ev d : display_ok d → display_ok (handle ev d).1.
Proof.
  intros Hok. destruct ev as [|e| | | |mode|lvl]; simpl.
  - apply loadCandidates_start_ok, Hok.
  - unfold handleKeyDown_start.
    assert (display_ok
              {| game := (if decide (code e = "Space")
                          then handleReveal (game d) else (game d, [])).1;
                 pending := pending d |}) as Hrev.
    { destruct Hok as (Hst & Hlen & Hl).
      destruct (decide (code e = "Space")); [|done].
      destruct (handleReveal_stage (game d) Hst) as (Hst' & Hc & Hl').
      unfold display_ok. simpl. by rewrite Hc, Hl'. }
    destruct (decide (revealStage (game d) = 3%nat ∧ _)); [|done].
    destruct (confirm_key e); [by apply handleConfirm_start_ok|].
    destruct (skip_key e); [by apply handleSkip_start_ok|done].
  - destruct (decide _); [by apply handleConfirm_start_ok|done].
  - destruct (decide _); [by apply handleSkip_start_ok|done].
  - destruct (decide _); [apply loadCandidates_start_ok, Hok|done].
  - destruct (decide _); [done|].
    apply loadCandidates_start_ok, Hok.
  - destruct (decide _); [|done].
    apply loadCandidates_start_ok, Hok.
Qed.

(** The service answers a request. *)
Lemma serve_ok i d w :
  display_ok d →
  display_ok (serve i d w).1 ∧
  table_later (database w) (database (serve i d w).2).
Proof.
  intros Hok. unfold serve.
  assert (∀ t, display_ok {| game := game d; pending := <[i := t]> (pending d) |})
    as Hins.
  { intros t. destruct Hok as (Hst & Hlen & Hl). unfold display_ok. simpl.
    split_and!; [done..|]. intros Hnil. apply Hl.
    apply (f_equal length) in Hnil. rewrite length_insert in Hnil.
    by destruct (pending d). }
  destruct (pending d !! i) as [[mode lvl [resp|]|studentId render [resp|]]|];
    try (split; [done|apply table_later_refl]).
  - destruct mode.
    + pose proof (select_students_database (λ s, is_winner s = false) w)
        as Hdb.
      destruct (select_students _ w) as [resp w']. simpl in *.
      split; [exact (Hins _)|]. rewrite Hdb. apply table_later_refl.
    + pose proof (select_students_database
                    (λ s, is_winner s = false ∧ level s = lvl) w) as Hdb.
      destruct (select_students _ w) as [resp w']. simpl in *.
      split; [exact (Hins _)|]. rewrite Hdb. apply table_later_refl.
  - pose proof (update_is_winner_later studentId w) as Hlater.
    destruct (update_is_winner _ _ w) as [resp w']. simpl in *.
    split; [exact (Hins _)|done].
Qed.

End PageFacts.

Section InterleavingFacts.
Context {E : JsEngine}.

(** An answer arrives. *)
Lemma deliver_ok i r d w :
  display_ok d →
  ∃ d' w',
    deliver i r d w = Normal (d', w') ∧ display_ok d' ∧
    database w' = database w.
Proof.
  intros Hok. unfold deliver. destruct Hok as (Hst & Hlen & Hl).
  destruct (pending d !! i) as [[mode lvl [resp|]|studentId render [resp|]]|]
    eqn:Hi; try (by eexists _, _).
  - destruct (resume_within mode resp w r) as (out & w' & r' & Hrun & Hdb & Hn).
    rewrite Hrun. eexists _, _. split; [done|]. split; [|done].
    unfold display_ok. simpl. split_and!; done.
  - unfold markAsWinner_resume, handleConfirm_resume.
    assert (∃ w', (if error resp
                   then (false, console_log (LogError "Error marking winner:")
                                  w)
                   else (true, w)) = (negb (error resp), w') ∧
                  database w' = database w) as (w' & -> & Hdb).
    { destruct (error resp); by eexists. }
    destruct (decide (more_candidates render)).
    + eexists _, _. split; [done|]. split; [|done].
      unfold display_ok. simpl. split_and!; [lia|done..].
    + eexists _, _. split; [done|]. split; [|done].
      by apply loadCandidates_start_ok.
Qed.

Lemma step_ok s d w :
  display_ok d →
  ∃ d' w' effects,
    step s d w = Normal (d', w', effects) ∧ display_ok d' ∧
    table_later (database w) (database w').
Proof.
  intros Hok. destruct s as [ev|i|i r]; simpl.
  - pose proof (handle_ok ev d Hok) as Hd.
    destruct (handle ev d) as [d' effects]. eexists _, _, _.
    split; [done|]. split; [done|apply table_later_refl].
  - destruct (serve_ok i d w Hok) as [Hd Hw].
    destruct (serve i d w) as [d' w']. eexists _, _, _. by split.
  - destruct (deliver_ok i r d w Hok) as (d' & w' & -> & Hd & Hdb).
    eexists _, _, _. split; [done|]. split; [done|].
    rewrite Hdb. apply table_later_refl.
Qed.

Lemma session_ok steps d w :
  display_ok d →
  ∃ d' w' effects,
    session steps d w = Normal (d', w', effects) ∧ display_ok d' ∧
    table_later (database w) (database w').
Proof.
  revert d w. induction steps as [|s steps IH]; intros d w Hok.
  - eexists _, _, _. split; [done|]. split; [done|apply table_later_refl].
  - cbn [session].
    destruct (step_ok s d w Hok) as (d1 & w1 & eff & -> & Hok1 & Hlater1).
    destruct (IH d1 w1 Hok1) as (d2 & w2 & eff2 & -> & Hok2 & Hlater2).
    eexists _, _, _. split; [done|]. split; [done|].
    by eapply table_later_trans.
Qed.

Lemma session_app steps1 steps2 d w :
  session (steps1 ++ steps2) d w
  = match session steps1 d w with
    | Normal (d1, w1, effects1) =>
        match session steps2 d1 w1 with
        | Normal (d2, w2, effects2) => Normal (d2, w2, effects1 ++ effects2)
        | other => other
        end
    | other => other
    end.
Proof.
  revert d w. induction steps1 as [|s steps1 IH]; intros d w.
  - simpl. by destruct (session steps2 d w) as [[[d2 w2] e2]| |].
  - cbn [app session]. destruct (step s d w) as [[[d1 w1] e1]| |]; [|done..].
    rewrite IH. destruct (session steps1 d1 w1) as [[[d2 w2] e2]| |]; [|done..].
    destruct (session steps2 d2 w2) as [[[d3 w3] e3]| |]; [|done..].
    by rewrite app_assoc.
Qed.

(** With no request on its way the service and the arrival do nothing. *)
Lemma idle_steps g w r :
  session [Serve 0; Deliver 0 r] {| game := g; pending := [] |} w
  = Normal ({| game := g; pending := [] |}, w, []).
Proof. done. Qed.

(** [loadCandidates] answered at once. *)
Lemma load_at_once g c w r :
  ∃ g' w' r',
    loadCandidates g w r = Normal (g', w', r') ∧
    session [Serve 0; Deliver 0 r]
      {| game := {| candidates := c; currentIndex := 0; revealStage := 0;
                    isLoading := true; drawMode := drawMode g;
                    selectedLevel := selectedLevel g |};
         pending := [LoadTask (drawMode g) (selectedLevel g) None] |} w
    = Normal ({| game := g'; pending := [] |}, w', []).
Proof.
  destruct (loadCandidates_ok g w r) as (g' & w' & r' & Hload & _).
  exists g', w', r'. split; [done|].
  unfold loadCandidates, getRandomCandidates, getRandomCandidatesByLevel
    in Hload.
  cbn [session step]. unfold serve. cbn [pending lookup list_lookup].
  destruct (drawMode g).
  - destruct (select_students _ w) as [resp w1].
    unfold deliver. cbn [pending lookup list_lookup list_insert insert].
    destruct (getRandomCandidates_resume 10 resp w1 r)
      as [[[out w2] r2]| |]; [|done..].
    injection Hload as <- <- <-. done.
  - destruct (select_students _ w) as [resp w1].
    unfold deliver. cbn [pending lookup list_lookup list_insert insert].
    destruct (getRandomCandidatesByLevel_resume 10 resp w1 r)
      as [[[out w2] r2]| |]; [|done..].
    injection Hload as <- <- <-. done.
Qed.

Lemma reload_at_once g w r :
  ∃ g' w' r',
    reload g w r = Normal (g', w', r', []) ∧
    session (answered_at_once 0 r)
      (loadCandidates_start (drawMode g) (selectedLevel g)
         {| game := g; pending := [] |}) w
    = Normal ({| game := g'; pending := [] |}, w', []).
Proof.
  destruct (load_at_once g (candidates g) w r) as (g' & w' & r' & Hload & Hrun).
  exists g', w', r'. unfold reload. rewrite Hload. split; [done|].
  change (answered_at_once 0 r)
    with ([Serve 0; Deliver 0 r] ++ [Serve 0; Deliver 0 r]).
  rewrite session_app.
  change (loadCandidates_start (drawMode g) (selectedLevel g)
            {| game := g; pending := [] |})
    with {| game := {| candidates := candidates g; currentIndex := 0;
                       revealStage := 0; isLoading := true;
                       drawMode := drawMode g;
                       selectedLevel := selectedLevel g |};
            pending := [LoadTask (drawMode g) (selectedLevel g) None] |}.
  rewrite Hrun. by rewrite idle_steps.
Qed.

Lemma skip_at_once g w r :
  ∃ g' w' r',
    handleSkip g w r = Normal (g', w', r', [UnlockSound]) ∧
    session (answered_at_once 0 r)
      (handleSkip_start {| game := g; pending := [] |}).1 w
    = Normal ({| game := g'; pending := [] |}, w', []) ∧
    (handleSkip_start {| game := g; pending := [] |}).2 = [UnlockSound].
Proof.
  unfold handleSkip, handleSkip_start. cbn [game pending].
  destruct (decide (more_candidates g)).
  - eexists _, _, _. split; [done|]. split; done.
  - destruct (reload_at_once g w r) as (g' & w' & r' & Hload & Hrun).
    unfold reload in Hload.
    destruct (loadCandidates g w r) as [[[g1 w1] r1]| |]; [|done..].
    injection Hload as <- <- <-.
    eexists _, _, _. split; [done|]. split; [exact Hrun|done].
Qed.

(** [markAsWinner] answered at once. *)
Lemma mark_at_once studentId render g w r :
  session [Serve 0; Deliver 0 r]
    {| game := g; pending := [MarkTask studentId render None] |} w
  = Normal (handleConfirm_resume render {| game := g; pending := [] |},
            (markAsWinner studentId w).2, []).
Proof.
  cbn [session step]. unfold serve. cbn [pending lookup list_lookup].
  unfold markAsWinner.
  destruct (update_is_winner true (λ s0, id s0 = studentId) w) as [resp w1].
  unfold deliver. cbn [pending lookup list_lookup list_insert insert game].
  by destruct (markAsWinner_resume resp w1) as [ok w2].
Qed.

Lemma confirm_at_once g w r :
  ∃ g' w' r' effects,
    handleConfirm g w r = Normal (g', w', r', effects) ∧
    session (answered_at_once 0 r)
      (handleConfirm_start {| game := g; pending := [] |}).1 w
    = Normal ({| game := g'; pending := [] |}, w', []) ∧
    (handleConfirm_start {| game := g; pending := [] |}).2 = effects.
Proof.
  unfold handleConfirm, handleConfirm_start. cbn [game pending].
  destruct (currentStudent g) as [s|].
  2:{ eexists _, _, _, _. split; [done|]. split; done. }
  cbn [fst snd app].
  change (answered_at_once 0 r)
    with ([Serve 0; Deliver 0 r] ++ [Serve 0; Deliver 0 r]).
  rewrite session_app, mark_at_once.
  destruct (markAsWinner (id s) w) as [ok w1]. cbn [snd].
  unfold handleConfirm_resume.
  destruct (decide (more_candidates g)).
  - eexists _, _, _, _. split; [done|]. split; done.
  - destruct (load_at_once g (candidates g) w1 r)
      as (g' & w' & r' & Hload & Hrun).
    rewrite Hload. eexists _, _, _, _. split; [done|]. split; [|done].
    match goal with
    | |- context [session [Serve 0; Deliver 0 r] ?d w1] =>
        replace (session [Serve 0; Deliver 0 r] d w1)
          with (Normal ({| game := g'; pending := [] |}, w', @nil Effect))
          by (symmetry; exact Hrun)
    end. done.
Qed.

(** An event of [react] is the event followed by the answers to its
    requests, each before anything else happens. *)
Lemma react_answered_at_once ev g w r :
  ∃ g' w' r' effects,
    react ev g w r = Normal (g', w', r', effects) ∧
    session (User ev :: answered_at_once 0 r) {| game := g; pending := [] |} w
    = Normal ({| game := g'; pending := [] |}, w', effects).
Proof.
  pose (after := λ h : Display * list Effect,
          match session (answered_at_once 0 r) h.1 w with
          | Normal (d2, w2, effects') => Normal (d2, w2, h.2 ++ effects')
          | Throw => Throw
          | OutOfFuel => OutOfFuel
          end).
  assert (session (User ev :: answered_at_once 0 r)
            {| game := g; pending := [] |} w
          = after (handle ev {| game := g; pending := [] |})) as ->.
  { cbn [session step]. unfold after.
    by destruct (handle ev _) as [d' eff]. }
  assert (Hidle : ∀ g0 eff,
            ∃ g' w' r' effects,
              Normal (g0, w, r, eff) = Normal (g', w', r', effects) ∧
              after ({| game := g0; pending := [] |}, eff)
              = Normal ({| game := g'; pending := [] |}, w', effects)).
  { intros g0 eff. eexists _, _, _, _. split; [done|]. unfold after. simpl.
    by rewrite app_nil_r. }
  assert (Hreload : ∀ g0,
            ∃ g' w' r' effects,
              reload g0 w r = Normal (g', w', r', effects) ∧
              after (loadCandidates_start (drawMode g0) (selectedLevel g0)
                       {| game := g0; pending := [] |}, [])
              = Normal ({| game := g'; pending := [] |}, w', effects)).
  { intros g0. unfold after. cbn [fst snd].
    destruct (reload_at_once g0 w r) as (g' & w' & r' & Hload & ->).
    by eexists _, _, _, _. }
  assert (Hskip :
            ∃ g' w' r' effects,
              handleSkip g w r = Normal (g', w', r', effects) ∧
              after (handleSkip_start {| game := g; pending := [] |})
              = Normal ({| game := g'; pending := [] |}, w', effects)).
  { destruct (skip_at_once g w r) as (g' & w' & r' & Hrun & Hs & Heff).
    unfold after. rewrite Hs, Heff. by eexists _, _, _, _. }
  assert (Hconfirm :
            ∃ g' w' r' effects,
              handleConfirm g w r = Normal (g', w', r', effects) ∧
              after (handleConfirm_start {| game := g; pending := [] |})
              = Normal ({| game := g'; pending := [] |}, w', effects)).
  { destruct (confirm_at_once g w r) as (g' & w' & r' & eff & Hrun & Hs & Heff).
    unfold after. rewrite Hs, Heff. rewrite app_nil_r.
    by eexists _, _, _, _. }
  clearbody after.
  destruct ev as [|e| | | |mode|lvl]; cbn [react handle game].
  - apply Hreload.
  - unfold handleKeyDown, handleKeyDown_start. cbn [game pending].
    destruct (decide (revealStage g = 3%nat ∧ isLoading g = false)).
    + destruct (confirm_key e); [apply Hconfirm|].
      destruct (skip_key e); [apply Hskip|]. apply Hidle.
    + apply Hidle.
  - destruct (decide _); [apply Hconfirm|apply Hidle].
  - destruct (decide _); [apply Hskip|apply Hidle].
  - destruct (decide _); [apply Hreload|apply Hidle].
  - destruct (decide _); [apply Hidle|].
    apply (Hreload {| candidates := candidates g;
                      currentIndex := currentIndex g;
                      revealStage := revealStage g; isLoading := isLoading g;
                      drawMode := mode; selectedLevel := selectedLevel g |}).
  - destruct (decide _); [|apply Hidle].
    apply (Hreload {| candidates := candidates g;
                      currentIndex := currentIndex g;
                      revealStage := revealStage g; isLoading := isLoading g;
                      drawMode := drawMode g; selectedLevel := lvl |}).
Qed.

Lemma at_once_ok (events : list (Event * rng)) g w :
  game_ok g →
  ∃ g' w' effects,
    session (at_once events) {| game := g; pending := [] |} w
    = Normal ({| game := g'; pending := [] |}, w', effects) ∧
    game_ok g'.
Proof.
  revert g w. induction events as [|[ev r] events IH]; intros g w Hok.
  - by eexists _, _, _.
  - change (at_once ((ev, r) :: events))
      with ((User ev :: answered_at_once 0 r) ++ at_once events).
    rewrite session_app.
    destruct (react_answered_at_once ev g w r)
      as (g1 & w1 & r1 & eff1 & Hreact & ->).
    destruct (react_ok ev g w r Hok)
      as (g2 & w2 & r2 & eff2 & Hreact' & Hok1 & _).
    rewrite Hreact in Hreact'. injection Hreact' as <- <- <- <-.
    destruct (IH g1 w1 Hok1) as (g' & w' & eff & -> & Hok').
    by eexists _, _, _.
Qed.

(** X19: whatever the user does, whenever the service answers and in
    whatever order the answers arrive, with whatever random source and
    failing requests, the page does not throw; at every moment the stage
    is at most 3, there are at most ten candidates and the page shows
    itself loading only while a request is on its way; and the table has
    the rows it had, none deleted, added or changed but for winners
    marked.  When the requests of every event are answered before the
    next event, then after every event no request is on its way and the
    index is within the candidates (or 0 when there is none). *)
Theorem session_keeps_page_and_table steps (events : list (Event * rng)) w :
  (∃ d' w' effects,
     session steps initial_display w = Normal (d', w', effects) ∧
     display_ok d' ∧ table_later (database w) (database w')) ∧
  (∃ g' w' effects,
     session (at_once events) initial_display w
     = Normal ({| game := g'; pending := [] |}, w', effects) ∧
     game_ok g').
Proof.
  split.
  - apply session_ok. unfold display_ok, initial_display, initial_game. simpl.
    split_and!; [lia|lia|done].
  - apply at_once_ok. unfold game_ok, initial_game. simpl.
    split_and!; [lia|done|lia|by right].
Qed.

End InterleavingFacts.

(** The index can leave the candidates: a confirmation whose answer
    arrives after the mode was changed and the new candidates were set
    advances the index of the new batch.  The page then shows no
    candidate although the batch has one, the student just confirmed. *)
Lemma index_beyond_candidates :
  ∃ d w effects,
    session overtaken_confirmation initial_display one_of_level_world
    = Normal (d, w, effects) ∧
    id <$> candidates (game d) = [1] ∧ currentIndex (game d) = 1%nat ∧
    currentStudent (game d) = None ∧
    pending d = [] ∧ isLoading (game d) = false ∧
    is_winner <$> students_rows (database w) = [true; false; false].
Proof.
  eexists _, _, _. split; [vm_compute; reflexivity|].
  repeat split.
Qed.


Lemma victories_app a b : victories (a ++ b) = (victories a + victories b)%nat.
Proof. unfold victories. by rewrite filter_app, length_app. Qed.

Lemma space_key_reveals d :
  handle (KeyDown space_key) d
  = ({| game := (handleReveal (game d)).1; pending := pending d |},
     (handleReveal (game d)).2).
Proof.
  simpl. unfold handleKeyDown_start.
  rewrite (decide_True (P := code space_key = "Space")) by done.
  assert (confirm_key space_key = false) as -> by done.
  assert (skip_key space_key = false) as -> by done.
  by destruct (decide _).
Qed.

Lemma space_press_once d s :
  currentStudent (game d) = Some s → (revealStage (game d) ≤ 3)%nat →
  ∃ effects,
    handle (KeyDown space_key) d
    = ({| game := at_stage (Nat.min (S (revealStage (game d))) 3) (game d);
          pending := pending d |}, effects) ∧
    victories effects
    = (if decide (revealStage (game d) = 2%nat) then 1%nat else 0%nat).
Proof.
  intros Hcur Hst. rewrite space_key_reveals. unfold handleReveal.
  rewrite Hcur.
  destruct (decide (3 ≤ revealStage (game d))%nat) as [Hdone|Hmore];
    cbn [fst snd].
  - exists []. split.
    + do 2 f_equal. destruct (game d) as [c i st l m lv]. unfold at_stage.
      simpl in *. f_equal. lia.
    + rewrite decide_False by lia. done.
  - eexists. split.
    + do 2 f_equal. unfold at_stage. f_equal. lia.
    + destruct (decide (S (revealStage (game d)) = 3%nat)) as [H3|H3].
      * rewrite decide_True by lia. done.
      * rewrite decide_False by lia. done.
Qed.

Section RevealFacts.
Context {E : JsEngine}.

Lemma space_presses d w (n : nat) s :
  currentStudent (game d) = Some s → (revealStage (game d) ≤ 3)%nat →
  ∃ effects,
    session (replicate n (User (KeyDown space_key))) d w
    = Normal ({| game := at_stage (Nat.min (revealStage (game d) + n) 3)
                           (game d);
                 pending := pending d |}, w, effects) ∧
    victories effects =
      (if decide (revealStage (game d) < 3 ∧ 3 ≤ revealStage (game d) + n)%nat
       then 1%nat else 0%nat).
Proof.
  revert d. induction n as [|n IH]; intros d Hcur Hst.
  - exists []. simpl. split.
    + do 2 f_equal. destruct d as [g p]. simpl in *. f_equal.
      destruct g as [c i st l m lv]. unfold at_stage. simpl in *.
      assert (((st + 0) `min` 3)%nat = st) as -> by lia. done.
    + rewrite decide_False by lia. done.
  - cbn [replicate session step]. rewrite space_key_reveals.
    unfold handleReveal. rewrite Hcur.
    destruct (decide (3 ≤ revealStage (game d))%nat) as [Hdone|Hmore];
      cbn [fst snd].
    + assert ({| game := game d; pending := pending d |} = d) as ->
        by (by destruct d).
      destruct (IH d Hcur Hst) as (eff & -> & Hv).
      exists eff. split.
      * simpl.
        assert (((revealStage (game d) + n) `min` 3)%nat
                = ((revealStage (game d) + S n) `min` 3)%nat) as -> by lia.
        done.
      * simpl. rewrite Hv. rewrite !decide_False by lia. done.
    + set (g1 := {| candidates := candidates (game d);
                    currentIndex := currentIndex (game d);
                    revealStage := S (revealStage (game d));
                    isLoading := isLoading (game d);
                    drawMode := drawMode (game d);
                    selectedLevel := selectedLevel (game d) |}).
      destruct (IH {| game := g1; pending := pending d |})
        as (eff & -> & Hv); [done|simpl; lia|].
      eexists. split.
      * unfold at_stage. simpl.
        assert (S ((revealStage (game d) + n) `min` 2)
                = ((revealStage (game d) + S n) `min` 3)%nat) as -> by lia.
        done.
      * cbn [revealStage game g1] in Hv.
        destruct (decide (S (revealStage (game d)) = 3%nat)) as [H3|H3].
        -- change (victories ([InitSounds; VictorySound; Confetti] ++ eff)
                   = (if decide (revealStage (game d) < 3
                                 ∧ 3 ≤ revealStage (game d) + S n)%nat
                      then 1%nat else 0%nat)).
           rewrite victories_app, Hv.
           change (victories [InitSounds; VictorySound; Confetti])
             with 1%nat.
           rewrite decide_False by lia. rewrite decide_True by lia. done.
        -- change (victories ([InitSounds; UnlockSound] ++ eff)
                   = (if decide (revealStage (game d) < 3
                                 ∧ 3 ≤ revealStage (game d) + S n)%nat
                      then 1%nat else 0%nat)).
           rewrite victories_app, Hv.
           change (victories [InitSounds; UnlockSound]) with 0%nat.
           destruct (decide (S (revealStage (game d)) < 3 ∧ _)%nat),
             (decide (revealStage (game d) < 3 ∧ _)%nat); lia.
Qed.

Lemma space_presses_at_once g w (rs : list rng) s :
  currentStudent g = Some s → (revealStage g ≤ 3)%nat →
  ∃ effects,
    session (at_once ((λ r, (KeyDown space_key, r)) <$> rs))
      {| game := g; pending := [] |} w
    = Normal ({| game := at_stage (Nat.min (revealStage g + length rs) 3) g;
                 pending := [] |}, w, effects) ∧
    victories effects =
      (if decide (revealStage g < 3 ∧ 3 ≤ revealStage g + length rs)%nat
       then 1%nat else 0%nat).
Proof.
  revert g. induction rs as [|r rs IH]; intros g Hcur Hst.
  - exists []. split.
    + simpl. do 3 f_equal. destruct g as [c i st l m lv]. unfold at_stage.
      simpl in *.
      assert (((st + 0) `min` 3)%nat = st) as -> by lia. done.
    + simpl. rewrite decide_False by lia. done.
  - rewrite fmap_cons.
    change (at_once ((KeyDown space_key, r)
                       :: ((λ r0, (KeyDown space_key, r0)) <$> rs)))
      with ([User (KeyDown space_key)]
              ++ (answered_at_once 0 r
                    ++ at_once ((λ r0, (KeyDown space_key, r0)) <$> rs))).
    rewrite session_app. cbn [session step].
    destruct (space_press_once {| game := g; pending := [] |} s Hcur Hst)
      as (eff1 & -> & Hv1).
    cbn [game pending] in *.
    set (g1 := at_stage (Nat.min (S (revealStage g)) 3) g).
    rewrite session_app.
    change (answered_at_once 0 r)
      with ([Serve 0; Deliver 0 r] ++ [Serve 0; Deliver 0 r]).
    rewrite session_app, !idle_steps.
    destruct (IH g1) as (eff & -> & Hv); [done|simpl; lia|].
    eexists. split.
    + do 3 f_equal. unfold g1, at_stage. simpl.
      assert (S ((revealStage g `min` 2 + length rs) `min` 2)
              = ((revealStage g + S (length rs)) `min` 3)%nat) as -> by lia.
      done.
    + rewrite !app_nil_r, !app_nil_l, victories_app, Hv1, Hv.
      unfold g1. simpl.
      repeat destruct (decide _); simpl in *; lia.
Qed.

(** X18: with a candidate on display at stage 0, presses of the space
    bar raise the stage by one each up to 3 and no further; they change
    nothing else, whatever requests are on their way, make no request,
    and the victory sound is played once, on the third press.  So it is
    also when no request is on its way and each press is followed by the
    steps that would answer its requests. *)
Theorem three_presses_reveal d w (n : nat) (rs : list rng) s :
  currentStudent (game d) = Some s → revealStage (game d) = 0%nat →
  (∃ effects,
     session (replicate n (User (KeyDown space_key))) d w
     = Normal ({| game := at_stage (Nat.min n 3) (game d);
                  pending := pending d |}, w, effects) ∧
     victories effects = (if decide (3 ≤ n)%nat then 1%nat else 0%nat)) ∧
  (∃ effects,
     session (at_once ((λ r, (KeyDown space_key, r)) <$> rs))
       {| game := game d; pending := [] |} w
     = Normal ({| game := at_stage (Nat.min (length rs) 3) (game d);
                  pending := [] |}, w, effects) ∧
     victories effects
     = (if decide (3 ≤ length rs)%nat then 1%nat else 0%nat)).
Proof.
  intros Hcur Hst. split.
  - destruct (space_presses d w n s Hcur) as (eff & Hrun & Hv); [lia|].
    rewrite Hst in Hrun, Hv. simpl in Hrun, Hv. exists eff. split; [done|].
    rewrite Hv. destruct (decide (0 < 3 ∧ _)%nat), (decide (3 ≤ _)%nat); lia.
  - destruct (space_presses_at_once (game d) w rs s Hcur) as (eff & Hrun & Hv);
      [lia|].
    rewrite Hst in Hrun, Hv. simpl in Hrun, Hv. exists eff. split; [done|].
    rewrite Hv. destruct (decide (0 < 3 ∧ _)%nat), (decide (3 ≤ _)%nat); lia.
Qed.

Lemma reload_database g w r g' w' r' effects :
  reload g w r = Normal (g', w', r', effects) → database w' = database w.
Proof.
  unfold reload.
  destruct (loadCandidates g w r) as [[[g1 w1] r1]| |] eqn:Hload; [|done..].
  intros [= <- <- <- <-]. by apply loadCandidates_game_ok in Hload as [_ ?].
Qed.

Lemma handleSkip_database g w r g' w' r' effects :
  handleSkip g w r = Normal (g', w', r', effects) → database w' = database w.
Proof.
  unfold handleSkip. destruct (decide (more_candidates g)).
  - by intros [= <- <- <- <-].
  - destruct (loadCandidates g w r) as [[[g1 w1] r1]| |] eqn:Hload; [|done..].
    intros [= <- <- <- <-].
    by apply loadCandidates_game_ok in Hload as [_ ?].
Qed.

Lemma handleConfirm_database g w r g' w' r' effects :
  handleConfirm g w r = Normal (g', w', r', effects) →
  database w' = database w ∨
  ∃ s, currentStudent g = Some s ∧
       database w'
       = {| students_rows := marked (id s) (students_rows (database w));
            students_id_seq := students_id_seq (database w) |}.
Proof.
  unfold handleConfirm. destruct (currentStudent g) as [s|].
  2:{ intros [= <- <- <- <-]. by left. }
  pose proof (markAsWinner_rows (id s) w) as Hmark.
  destruct (markAsWinner (id s) w) as [ok w1]. simpl in Hmark.
  assert (database w' = database w1 →
          database w' = database w ∨
          ∃ s0, Some s = Some s0 ∧
                database w'
                = {| students_rows :=
                       marked (id s0) (students_rows (database w));
                     students_id_seq := students_id_seq (database w) |})
    as Hcase.
  { intros ->. destruct Hmark as [[_ ->]|[_ ->]]; [by left|right; eauto]. }
  destruct (decide (more_candidates g)).
  - intros [= <- <- <- <-]. by apply Hcase.
  - destruct (loadCandidates g w1 r) as [[[g1 w2] r1]| |] eqn:Hload; [|done..].
    intros [= <- <- <- <-]. apply Hcase.
    by apply loadCandidates_game_ok in Hload as [_ ?].
Qed.

(** X20: the only event that changes the table is a confirmation, by
    the button or a key, at stage 3 with nothing loading; what it changes
    is the mark of the student on display. *)
Theorem only_confirm_writes ev g w r g' w' r' effects :
  react ev g w r = Normal (g', w', r', effects) →
  database w' ≠ database w →
  revealStage g = 3%nat ∧ isLoading g = false ∧
  (ev = ClickConfirm ∨ ∃ e, ev = KeyDown e ∧ confirm_key e = true) ∧
  ∃ s, currentStudent g = Some s ∧
       database w'
       = {| students_rows := marked (id s) (students_rows (database w));
            students_id_seq := students_id_seq (database w) |}.
Proof.
  intros Hreact Hchanged.
  destruct ev as [|e| | | |mode|lvl]; simpl in Hreact.
  - by apply reload_database in Hreact.
  - unfold handleKeyDown in Hreact.
    destruct (decide (revealStage g = 3%nat ∧ isLoading g = false))
      as [[Hst Hl]|?].
    2:{ by injection Hreact as <- <- <- <-. }
    destruct (confirm_key e) eqn:Hkey.
    + apply handleConfirm_database in Hreact as [?|Hs]; [done|].
      split_and!; [done..|right; eauto|done].
    + destruct (skip_key e).
      * by apply handleSkip_database in Hreact.
      * by injection Hreact as <- <- <- <-.
  - destruct (decide _) as [(_ & Hst & Hl)|?].
    2:{ by injection Hreact as <- <- <- <-. }
    apply handleConfirm_database in Hreact as [?|Hs]; [done|].
    split_and!; [done..|by left|done].
  - destruct (decide _).
    + by apply handleSkip_database in Hreact.
    + by injection Hreact as <- <- <- <-.
  - destruct (decide _).
    + by apply reload_database in Hreact.
    + by injection Hreact as <- <- <- <-.
  - destruct (decide _).
    + by injection Hreact as <- <- <- <-.
    + by apply reload_database in Hreact.
  - destruct (decide _).
    + by apply reload_database in Hreact.
    + by injection Hreact as <- <- <- <-.
Qed.

(** X21: [handleConfirm] does not look at the outcome of [markAsWinner]:
    with more candidates in the batch it moves on to the next one whether
    the request failed, and the table is as it was, or not, and the
    student is marked. *)
Theorem handleConfirm_moves_on g w r s :
  currentStudent g = Some s → more_candidates g →
  ∃ w',
    handleConfirm g w r
    = Normal (next_candidate false g, w', r, [UnlockSound]) ∧
    (head (faults w) = Some true → database w' = database w) ∧
    (head (faults w) ≠ Some true →
     students_rows (database w')
     = marked (id s) (students_rows (database w))).
Proof.
  intros Hcur Hmore. unfold handleConfirm. rewrite Hcur.
  unfold markAsWinner, markAsWinner_resume, update_is_winner.
  pose proof (next_fault_database w) as Hdb.
  pose proof (next_fault_none w) as Hnone.
  destruct (next_fault w) as [failed w1] eqn:Hnf. simpl in *.
  destruct failed; simpl; rewrite decide_True by done.
  - eexists. split; [done|]. simpl. split; [done|].
    intros Hok. by specialize (Hnone Hok).
  - eexists. split; [done|]. simpl. split.
    + intros Hfail. unfold next_fault in Hnf.
      destruct (faults w) as [|f fs]; [done|]. simpl in Hfail.
      injection Hfail as ->. by injection Hnf.
    + intros _. by rewrite Hdb.
Qed.

End RevealFacts.

(** ** Witnesses of the further properties *)

Lemma example_levels :
  Forall (λ s, level s ≠ "") (non_winners example_world).
Proof. apply (bool_decide_unpack _). by vm_compute. Qed.

Lemma three_rooms_pool_single : Forall (λ s, level s = "1") three_rooms_pool.
Proof. repeat constructor. Qed.

(** X2, witness: the pool of five students in two levels. *)
Lemma level_repeat_exhausts_witness :
  levels_nonempty two_levels_pool ∧
  ∃ out, fairDistributionShuffle (E := stable_engine) two_levels_pool halves
         = Normal out ∧ out ≡ₚ two_levels_pool.
Proof.
  split; [exact two_levels_pool_nonempty|].
  destruct (level_repeat_exhausts (E := stable_engine) two_levels_pool halves
              two_levels_pool_nonempty) as (out & Hrun & Hperm & _).
  exists out. split; [exact Hrun | exact Hperm].
Defined.

(** X3, witness: the same pool. *)
Lemma first_picks_distinct_levels_witness :
  levels_nonempty two_levels_pool ∧
  ∃ out, fairDistributionShuffle (E := stable_engine) two_levels_pool halves
         = Normal out ∧
         ∀ si sj, out !! 0%nat = Some si → out !! 1%nat = Some sj →
                  level si ≠ level sj.
Proof.
  split; [exact two_levels_pool_nonempty|].
  destruct (first_picks_distinct_levels (E := stable_engine) two_levels_pool
              halves two_levels_pool_nonempty) as (out & Hrun & _ & Hfirst).
  exists out. split; [exact Hrun|]. intros si sj Hi Hj.
  apply (Hfirst 0%nat 1%nat si sj); [lia|vm_compute; lia|lia|exact Hi|exact Hj].
Defined.

(** X4, witness: one level with three rooms. *)
Lemma room_repeat_exhausts_witness :
  "1" ≠ "" ∧ Forall (λ s, level s = "1") three_rooms_pool ∧
  ∃ out, fairDistributionShuffle (E := stable_engine) three_rooms_pool halves
         = Normal out ∧ out ≡ₚ three_rooms_pool.
Proof.
  assert ("1" ≠ "") as Hlvl by discriminate.
  split; [exact Hlvl|]. split; [exact three_rooms_pool_single|].
  destruct (room_repeat_exhausts (E := stable_engine) three_rooms_pool halves
              "1" Hlvl three_rooms_pool_single) as (out & Hrun & Hperm & _).
  exists out. split; [exact Hrun | exact Hperm].
Defined.

(** X5, witness: the pool alone in a heap, at location 0. *)
Lemma shuffle_result_fresh_witness :
  pool_heap !! 0%nat = Some two_levels_pool ∧
  ∃ ret h' r',
    fairDistributionShuffle_heap (E := stable_engine)
      (length two_levels_pool) pool_heap 0 halves
    = Normal (ret, h', r') ∧
    ret ≠ 0%nat.
Proof.
  assert (pool_heap !! 0%nat = Some two_levels_pool) as Hin by reflexivity.
  split; [exact Hin|].
  destruct (shuffle_result_fresh (E := stable_engine) pool_heap 0
              two_levels_pool halves Hin)
    as (ret & h' & r' & Hrun & _ & Hfresh & _).
  exists ret, h', r'. split; [exact Hrun|]. apply Hfresh. simpl. lia.
Defined.

(** X7, witness: three candidates from a table of five. *)
Lemma getRandomCandidates_size_witness :
  head (faults example_world) ≠ Some true ∧
  Forall (λ s, level s ≠ "") (non_winners example_world) ∧
  ∃ out w' r',
    getRandomCandidates (E := stable_engine) 3 example_world halves
    = Normal (out, w', r') ∧
    Z.of_nat (length out) = 3.
Proof.
  assert (head (faults example_world) ≠ Some true) as Hok by discriminate.
  split; [exact Hok|]. split; [exact example_levels|].
  destruct (getRandomCandidates_size (E := stable_engine) 3 example_world
              halves Hok example_levels)
    as (out & w' & r' & shuffled & Hrun & _ & _ & Hlen & _).
  exists out, w', r'. split; [exact Hrun|]. apply Hlen. lia.
Defined.

(** X8, witness: the candidates of level 1. *)
Lemma getRandomCandidatesByLevel_size_witness :
  head (faults example_world) ≠ Some true ∧ "1" ≠ "" ∧
  ∃ out w' r',
    getRandomCandidatesByLevel (E := stable_engine) "1" 10 example_world
      halves
    = Normal (out, w', r') ∧
    Forall (λ s, level s = "1" ∧ is_winner s = false) out.
Proof.
  assert (head (faults example_world) ≠ Some true) as Hok by discriminate.
  assert ("1" ≠ "") as Hlvl by discriminate.
  split; [exact Hok|]. split; [exact Hlvl|].
  destruct (getRandomCandidatesByLevel_size (E := stable_engine) "1" 10
              example_world halves Hok Hlvl)
    as (out & w' & r' & shuffled & Hrun & _ & _ & Hall & _).
  exists out, w', r'. split; [exact Hrun | exact Hall].
Defined.


(** X13, witness: the table of five students. *)
Lemma counts_agree_with_pool_witness :
  head (faults example_world) ≠ Some true ∧
  (getTotalStudentCount example_world).1 = 5.
Proof.
  assert (head (faults example_world) ≠ Some true) as Hok by discriminate.
  split; [exact Hok|].
  exact (proj1 (counts_agree_with_pool "1" example_world Hok)).
Defined.

(** X9, witness: the table of five students. *)
Lemma level_counts_spec_witness :
  head (faults example_world) ≠ Some true ∧
  non_winners example_world ≠ [] ∧
  ∃ out w' r' logged picks,
    getRandomCandidates (E := stable_engine) 3 example_world halves
    = Normal (out, w', r') ∧
    console w' = console example_world ++ [LogLevels logged; LogPicks picks] ∧
    NoDup logged.*1.
Proof.
  assert (head (faults example_world) ≠ Some true) as Hok by discriminate.
  assert (non_winners example_world ≠ []) as Hrows
    by (vm_compute; discriminate).
  split; [exact Hok|]. split; [exact Hrows|].
  destruct (level_counts_spec (E := stable_engine) 3 example_world halves
              Hok Hrows)
    as (out & w' & r' & logged & picks & idx & Hrun & Hcon & _ & _ & Hnd
        & _).
  exists out, w', r', logged, picks.
  split; [exact Hrun|]. split; [exact Hcon | exact Hnd].
Defined.

(** The levels 2 and 1, in this order in the rows, are logged as 1 and 2,
    and before a level that is no array index, wherever that one comes. *)
Lemma logged_levels_ascending :
  Object_fromEntries
    (level_counts [student 1 "x" "1"; student 2 "2" "1"; student 3 "1" "1";
                   student 4 "2" "2"])
  = [("1", 1); ("2", 2); ("x", 1)].
Proof. vm_compute. reflexivity. Qed.

(** X14, witness: a file with two valid rows replaces the five rows. *)
Lemma upload_replaces_table_witness :
  filter Admin.valid_row example_file ≠ [] ∧
  Forall (λ failed, failed = false) (take 4 (faults example_world)) ∧
  accepts_others (other_columns <$> filter Admin.valid_row example_file)
  = true ∧
  ∃ p' w',
    Admin.handleFileUpload (Some (Admin.Complete example_file)) example_page
      example_world
    = (p', w') ∧
    upload_shown (key_zero (database example_world))
      (uploaded_rows (database example_world)
         (filter Admin.valid_row example_file)) p' w'.
Proof.
  assert (filter Admin.valid_row example_file ≠ []) as Hvalid
    by (vm_compute; discriminate).
  assert (Forall (λ failed, failed = false) (take 4 (faults example_world)))
    as Hok by constructor.
  assert (accepts_others
            (other_columns <$> filter Admin.valid_row example_file) = true)
    as Hacc by (vm_compute; reflexivity).
  split; [exact Hvalid|]. split; [exact Hok|]. split; [exact Hacc|].
  destruct (upload_replaces_table example_file example_page example_world
              Hvalid Hok Hacc)
    as (p' & w' & Hrun & Hseq & _).
  exists p', w'. split; [exact Hrun|]. apply Hseq.
  - apply (bool_decide_unpack _). vm_compute. reflexivity.
  - left. vm_compute. reflexivity.
Defined.

(** A file with an [id] column whose first key is 0: the row is stored
    under the key 0, and neither [deleteAllStudents] nor a later upload
    removes it. *)
Lemma key_zero_row_stays :
  ∃ p1 w1 p2 w2,
    Admin.handleFileUpload (Some (Admin.Complete keyed_file)) example_page
      example_world = (p1, w1) ∧
    Admin.message p1 = Some (Admin.Uploaded 2) ∧
    id <$> students_rows (database w1) = [0; 7] ∧
    id <$> students_rows (database (deleteAllStudents w1).2) = [0] ∧
    Admin.handleFileUpload (Some (Admin.Complete example_file)) p1 w1
    = (p2, w2) ∧
    Admin.message p2 = Some (Admin.Uploaded 2) ∧
    id <$> students_rows (database w2) = [0; 6; 7] ∧
    Admin.totalCount p2 = 3.
Proof.
  eexists _, _, _, _. split; [vm_compute; reflexivity|].
  split; [reflexivity|]. split; [reflexivity|]. split; [reflexivity|].
  split; [vm_compute; reflexivity|].
  split; [reflexivity|]. split; reflexivity.
Qed.

(** X15, witness: the file repeats a key; the insertion fails and the five
    rows are gone. *)
Lemma upload_failure_outcomes_witness :
  ∃ p' w',
    Admin.handleFileUpload (Some (Admin.Complete repeating_file))
      example_page example_world
    = (p', w') ∧
    Admin.message p' = Some Admin.InsertFailed ∧
    students_rows (database w') = key_zero (database example_world).
Proof.
  destruct (upload_failure_outcomes repeating_file example_page
              example_world)
    as (p' & w' & Hrun & _ & _ & _ & Hgone & Hinsert).
  assert (Admin.message p' = Some Admin.InsertFailed) as Hmsg.
  { apply Hinsert.
    - vm_compute. discriminate.
    - discriminate.
    - right. right. left.
      exists 0%nat, 1%nat, (("id", "7") :: csv_row "1" "1" "1" "a"),
        (("id", "7") :: csv_row "2" "3" "15" "b"), 7.
      split; [lia|]. split; [vm_compute; reflexivity|].
      split; [vm_compute; reflexivity|].
      split; vm_compute; reflexivity. }
  exists p', w'. split; [exact Hrun|]. split; [exact Hmsg|].
  exact (Hgone Hmsg).
Defined.

(** X17, witness: the name at stage 0. *)
Lemma hidden_field_display_witness :
  (0 < 3)%nat ∧
  ∃ picked,
    getDisplayText (E := stable_engine) (Some (student 1 "1" "1")) 0
      (updateScrambledTexts (E := stable_engine) (Some (student 1 "1" "1"))
         no_texts halves).1
      field_name 3 halves
    = (Array_join picked, halves) ∧
    Z.of_nat (length picked) = 5.
Proof.
  assert (0 < 3)%nat as Hstage by lia.
  split; [exact Hstage|].
  destruct (proj1 (hidden_field_display (E := stable_engine)
                     (student 1 "1" "1") no_texts halves field_name 3 0
                     Hstage) halves)
    as (picked & Hshow & _ & Hlen).
  exists picked. split; [exact Hshow | exact Hlen].
Defined.

(** X18, witness: four presses of the space bar while a request is on
    its way. *)
Lemma three_presses_reveal_witness :
  currentStudent (game busy_display) = Some (student 1 "1" "1") ∧
  revealStage (game busy_display) = 0%nat ∧
  ∃ effects,
    session (E := stable_engine) (replicate 4 (User (KeyDown space_key)))
      busy_display example_world
    = Normal ({| game := at_stage 3 (game busy_display);
                 pending := pending busy_display |},
              example_world, effects) ∧
    victories effects = 1%nat.
Proof.
  split; [reflexivity|]. split; [reflexivity|].
  exact (proj1 (three_presses_reveal (E := stable_engine) busy_display
                  example_world 4 [] (student 1 "1" "1") eq_refl eq_refl)).
Defined.

(** X20, witness: a click on the confirm button at stage 3. *)
Lemma only_confirm_writes_witness :
  react (E := stable_engine) ClickConfirm (at_stage 3 example_game)
    example_world halves
  = Normal (next_candidate false (at_stage 3 example_game), confirmed_world,
            halves, [UnlockSound]) ∧
  database confirmed_world ≠ database example_world ∧
  revealStage (at_stage 3 example_game) = 3%nat.
Proof.
  assert (react (E := stable_engine) ClickConfirm (at_stage 3 example_game)
            example_world halves
          = Normal (next_candidate false (at_stage 3 example_game),
                    confirmed_world, halves, [UnlockSound])) as Hrun
    by reflexivity.
  assert (database confirmed_world ≠ database example_world) as Hchanged
    by (vm_compute; discriminate).
  split; [exact Hrun|]. split; [exact Hchanged|].
  exact (proj1 (only_confirm_writes (E := stable_engine) ClickConfirm
                  (at_stage 3 example_game) example_world halves
                  _ _ _ _ Hrun Hchanged)).
Defined.

(** X21, witness: the first of five candidates is confirmed. *)
Lemma handleConfirm_moves_on_witness :
  currentStudent example_game = Some (student 1 "1" "1") ∧
  more_candidates example_game ∧
  ∃ w',
    handleConfirm (E := stable_engine) example_game example_world halves
    = Normal (next_candidate false example_game, w', halves, [UnlockSound]).
Proof.
  assert (more_candidates example_game) as Hmore
    by (unfold more_candidates; simpl; lia).
  split; [reflexivity|]. split; [exact Hmore|].
  destruct (handleConfirm_moves_on (E := stable_engine) example_game
              example_world halves (student 1 "1" "1") eq_refl Hmore)
    as (w' & Hrun & _).
  exists w'. exact Hrun.
Defined.
